(** * OptiSchedule: the hierarchical CP-SAT course scheduler

    A shallow embedding of [Backend/app/core/scheduler.py]
    (class [HierarchicalScheduler] and [generate_schedule]) together with
    the properties of the scheduler that the specification states.

    Conventions of the embedding.
    - Python [int] is [Z]; the natural-number fields of a catalog record
      (year level, unit counts, block count) are [nat].
    - Python [float] is IEEE-754 binary64, modelled by the Standard
      Library's [spec_float] with precision 53 and maximal exponent 1024.
    - A raised exception is the outcome [Raise]; a Python [None] result is
      an [option].
    - [dict]s whose iteration order is never observed are [gmap]s; the
      [defaultdict(list)] buckets, whose values are iterated in insertion
      order, are association lists.
    - The CP-SAT solver is an external collaborator.  The constraint model
      that the scheduler builds is represented as data ([CpModel]); what
      the solver may answer is an assignment that satisfies every
      constraint of that model, or nothing. *)

From Stdlib Require Import ZArith Lia SpecFloat.
From stdpp Require Import base tactics option list numbers strings gmap fin_maps sorting pretty.

Open Scope Z_scope.

(* ===================================================================== *)
(** * Python primitives *)
(* ===================================================================== *)

(** An operation that may raise. *)
Inductive Exc (A : Type) : Type :=
| Ret (a : A)
| Raise.
Arguments Ret {A} a.
Arguments Raise {A}.

Definition exc_bind {A B : Type} (m : Exc A) (k : A -> Exc B) : Exc B :=
  match m with
  | Ret a => k a
  | Raise => Raise
  end.

Definition exc_of_option {A : Type} (o : option A) : Exc A :=
  match o with
  | Some a => Ret a
  | None => Raise
  end.

(** [range(a, b)] and [range(n)]. *)
Definition py_range2 (a b : Z) : list Z := seqZ a (b - a).
Definition py_range (n : Z) : list Z := py_range2 0 n.

(** [l[i]]: negative indices count from the end, anything else out of
    range raises [IndexError]. *)
Definition py_index {A : Type} (l : list A) (i : Z) : Exc A :=
  let n := Z.of_nat (length l) in
  if bool_decide (0 <= i < n) then exc_of_option (l !! Z.to_nat i)
  else if bool_decide (- n <= i < 0) then exc_of_option (l !! Z.to_nat (i + n))
  else Raise.

(** [l.index(x)]: position of the first occurrence, [ValueError] if none. *)
Fixpoint py_list_index (l : list string) (x : string) : Exc Z :=
  match l with
  | [] => Raise
  | y :: l' =>
      if bool_decide (y = x) then Ret 0
      else exc_bind (py_list_index l' x) (fun i => Ret (i + 1))
  end.

(** ** Floats *)

Module PyFloat.

Definition prec : Z := 53.
Definition emax : Z := 1024.

Abbreviation float := spec_float.

(** The float nearest to [m * 2^e] (used for literals such as [1.5]). *)
Definition lit (m e : Z) : float := binary_normalize prec emax m e false.

(** [float(z)] for an [int] operand of a mixed operation. *)
Definition of_int (z : Z) : float := lit z 0.

Definition mul (x y : float) : float := SFmul prec emax x y.
Definition div (x y : float) : float := SFdiv prec emax x y.
Definition add (x y : float) : float := SFadd prec emax x y.
Definition sub (x y : float) : float := SFsub prec emax x y.
Definition ltb (x y : float) : bool := SFltb x y.

(** [int(x)]: truncation toward zero; raises on infinities and NaN. *)
Definition to_int (x : float) : Exc Z :=
  match x with
  | S754_zero _ => Ret 0
  | S754_finite s m e =>
      Ret (cond_Zopp s (if 0 <=? e then Z.pos m * 2 ^ e else Z.pos m / 2 ^ (- e)))
  | S754_infinity _ | S754_nan => Raise
  end.

(** [min(a, b)] and [max(a, b)] of the builtins: the first argument wins
    unless the second is strictly better. *)
Definition min2 (a b : float) : float := if ltb b a then b else a.
Definition max2 (a b : float) : float := if ltb a b then b else a.

End PyFloat.

(* ===================================================================== *)
(** * Data model *)
(* ===================================================================== *)

Inductive SchedulingPhase : Type :=
| PHASE_1_FLEXIBLE
| PHASE_2_REGULAR
| PHASE_3_CRITICAL.

Definition phase_value (p : SchedulingPhase) : Z :=
  match p with
  | PHASE_1_FLEXIBLE => 1
  | PHASE_2_REGULAR => 2
  | PHASE_3_CRITICAL => 3
  end.

#[global] Instance SchedulingPhase_eq_dec : EqDecision SchedulingPhase.
Proof. solve_decision. Defined.

(** A course record of the catalog. *)
Record Course : Type := mkCourse {
  courseCode : string;
  title : string;
  program : string;
  yearLevel : nat;
  unitsLecture : nat;
  unitsLab : nat;
  blocks : nat
}.

(** ['lecture'] and ['lab']: the two session types, which are also the keys
    of the room catalog. *)
Inductive SessType : Type :=
| lecture
| lab.

#[global] Instance SessType_eq_dec : EqDecision SessType.
Proof. solve_decision. Defined.

#[global] Instance SessType_countable : Countable SessType.
Proof.
  refine (inj_countable' (fun t => match t with lecture => false | lab => true end)
                         (fun b => if b then lab else lecture) _).
  by intros [].
Defined.

(** The room catalog: either key may be missing. *)
Record Rooms : Type := mkRooms {
  lecture_rooms : option (list string);
  lab_rooms : option (list string)
}.

Definition rooms_get (r : Rooms) (t : SessType) : option (list string) :=
  match t with
  | lecture => lecture_rooms r
  | lab => lab_rooms r
  end.

Record TimeSettings : Type := mkTimeSettings {
  start_time : Z;
  end_time : Z
}.

(** A section: (program, year, block letter); the block letter is kept as
    its code point, [ord('A') + b]. *)
Definition SectionKey : Type := string * nat * nat.
Definition RoomKey : Type := SessType * Z.

(** A calendar event as [extract_phase_solution] produces it, with the four
    internal fields ([_start_slot], [_duration], [_room_type], [_room_idx])
    that [solve] deletes just before it returns. *)
Record Event : Type := mkEvent {
  e_schedule_id : Z;
  e_courseCode : string;
  e_baseCourseCode : string;
  e_title : string;
  e_program : string;
  e_year : nat;
  e_session : string;
  e_block : nat;
  e_day : string;
  e_period : string;
  e_room : string;
  e_start_slot : Z;
  e_duration : Z;
  e_room_type : SessType;
  e_room_idx : Z
}.

(** The event as the caller sees it, after the internal fields are gone. *)
Record PublicEvent : Type := mkPublicEvent {
  schedule_id_of : Z;
  courseCode_of : string;
  baseCourseCode_of : string;
  title_of : string;
  program_of : string;
  year_of : nat;
  session_of : string;
  block_of : nat;
  day_of : string;
  period_of : string;
  room_of : string
}.

Definition strip_internal (e : Event) : PublicEvent :=
  {| schedule_id_of := e_schedule_id e;
     courseCode_of := e_courseCode e;
     baseCourseCode_of := e_baseCourseCode e;
     title_of := e_title e;
     program_of := e_program e;
     year_of := e_year e;
     session_of := e_session e;
     block_of := e_block e;
     day_of := e_day e;
     period_of := e_period e;
     room_of := e_room e |}.

Definition event_section_key (e : Event) : SectionKey :=
  (e_program e, e_year e, e_block e).

Definition event_room_key (e : Event) : RoomKey :=
  (e_room_type e, e_room_idx e).

(* ===================================================================== *)
(** * Course partitioner *)
(* ===================================================================== *)

Definition priority_score (course : Course) : Z :=
  Z.of_nat (yearLevel course) * 1000
  + (Z.of_nat (unitsLecture course) + Z.of_nat (unitsLab course) * 2) * 100
  + Z.of_nat (unitsLab course) * 50
  + Z.of_nat (blocks course) * 10.

Definition has_lecture (course : Course) : bool :=
  bool_decide (0 < unitsLecture course)%nat.

Definition has_lab (course : Course) : bool :=
  bool_decide (0 < unitsLab course)%nat.

(** The [if]/[elif]/[else] chain; Python reads the [elif] condition as
    [(a and b and has_lab) or (not has_lab and c)]. *)
Definition course_phase (course : Course) : SchedulingPhase :=
  let year_level := yearLevel course in
  if bool_decide (year_level <= 1)%nat && negb (has_lab course) then
    PHASE_1_FLEXIBLE
  else if (bool_decide (2 <= year_level)%nat && bool_decide (year_level < 4)%nat
           && has_lab course)
          || (negb (has_lab course) && bool_decide (2 <= year_level)%nat) then
    PHASE_2_REGULAR
  else
    PHASE_3_CRITICAL.

(** Tuples compare lexicographically. *)
Definition key_lt (k1 k2 : Z * Z) : bool :=
  bool_decide (k1.1 < k2.1) || (bool_decide (k1.1 = k2.1) && bool_decide (k1.2 < k2.2)).

(** [list.sort(key=...)] is a stable sort that only ever asks whether one
    key is smaller than another.  Insertion from the right, placing an
    element in front of the first one that is not smaller, is such a sort. *)
Fixpoint insert_by_key {A : Type} (key : A -> Z * Z) (x : A) (l : list A) : list A :=
  match l with
  | [] => [x]
  | y :: l' =>
      if key_lt (key y) (key x) then y :: insert_by_key key x l'
      else x :: y :: l'
  end.

Fixpoint sort_by_key {A : Type} (key : A -> Z * Z) (l : list A) : list A :=
  match l with
  | [] => []
  | x :: l' => insert_by_key key x (sort_by_key key l')
  end.

Definition scored (course : Course) : SchedulingPhase * Z * Course :=
  (course_phase course, priority_score course, course).

Definition scored_key (x : SchedulingPhase * Z * Course) : Z * Z :=
  (phase_value x.1.1, - x.1.2).

(** The codes added to [self.courses_with_both]. *)
Definition both_codes (courses : list Course) : gset string :=
  list_to_set (courseCode <$> filter (fun c => has_lecture c && has_lab c = true) courses).

Definition prioritize_and_partition_courses (courses : list Course)
  : list (SchedulingPhase * Course) :=
  (fun x => (x.1.1, x.2)) <$> sort_by_key scored_key (scored <$> courses).

(* ===================================================================== *)
(** * The constraint model handed to CP-SAT *)
(* ===================================================================== *)

Definition Var : Type := nat.

(** A Boolean variable or its negation ([lit.Not()]). *)
Inductive Lit : Type :=
| LitPos (v : Var)
| LitNeg (v : Var).

(** Linear expressions as Python's overloaded operators build them. *)
Inductive LinExpr : Type :=
| EVar (v : Var)
| EInt (z : Z)
| EAdd (a b : LinExpr)
| ESub (a b : LinExpr)
| EMul (a : LinExpr) (k : Z).

Inductive Cmp : Type := CEq | CNe | CLe | CLt | CGe | CGt.

Record IntervalVar : Type := mkInterval {
  iv_start : LinExpr;
  iv_size : Z;
  iv_end : LinExpr;
  iv_presence : option Lit
}.

Inductive Dom : Type :=
| DomValues (vs : list Z)
| DomRange (lo hi : Z).

Inductive Constraint : Type :=
| CDomain (v : Var) (d : Dom)
| CLinear (e1 : LinExpr) (c : Cmp) (e2 : LinExpr) (enforce : option Lit)
| CInterval (iv : IntervalVar)
| CNoOverlap (ivs : list IntervalVar)
| CMinEquality (target : LinExpr) (es : list LinExpr)
| CMaxEquality (target : LinExpr) (es : list LinExpr)
| CModuloEquality (target : LinExpr) (x : LinExpr) (m : Z).

(** Variables are numbered in creation order; the domain a variable is
    created with is recorded as a [CDomain] constraint.  Names of variables
    are labels only and are left out. *)
Record CpModel : Type := mkModel {
  num_vars : nat;
  constraints : list Constraint;
  objective : option LinExpr
}.

Definition empty_model : CpModel :=
  {| num_vars := 0; constraints := []; objective := None |}.

Definition new_var (d : Dom) (m : CpModel) : Var * CpModel :=
  (num_vars m,
   {| num_vars := S (num_vars m);
      constraints := constraints m ++ [CDomain (num_vars m) d];
      objective := objective m |}).

Definition NewIntVar (lo hi : Z) (m : CpModel) : Var * CpModel :=
  new_var (DomRange lo hi) m.

Definition NewIntVarFromDomain (vs : list Z) (m : CpModel) : Var * CpModel :=
  new_var (DomValues vs) m.

Definition NewBoolVar (m : CpModel) : Var * CpModel :=
  new_var (DomRange 0 1) m.

Definition Add (c : Constraint) (m : CpModel) : CpModel :=
  {| num_vars := num_vars m;
     constraints := constraints m ++ [c];
     objective := objective m |}.

Definition NewIntervalVar (start : LinExpr) (size : Z) (end_ : LinExpr) (m : CpModel)
  : IntervalVar * CpModel :=
  let iv := mkInterval start size end_ None in
  (iv, Add (CInterval iv) m).

Definition NewOptionalIntervalVar (start : LinExpr) (size : Z) (end_ : LinExpr)
    (l : Lit) (m : CpModel) : IntervalVar * CpModel :=
  let iv := mkInterval start size end_ (Some l) in
  (iv, Add (CInterval iv) m).

Definition Minimize (e : LinExpr) (m : CpModel) : CpModel :=
  {| num_vars := num_vars m;
     constraints := constraints m;
     objective := Some e |}.

(** ** What a solution is *)

Definition Assignment : Type := list Z.

Definition value (a : Assignment) (v : Var) : Z := a !!! v.

Fixpoint eval (a : Assignment) (e : LinExpr) : Z :=
  match e with
  | EVar v => value a v
  | EInt z => z
  | EAdd x y => eval a x + eval a y
  | ESub x y => eval a x - eval a y
  | EMul x k => eval a x * k
  end.

Definition lit_holds (a : Assignment) (l : Lit) : Prop :=
  match l with
  | LitPos v => value a v = 1
  | LitNeg v => value a v = 0
  end.

Definition enforced (a : Assignment) (o : option Lit) : Prop :=
  match o with
  | None => True
  | Some l => lit_holds a l
  end.

Definition cmp_holds (c : Cmp) (x y : Z) : Prop :=
  match c with
  | CEq => x = y
  | CNe => x <> y
  | CLe => x <= y
  | CLt => x < y
  | CGe => x >= y
  | CGt => x > y
  end.

Definition in_dom (d : Dom) (z : Z) : Prop :=
  match d with
  | DomValues vs => z ∈ vs
  | DomRange lo hi => lo <= z <= hi
  end.

(** Two intervals that are both present do not overlap. *)
Definition apart (a : Assignment) (i j : IntervalVar) : Prop :=
  enforced a (iv_presence i) -> enforced a (iv_presence j) ->
  eval a (iv_end i) <= eval a (iv_start j) \/ eval a (iv_end j) <= eval a (iv_start i).

Fixpoint no_overlap (a : Assignment) (ivs : list IntervalVar) : Prop :=
  match ivs with
  | [] => True
  | i :: rest => Forall (apart a i) rest /\ no_overlap a rest
  end.

Definition holds (a : Assignment) (c : Constraint) : Prop :=
  match c with
  | CDomain v d => in_dom d (value a v)
  | CLinear e1 c e2 enf => enforced a enf -> cmp_holds c (eval a e1) (eval a e2)
  | CInterval iv =>
      enforced a (iv_presence iv) ->
      0 <= iv_size iv /\ eval a (iv_start iv) + iv_size iv = eval a (iv_end iv)
  | CNoOverlap ivs => no_overlap a ivs
  | CMinEquality t es =>
      Forall (fun e => eval a t <= eval a e) es /\ Exists (fun e => eval a t = eval a e) es
  | CMaxEquality t es =>
      Forall (fun e => eval a e <= eval a t) es /\ Exists (fun e => eval a t = eval a e) es
  | CModuloEquality t x m => 0 < m /\ eval a t = Z.rem (eval a x) m
  end.

(** [a] gives every variable a value and meets every constraint. *)
Definition satisfies (m : CpModel) (a : Assignment) : Prop :=
  length a = num_vars m /\ Forall (holds a) (constraints m).

#[global] Instance lit_holds_dec a l : Decision (lit_holds a l).
Proof. destruct l; simpl; apply _. Defined.

#[global] Instance enforced_dec a o : Decision (enforced a o).
Proof. destruct o; simpl; apply _. Defined.

#[global] Instance cmp_holds_dec c x y : Decision (cmp_holds c x y).
Proof. destruct c; simpl; apply _. Defined.

#[global] Instance in_dom_dec d z : Decision (in_dom d z).
Proof. destruct d; simpl; apply _. Defined.

#[global] Instance apart_dec a i j : Decision (apart a i j).
Proof. unfold apart. apply _. Defined.

#[global] Instance no_overlap_dec a ivs : Decision (no_overlap a ivs).
Proof. induction ivs; simpl; apply _. Defined.

#[global] Instance holds_dec a c : Decision (holds a c).
Proof. destruct c; simpl; apply _. Defined.

#[global] Instance satisfies_dec m a : Decision (satisfies m a).
Proof. unfold satisfies. apply _. Defined.

(** [solver.Solve(model)] followed by the status test of
    [_solve_phase_attempt].  [answer] is what the solver comes up with
    within its time limit ([None] for INFEASIBLE, UNKNOWN or
    MODEL_INVALID); a status of OPTIMAL or FEASIBLE always carries a
    solution of the model. *)
Definition Solve (m : CpModel) (answer : option Assignment) : option Assignment :=
  match answer with
  | Some a => if decide (satisfies m a) then Some a else None
  | None => None
  end.

(* ===================================================================== *)
(** * The scheduler object *)
(* ===================================================================== *)

(** [self], together with the things outside the object that a run
    touches: [progress_state] is the sequence of values written to the
    module-level progress entry of this process (oldest first),
    [solver_answers] is what the solver is going to answer to the
    successive [Solve] calls, and [solver_time_limits] is the sequence of
    values that the run has assigned to [max_time_in_seconds] of the
    solvers it has configured (oldest first). *)
Record Scheduler : Type := mkScheduler {
  process_id : option string;
  all_courses : list (SchedulingPhase * Course);
  rooms : Rooms;
  days : list string;
  start_t : Z;
  end_t : Z;
  inc_hr : Z;
  inc_day : Z;
  total_inc : Z;
  lab_starts : list Z;
  global_schedule : list Event;
  occupied_slots : gmap RoomKey (gset Z);
  section_occupied : gmap SectionKey (gset Z);
  schedule_id : Z;
  courses_with_both : gset string;
  progress_state : list Z;
  solver_answers : list (option Assignment);
  solver_time_limits : list Z
}.

(** [HierarchicalScheduler(process_id)]. *)
Definition init_scheduler (pid : option string) (answers : list (option Assignment))
  : Scheduler :=
  {| process_id := pid; all_courses := []; rooms := mkRooms None None; days := [];
     start_t := 0; end_t := 0; inc_hr := 2; inc_day := 0; total_inc := 0;
     lab_starts := []; global_schedule := []; occupied_slots := ∅;
     section_occupied := ∅; schedule_id := 1; courses_with_both := ∅;
     progress_state := []; solver_answers := answers; solver_time_limits := [] |}.

Definition set_progress_state (v : list Z) (s : Scheduler) : Scheduler :=
  {| process_id := process_id s; all_courses := all_courses s; rooms := rooms s;
     days := days s; start_t := start_t s; end_t := end_t s; inc_hr := inc_hr s;
     inc_day := inc_day s; total_inc := total_inc s; lab_starts := lab_starts s;
     global_schedule := global_schedule s; occupied_slots := occupied_slots s;
     section_occupied := section_occupied s; schedule_id := schedule_id s;
     courses_with_both := courses_with_both s;
     progress_state := v; solver_answers := solver_answers s;
     solver_time_limits := solver_time_limits s |}.

Definition set_solver_answers (v : list (option Assignment)) (s : Scheduler) : Scheduler :=
  {| process_id := process_id s; all_courses := all_courses s; rooms := rooms s;
     days := days s; start_t := start_t s; end_t := end_t s; inc_hr := inc_hr s;
     inc_day := inc_day s; total_inc := total_inc s; lab_starts := lab_starts s;
     global_schedule := global_schedule s; occupied_slots := occupied_slots s;
     section_occupied := section_occupied s; schedule_id := schedule_id s;
     courses_with_both := courses_with_both s;
     progress_state := progress_state s; solver_answers := v;
     solver_time_limits := solver_time_limits s |}.

Definition set_solver_time_limits (v : list Z) (s : Scheduler) : Scheduler :=
  {| process_id := process_id s; all_courses := all_courses s; rooms := rooms s;
     days := days s; start_t := start_t s; end_t := end_t s; inc_hr := inc_hr s;
     inc_day := inc_day s; total_inc := total_inc s; lab_starts := lab_starts s;
     global_schedule := global_schedule s; occupied_slots := occupied_slots s;
     section_occupied := section_occupied s; schedule_id := schedule_id s;
     courses_with_both := courses_with_both s;
     progress_state := progress_state s; solver_answers := solver_answers s;
     solver_time_limits := v |}.

Definition set_schedule_id (v : Z) (s : Scheduler) : Scheduler :=
  {| process_id := process_id s; all_courses := all_courses s; rooms := rooms s;
     days := days s; start_t := start_t s; end_t := end_t s; inc_hr := inc_hr s;
     inc_day := inc_day s; total_inc := total_inc s; lab_starts := lab_starts s;
     global_schedule := global_schedule s; occupied_slots := occupied_slots s;
     section_occupied := section_occupied s; schedule_id := v;
     courses_with_both := courses_with_both s;
     progress_state := progress_state s; solver_answers := solver_answers s;
     solver_time_limits := solver_time_limits s |}.

Definition set_global_schedule (v : list Event) (s : Scheduler) : Scheduler :=
  {| process_id := process_id s; all_courses := all_courses s; rooms := rooms s;
     days := days s; start_t := start_t s; end_t := end_t s; inc_hr := inc_hr s;
     inc_day := inc_day s; total_inc := total_inc s; lab_starts := lab_starts s;
     global_schedule := v; occupied_slots := occupied_slots s;
     section_occupied := section_occupied s; schedule_id := schedule_id s;
     courses_with_both := courses_with_both s;
     progress_state := progress_state s; solver_answers := solver_answers s;
     solver_time_limits := solver_time_limits s |}.

Definition set_occupancy (rooms_occ : gmap RoomKey (gset Z))
    (sections_occ : gmap SectionKey (gset Z)) (s : Scheduler) : Scheduler :=
  {| process_id := process_id s; all_courses := all_courses s; rooms := rooms s;
     days := days s; start_t := start_t s; end_t := end_t s; inc_hr := inc_hr s;
     inc_day := inc_day s; total_inc := total_inc s; lab_starts := lab_starts s;
     global_schedule := global_schedule s; occupied_slots := rooms_occ;
     section_occupied := sections_occ; schedule_id := schedule_id s;
     courses_with_both := courses_with_both s;
     progress_state := progress_state s; solver_answers := solver_answers s;
     solver_time_limits := solver_time_limits s |}.

(** Python truthiness of [process_id]: [None] and the empty string are falsy. *)
Definition truthy (pid : option string) : bool :=
  match pid with
  | Some s => negb (bool_decide (s = ""%string))
  | None => false
  end.

Definition update_progress (value : Z) (self : Scheduler) : Scheduler :=
  if truthy (process_id self) then
    set_progress_state (progress_state self ++ [value]) self
  else self.

(** ** Time discretization *)

Definition compute_lab_starts (inc_day : Z) (num_days : nat) : list Z :=
  d ← py_range (Z.of_nat num_days);
  let base := d * inc_day in
  py_range2 base (base + inc_day - 2).

Definition setup_time_parameters (ts : TimeSettings) (self : Scheduler) : Scheduler :=
  let start_t := start_time ts in
  let end_t := end_time ts in
  let inc_hr := 2 in
  let inc_day := (end_t - start_t) * inc_hr in
  let total_inc := inc_day * Z.of_nat (length (days self)) in
  {| process_id := process_id self; all_courses := all_courses self;
     rooms := rooms self; days := days self;
     start_t := start_t; end_t := end_t; inc_hr := inc_hr; inc_day := inc_day;
     total_inc := total_inc;
     lab_starts := compute_lab_starts inc_day (length (days self));
     global_schedule := global_schedule self; occupied_slots := occupied_slots self;
     section_occupied := section_occupied self; schedule_id := schedule_id self;
     courses_with_both := courses_with_both self;
     progress_state := progress_state self; solver_answers := solver_answers self;
     solver_time_limits := solver_time_limits self |}.

(** ** Occupancy ledger *)

Definition slots_needed (start duration : Z) : gset Z :=
  list_to_set (py_range2 start (start + duration)).

Definition slots_free (occupied : gset Z) (start duration : Z) : bool :=
  bool_decide (slots_needed start duration ∩ occupied = ∅).

(** The [for start in search_space] loop with its [break]. *)
Fixpoint scan_starts (occupied : gset Z) (duration max_slots : Z)
    (search_space available_starts : list Z) : list Z :=
  match search_space with
  | [] => available_starts
  | start :: rest =>
      if slots_free occupied start duration then
        let available_starts := available_starts ++ [start] in
        if bool_decide (max_slots <= Z.of_nat (length available_starts)) then
          available_starts
        else scan_starts occupied duration max_slots rest available_starts
      else scan_starts occupied duration max_slots rest available_starts
  end.

Definition search_space (self : Scheduler) (duration : Z) (is_lab : bool) : list Z :=
  if is_lab then lab_starts self else py_range (total_inc self - duration + 1).

Definition get_available_time_slots (self : Scheduler) (section_key : SectionKey)
    (duration : Z) (is_lab : bool) (max_slots : Z) : list Z :=
  let occupied := default ∅ (section_occupied self !! section_key) in
  scan_starts occupied duration max_slots (search_space self duration is_lab) [].

Definition get_available_rooms (self : Scheduler) (room_type : SessType)
    (start duration : Z) : Exc (list Z) :=
  match rooms_get (rooms self) room_type with
  | None => Raise
  | Some names =>
      Ret (filter (fun room_idx =>
                     slots_free (default ∅ (occupied_slots self !! (room_type, room_idx)))
                                start duration = true)
                  (py_range (Z.of_nat (length names))))
  end.

Definition commit_event (self : Scheduler) (event : Event) : Scheduler :=
  let section_key := event_section_key event in
  let room_key := event_room_key event in
  let slots := slots_needed (e_start_slot event) (e_duration event) in
  set_occupancy
    (<[room_key := default ∅ (occupied_slots self !! room_key) ∪ slots]>
       (occupied_slots self))
    (<[section_key := default ∅ (section_occupied self !! section_key) ∪ slots]>
       (section_occupied self))
    self.

Definition update_occupancy_from_schedule (schedule : list Event) (self : Scheduler)
  : Scheduler :=
  foldl commit_event self schedule.

(** ** Phase timeouts *)

Definition base_times : list Z := [150; 200; 700].

Definition get_phase_timeout (phase_num total_phases : Z)
    (phase_difficulty : PyFloat.float) : Exc Z :=
  exc_bind
    (if bool_decide (phase_num <= Z.of_nat (length base_times)) then
       py_index base_times (phase_num - 1)
     else Ret 300)
    (fun timeout => PyFloat.to_int (PyFloat.mul (PyFloat.of_int timeout) phase_difficulty)).

(** The time limit of the second attempt, [int(timeout * 1.5)]. *)
Definition retry_timeout (timeout : Z) : Exc Z :=
  PyFloat.to_int (PyFloat.mul (PyFloat.of_int timeout) (PyFloat.lit 3 (-1))).

Definition sum_nat (f : Course -> nat) (l : list Course) : Z :=
  Z.of_nat (foldr (fun c acc => (f c + acc)%nat) 0%nat l).

Definition calculate_phase_difficulty (phase_courses : list Course) : PyFloat.float :=
  match phase_courses with
  | [] => PyFloat.lit 1 (-1)
  | _ =>
      let total_units := sum_nat (fun c => unitsLecture c + unitsLab c * 2)%nat phase_courses in
      let total_blocks := sum_nat blocks phase_courses in
      let n := PyFloat.of_int (Z.of_nat (length phase_courses)) in
      let avg_units := PyFloat.div (PyFloat.of_int total_units) n in
      let avg_blocks := PyFloat.div (PyFloat.of_int total_blocks) n in
      let difficulty :=
        PyFloat.mul (PyFloat.div avg_units (PyFloat.of_int 5))
                    (PyFloat.div avg_blocks (PyFloat.lit 3 (-1))) in
      PyFloat.max2 (PyFloat.lit 1 (-1)) (PyFloat.min2 (PyFloat.of_int 2) difficulty)
  end.

(* ===================================================================== *)
(** * Phase model builder *)
(* ===================================================================== *)

(** A [defaultdict(list)]: keys in insertion order. *)
Fixpoint dd_append {K V : Type} `{EqDecision K} (d : list (K * list V)) (k : K) (v : V)
  : list (K * list V) :=
  match d with
  | [] => [(k, [v])]
  | (k', l) :: d' =>
      if decide (k' = k) then (k', l ++ [v]) :: d'
      else (k', l) :: dd_append d' k v
  end.

Fixpoint dd_get {K V : Type} `{EqDecision K} (d : list (K * list V)) (k : K) : list V :=
  match d with
  | [] => []
  | (k', l) :: d' => if decide (k' = k) then l else dd_get d' k
  end.

Definition dd_values {K V : Type} (d : list (K * list V)) : list (list V) := d.*2.

(** The dictionary that [create_session_type] appends to [sessions]. *)
Record Session : Type := mkSession {
  s_id : Z;
  s_code : string;
  s_title : string;
  s_prog : string;
  s_yr : nat;
  s_blk : nat;
  s_type : SessType;
  s_start : Var;
  s_end : Var;
  s_room : Var;
  s_day : Var;
  s_duration : Z
}.

(** The objects local to one [_solve_phase_attempt]. *)
Record Build : Type := mkBuild {
  model : CpModel;
  section_intervals : list (SectionKey * list IntervalVar);
  room_intervals : list (RoomKey * list IntervalVar)
}.

Definition empty_build : Build :=
  {| model := empty_model; section_intervals := []; room_intervals := [] |}.

Definition with_model (m : CpModel) (b : Build) : Build :=
  {| model := m; section_intervals := section_intervals b;
     room_intervals := room_intervals b |}.

(** Body of [for event in self.global_schedule]. *)
Definition add_prior_interval (self : Scheduler) (b : Build) (event : Event) : Build :=
  let rt := e_room_type event in
  match rooms_get (rooms self) rt with
  | None => b
  | Some _ =>
      let ri := e_room_idx event in
      let ss := e_start_slot event in
      let dd := e_duration event in
      let fixed_end := ss + dd in
      let '(fixed_iv, m) := NewIntervalVar (EInt ss) dd (EInt fixed_end) (model b) in
      {| model := m; section_intervals := section_intervals b;
         room_intervals := dd_append (room_intervals b) (rt, ri) fixed_iv |}
  end.

(** Body of [for r_idx in range(num_rooms)]. *)
Definition add_room_interval (sess_type : SessType) (s e rv : Var) (duration : Z)
    (b : Build) (r_idx : Z) : Build :=
  let '(lit, m) := NewBoolVar (model b) in
  let m := Add (CLinear (EVar rv) CEq (EInt r_idx) (Some (LitPos lit))) m in
  let m := Add (CLinear (EVar rv) CNe (EInt r_idx) (Some (LitNeg lit))) m in
  let '(opt_iv, m) := NewOptionalIntervalVar (EVar s) duration (EVar e) (LitPos lit) m in
  {| model := m; section_intervals := section_intervals b;
     room_intervals := dd_append (room_intervals b) (sess_type, r_idx) opt_iv |}.

(** One round of [for i in range(units)]; [None] is the [return None]. *)
Definition create_one_session (self : Scheduler) (code prog : string) (yr blk : nat)
    (sess_type : SessType) (duration : Z) (title : string) (section_key : SectionKey)
    (available_starts : list Z) (num_rooms : Z) (b : Build) (sid : Z)
  : option (Session * Build) :=
  let domain_values :=
    take (Z.to_nat (Z.min (Z.of_nat (length available_starts)) 200)) available_starts in
  match domain_values with
  | [] => None
  | _ =>
      let '(s, m) := NewIntVarFromDomain domain_values (model b) in
      let '(e, m) := NewIntVar duration (total_inc self) m in
      let m := Add (CLinear (EVar e) CEq (EAdd (EVar s) (EInt duration)) None) m in
      let '(dvar, m) := NewIntVar 0 (Z.of_nat (length (days self)) - 1) m in
      let m := Add (CLinear (EVar s) CGe (EMul (EVar dvar) (inc_day self)) None) m in
      let m := Add (CLinear (EVar s) CLt
                      (EMul (EAdd (EVar dvar) (EInt 1)) (inc_day self)) None) m in
      let '(rv, m) := NewIntVar 0 (num_rooms - 1) m in
      let '(iv, m) := NewIntervalVar (EVar s) duration (EVar e) m in
      let b := {| model := m;
                  section_intervals := dd_append (section_intervals b) section_key iv;
                  room_intervals := room_intervals b |} in
      let b := foldl (add_room_interval sess_type s e rv duration) b (py_range num_rooms) in
      Some ({| s_id := sid; s_code := code; s_title := title; s_prog := prog;
               s_yr := yr; s_blk := blk; s_type := sess_type; s_start := s;
               s_end := e; s_room := rv; s_day := dvar; s_duration := duration |},
            b)
  end.

(** [for i in range(units)]: the schedule id after the loop, the build,
    and the sessions ([None] if the loop returned [None]). *)
Fixpoint create_sessions_loop (self : Scheduler) (code prog : string) (yr blk : nat)
    (sess_type : SessType) (duration : Z) (title : string) (section_key : SectionKey)
    (available_starts : list Z) (num_rooms : Z) (units : nat) (b : Build) (sid : Z)
  : Z * Build * option (list Session) :=
  match units with
  | O => (sid, b, Some [])
  | S units' =>
      match create_one_session self code prog yr blk sess_type duration title
              section_key available_starts num_rooms b sid with
      | None => (sid, b, None)
      | Some (sess, b') =>
          let '(sid', b'', r) :=
            create_sessions_loop self code prog yr blk sess_type duration title
              section_key available_starts num_rooms units' b' (sid + 1) in
          (sid', b'', (fun rest => sess :: rest) <$> r)
      end
  end.

(** [sum(day_bools)]: Python starts from [0]. *)
Definition py_sum (vs : list Var) : LinExpr :=
  foldl (fun acc v => EAdd acc (EVar v)) (EInt 0) vs.

Definition add_day_bool (d : Z) (st : CpModel * list Var) (dv : Var) : CpModel * list Var :=
  let '(m, day_bools) := st in
  let '(b, m) := NewBoolVar m in
  let m := Add (CLinear (EVar dv) CEq (EInt d) (Some (LitPos b))) m in
  let m := Add (CLinear (EVar dv) CNe (EInt d) (Some (LitNeg b))) m in
  (m, day_bools ++ [b]).

Definition add_block_day_constraints (self : Scheduler) (m : CpModel) (day_vars : list Var)
    (is_lab : bool) : CpModel :=
  let max_per_day := if is_lab then 2 else 1 in
  foldl (fun m d =>
           let '(m, day_bools) := foldl (add_day_bool d) (m, []) day_vars in
           Add (CLinear (py_sum day_bools) CLe (EInt max_per_day) None) m)
        m (py_range (Z.of_nat (length (days self)))).

Definition create_session_type (self : Scheduler) (b : Build) (sid : Z)
    (code prog : string) (yr blk : nat) (sess_type : SessType) (units : nat)
    (duration : Z) (title : string) (section_key : SectionKey) (is_lab : bool)
  : Z * Build * Exc (option (list Session)) :=
  let filtered := get_available_time_slots self section_key duration is_lab 1000 in
  let available_starts :=
    match filtered with
    | [] => search_space self duration is_lab
    | _ => filtered
    end in
  match available_starts with
  | [] => (sid, b, Ret None)
  | _ =>
      match rooms_get (rooms self) sess_type with
      | None => (sid, b, Raise)
      | Some names =>
          let num_rooms := Z.of_nat (length names) in
          let '(sid', b', r) :=
            create_sessions_loop self code prog yr blk sess_type duration title
              section_key available_starts num_rooms units b sid in
          match r with
          | None => (sid', b', Ret None)
          | Some sessions =>
              let day_vars := s_day <$> sessions in
              let b'' :=
                if bool_decide (1 < length day_vars)%nat then
                  with_model (add_block_day_constraints self (model b') day_vars is_lab) b'
                else b' in
              (sid', b'', Ret (Some sessions))
          end
      end
  end.

(** The block letter [chr(ord('A') + b)], as a code point. *)
Definition block_letter (b : nat) : nat := (65 + b)%nat.

(** Body of [for b in range(blocks)]. *)
Definition create_block_sessions (self : Scheduler) (course : Course) (bld : Build)
    (sid : Z) (b : nat) : Z * Build * Exc (option (list Session)) :=
  let code := courseCode course in
  let prog := program course in
  let yr := yearLevel course in
  let lec_u := unitsLecture course in
  let lab_u := unitsLab course in
  let blk := block_letter b in
  let section_key := (prog, yr, blk) in
  let '(sid1, bld1, r1) :=
    if bool_decide (0 < lec_u)%nat then
      create_session_type self bld sid code prog yr blk lecture lec_u 2 (title course)
        section_key false
    else (sid, bld, Ret (Some [])) in
  match r1 with
  | Raise => (sid1, bld1, Raise)
  | Ret None => (sid1, bld1, Ret None)
  | Ret (Some lectures) =>
      let '(sid2, bld2, r2) :=
        if bool_decide (0 < lab_u)%nat then
          create_session_type self bld1 sid1 code prog yr blk lab (lab_u * 2) 3
            (title course) section_key true
        else (sid1, bld1, Ret (Some [])) in
      match r2 with
      | Raise => (sid2, bld2, Raise)
      | Ret None => (sid2, bld2, Ret None)
      | Ret (Some labs) => (sid2, bld2, Ret (Some (lectures ++ labs)))
      end
  end.

Fixpoint create_blocks_loop (self : Scheduler) (course : Course) (bs : list nat)
    (bld : Build) (sid : Z) : Z * Build * Exc (option (list Session)) :=
  match bs with
  | [] => (sid, bld, Ret (Some []))
  | b :: bs' =>
      let '(sid1, bld1, r1) := create_block_sessions self course bld sid b in
      match r1 with
      | Raise => (sid1, bld1, Raise)
      | Ret None => (sid1, bld1, Ret None)
      | Ret (Some sessions) =>
          let '(sid2, bld2, r2) := create_blocks_loop self course bs' bld1 sid1 in
          match r2 with
          | Raise => (sid2, bld2, Raise)
          | Ret None => (sid2, bld2, Ret None)
          | Ret (Some rest) => (sid2, bld2, Ret (Some (sessions ++ rest)))
          end
      end
  end.

Definition create_course_sessions (self : Scheduler) (course : Course) (bld : Build)
    (sid : Z) : Z * Build * Exc (option (list Session)) :=
  create_blocks_loop self course (seq 0 (blocks course)) bld sid.

(** ** Constraints over the whole phase *)

(** [for intervals in d.values(): if intervals: model.AddNoOverlap(intervals)]. *)
Definition add_no_overlaps {K : Type} (d : list (K * list IntervalVar)) (m : CpModel)
  : CpModel :=
  foldl (fun m intervals =>
           match intervals with
           | [] => m
           | _ => Add (CNoOverlap intervals) m
           end)
        m (dd_values d).

Definition CourseKey : Type := string * string * nat * nat * SessType.

Definition session_course_key (sess : Session) : CourseKey :=
  (s_code sess, s_prog sess, s_yr sess, s_blk sess, s_type sess).

Definition add_room_consistency (m : CpModel) (sessions : list Session) : CpModel :=
  let by_course :=
    foldl (fun d sess => dd_append d (session_course_key sess) (s_room sess)) [] sessions in
  foldl (fun m room_vars =>
           match room_vars with
           | v0 :: v1 :: vs =>
               foldl (fun m v => Add (CLinear (EVar v) CEq (EVar v0) None) m) m (v1 :: vs)
           | _ => m
           end)
        m (dd_values by_course).

(** Day-span part of [add_phase_objectives]: one group of day variables. *)
Definition add_day_span (self : Scheduler) (st : CpModel * list Var) (group : list Var)
  : CpModel * list Var :=
  let '(m, objectives) := st in
  if bool_decide (1 < length group)%nat then
    let last_day := Z.of_nat (length (days self)) - 1 in
    let '(min_day, m) := NewIntVar 0 last_day m in
    let '(max_day, m) := NewIntVar 0 last_day m in
    let m := Add (CMinEquality (EVar min_day) (EVar <$> group)) m in
    let m := Add (CMaxEquality (EVar max_day) (EVar <$> group)) m in
    let '(day_span, m) := NewIntVar 0 last_day m in
    let m := Add (CLinear (EVar day_span) CEq (ESub (EVar max_day) (EVar min_day)) None) m in
    (m, objectives ++ [day_span])
  else (m, objectives).

(** Early/late part of [add_phase_objectives]: one session. *)
Definition add_time_penalties (self : Scheduler) (st : CpModel * list Var) (sess : Session)
  : CpModel * list Var :=
  let '(m, objectives) := st in
  let '(time_in_day, m) := NewIntVar 0 (inc_day self) m in
  let m := Add (CModuloEquality (EVar time_in_day) (EVar (s_start sess)) (inc_day self)) m in
  let '(is_early, m) := NewBoolVar m in
  let '(is_late, m) := NewBoolVar m in
  let m := Add (CLinear (EVar time_in_day) CLt (EInt 2) (Some (LitPos is_early))) m in
  let m := Add (CLinear (EVar time_in_day) CGe (EInt 2) (Some (LitNeg is_early))) m in
  let m := Add (CLinear (EVar time_in_day) CGt (EInt (inc_day self - 6))
                  (Some (LitPos is_late))) m in
  let m := Add (CLinear (EVar time_in_day) CLe (EInt (inc_day self - 6))
                  (Some (LitNeg is_late))) m in
  let '(early_penalty, m) := NewIntVar 0 1 m in
  let '(late_penalty, m) := NewIntVar 0 1 m in
  let m := Add (CLinear (EVar early_penalty) CEq (EInt 1) (Some (LitPos is_early))) m in
  let m := Add (CLinear (EVar early_penalty) CEq (EInt 0) (Some (LitNeg is_early))) m in
  let m := Add (CLinear (EVar late_penalty) CEq (EInt 1) (Some (LitPos is_late))) m in
  let m := Add (CLinear (EVar late_penalty) CEq (EInt 0) (Some (LitNeg is_late))) m in
  (m, objectives ++ [early_penalty; late_penalty]).

Definition add_phase_objectives (self : Scheduler) (m : CpModel) (sessions : list Session)
  : CpModel :=
  let program_year_days :=
    foldl (fun d sess => dd_append d (s_prog sess, s_yr sess) (s_day sess)) [] sessions in
  let st := foldl (add_day_span self) (m, []) (dd_values program_year_days) in
  let '(m, objectives) := foldl (add_time_penalties self) st sessions in
  match objectives with
  | [] => m
  | _ => Minimize (py_sum objectives) m
  end.

(** Everything [_solve_phase_attempt] adds to the model after the course
    loop. *)
Definition finish_model (self : Scheduler) (b : Build) (phase_sessions : list Session)
    (optimize : bool) : CpModel :=
  let m := add_no_overlaps (section_intervals b) (model b) in
  let m := add_no_overlaps (room_intervals b) m in
  let m := add_room_consistency m phase_sessions in
  if optimize then add_phase_objectives self m phase_sessions else m.

(** ** Solution extractor *)

(** [f"{m:02d}"]. *)
Definition fmt_02d (m : Z) : string :=
  if bool_decide (0 <= m < 10) then "0" +:+ pretty m else pretty m.

(** [f"{int(hr)%12 or 12}:{m:02d} {'AM' if hr<12 else 'PM'}"] with
    [m = int((hr - int(hr)) * 60)]. *)
Definition format_time (hr : PyFloat.float) : Exc string :=
  exc_bind (PyFloat.to_int hr) (fun h =>
  exc_bind (PyFloat.to_int
              (PyFloat.mul (PyFloat.sub hr (PyFloat.of_int h)) (PyFloat.of_int 60)))
           (fun m =>
  let h12 := if bool_decide (h `mod` 12 = 0) then 12 else h `mod` 12 in
  Ret (pretty h12 +:+ ":" +:+ fmt_02d m +:+ " "
       +:+ (if PyFloat.ltb hr (PyFloat.of_int 12) then "AM" else "PM")))).

Definition extract_session (self : Scheduler) (a : Assignment) (sess : Session) : Exc Event :=
  let room_idx := value a (s_room sess) in
  let day_idx := value a (s_day sess) in
  let start_val := value a (s_start sess) in
  if bool_decide (inc_day self = 0) then Raise else
  let offs := start_val `mod` inc_day self in
  let hr := PyFloat.add (PyFloat.of_int (start_t self))
              (PyFloat.div (PyFloat.of_int offs) (PyFloat.of_int (inc_hr self))) in
  exc_bind (format_time hr) (fun t1 =>
  let hr2 := PyFloat.add hr
               (PyFloat.div (PyFloat.of_int (s_duration sess))
                            (PyFloat.of_int (inc_hr self))) in
  exc_bind (format_time hr2) (fun t2 =>
  let display_code :=
    if bool_decide (s_code sess ∈ courses_with_both self) then
      match s_type sess with
      | lecture => s_code sess +:+ "A"
      | lab => s_code sess +:+ "L"
      end
    else s_code sess in
  exc_bind (py_index (days self) day_idx) (fun day =>
  exc_bind (exc_of_option (rooms_get (rooms self) (s_type sess))) (fun names =>
  exc_bind (py_index names room_idx) (fun room =>
  Ret {| e_schedule_id := s_id sess;
         e_courseCode := display_code;
         e_baseCourseCode := s_code sess;
         e_title := s_title sess;
         e_program := s_prog sess;
         e_year := s_yr sess;
         e_session := match s_type sess with
                      | lecture => "Lecture"
                      | lab => "Laboratory"
                      end;
         e_block := s_blk sess;
         e_day := day;
         e_period := t1 +:+ " - " +:+ t2;
         e_room := room;
         e_start_slot := start_val;
         e_duration := s_duration sess;
         e_room_type := s_type sess;
         e_room_idx := room_idx |}))))).

Fixpoint exc_map {A B : Type} (f : A -> Exc B) (l : list A) : Exc (list B) :=
  match l with
  | [] => Ret []
  | x :: l' =>
      exc_bind (f x) (fun y => exc_bind (exc_map f l') (fun ys => Ret (y :: ys)))
  end.

Definition extract_phase_solution (self : Scheduler) (a : Assignment)
    (sessions : list Session) : Exc (list Event) :=
  exc_map (extract_session self a) sessions.

(** ** Phase solver driver *)

(** The course loop of [_solve_phase_attempt], with its progress updates. *)
Fixpoint build_courses (self : Scheduler) (n cstart cend : Z) (courses : list Course)
    (idx : Z) (b : Build) : Scheduler * Build * Exc (option (list Session)) :=
  match courses with
  | [] => (self, b, Ret (Some []))
  | course :: rest =>
      let '(sid, b1, r) := create_course_sessions self course b (schedule_id self) in
      let self1 := set_schedule_id sid self in
      match r with
      | Raise => (self1, b1, Raise)
      | Ret None => (self1, b1, Ret None)
      | Ret (Some sessions) =>
          match PyFloat.to_int
                  (PyFloat.mul (PyFloat.div (PyFloat.of_int (idx + 1)) (PyFloat.of_int n))
                               (PyFloat.of_int (cend - cstart))) with
          | Raise => (self1, b1, Raise)
          | Ret k =>
              let self2 := update_progress (cstart + k) self1 in
              let '(self3, b3, r3) := build_courses self2 n cstart cend rest (idx + 1) b1 in
              match r3 with
              | Raise => (self3, b3, Raise)
              | Ret None => (self3, b3, Ret None)
              | Ret (Some more) => (self3, b3, Ret (Some (sessions ++ more)))
              end
          end
      end
  end.

(** The next answer of the solver. *)
Definition pop_answer (self : Scheduler) : option Assignment * Scheduler :=
  match solver_answers self with
  | [] => (None, self)
  | ans :: rest => (ans, set_solver_answers rest self)
  end.

(** [solver.parameters.max_time_in_seconds = timeout]. *)
Definition configure_solver (timeout : Z) (self : Scheduler) : Scheduler :=
  set_solver_time_limits (solver_time_limits self ++ [timeout]) self.

(** [_solve_phase_attempt].  The time limit and the search parameters only
    influence which answer the solver gives; they are not part of the
    model. *)
Definition solve_phase_attempt (self : Scheduler) (phase_courses : list Course)
    (phase_num total_phases timeout : Z) (optimize : bool)
  : Scheduler * Exc (option (list Event)) :=
  let b0 := foldl (add_prior_interval self) empty_build (global_schedule self) in
  if bool_decide (total_phases = 0) then (self, Raise) else
  let course_progress_start := 50 + ((phase_num - 1) * 40) `div` total_phases in
  let course_progress_end := 50 + (phase_num * 40) `div` total_phases in
  let '(self1, b1, r) :=
    build_courses self (Z.of_nat (length phase_courses)) course_progress_start
      course_progress_end phase_courses 0 b0 in
  match r with
  | Raise => (self1, Raise)
  | Ret None => (self1, Ret None)
  | Ret (Some phase_sessions) =>
      let m := finish_model self1 b1 phase_sessions optimize in
      let '(answer, self2) := pop_answer (configure_solver timeout self1) in
      match Solve m answer with
      | None => (self2, Ret None)
      | Some a =>
          match extract_phase_solution self2 a phase_sessions with
          | Raise => (self2, Raise)
          | Ret phase_schedule =>
              (update_occupancy_from_schedule phase_schedule self2, Ret (Some phase_schedule))
          end
      end
  end.

Definition solve_phase (self : Scheduler) (phase_courses : list Course)
    (phase_num total_phases : Z) : Scheduler * Exc (option (list Event)) :=
  match phase_courses with
  | [] => (self, Ret (Some []))
  | _ =>
      let phase_difficulty := calculate_phase_difficulty phase_courses in
      match get_phase_timeout phase_num total_phases phase_difficulty with
      | Raise => (self, Raise)
      | Ret timeout =>
          let '(self1, r) :=
            solve_phase_attempt self phase_courses phase_num total_phases timeout false in
          match r with
          | Raise => (self1, Raise)
          | Ret (Some result) => (self1, Ret (Some result))
          | Ret None =>
              match retry_timeout timeout with
              | Raise => (self1, Raise)
              | Ret timeout2 =>
                  solve_phase_attempt self1 phase_courses phase_num total_phases
                    timeout2 true
              end
          end
      end
  end.

(* ===================================================================== *)
(** * Pipeline orchestrator *)
(* ===================================================================== *)

(** [phases]: the [defaultdict(list)] that [solve] fills from
    [self.all_courses]; a phase becomes a key when its first course is
    appended. *)
Definition phases_dict (all : list (SchedulingPhase * Course))
  : list (SchedulingPhase * list Course) :=
  foldl (fun phases pc => dd_append phases pc.1 pc.2) [] all.

(** [sorted(phases.keys(), key=lambda p: p.value)], each key with its
    course list [phases[phase]]. *)
Definition phase_groups (all : list (SchedulingPhase * Course)) : list (list Course) :=
  let phases := phases_dict all in
  (fun phase => dd_get phases phase)
    <$> sort_by_key (fun p => (phase_value p, 0)) phases.*1.

(** The [for phase_num, phase in enumerate(..., 1)] loop of [solve];
    [None] is the sentinel ["impossible"]. *)
Fixpoint solve_phases (self : Scheduler) (groups : list (list Course))
    (phase_num total_phases : Z) (combined_schedule : list Event)
  : Scheduler * Exc (option (list Event)) :=
  match groups with
  | [] => (self, Ret (Some combined_schedule))
  | phase_courses :: rest =>
      let '(self1, r) := solve_phase self phase_courses phase_num total_phases in
      match r with
      | Raise => (self1, Raise)
      | Ret None => (update_progress (-1) self1, Ret None)
      | Ret (Some phase_schedule) =>
          let combined_schedule := combined_schedule ++ phase_schedule in
          solve_phases (set_global_schedule combined_schedule self1) rest
            (phase_num + 1) total_phases combined_schedule
      end
  end.

(** The key of the final sort, [(self.days.index(x['day']), x['_start_slot'])]. *)
Definition final_key (self : Scheduler) (e : Event) : Exc (Z * Z * Event) :=
  exc_bind (py_list_index (days self) (e_day e)) (fun i => Ret (i, e_start_slot e, e)).

(** [solve] up to and including the final sort: the schedule with its
    internal fields still in place. *)
Definition solve_sorted (self : Scheduler) : Scheduler * Exc (option (list Event)) :=
  let self := update_progress 52 self in
  let groups := phase_groups (all_courses self) in
  let total_phases := Z.of_nat (length groups) in
  let '(self1, r) := solve_phases self groups 1 total_phases [] in
  match r with
  | Raise => (self1, Raise)
  | Ret None => (self1, Ret None)
  | Ret (Some combined_schedule) =>
      match exc_map (final_key self1) combined_schedule with
      | Raise => (self1, Raise)
      | Ret keyed => (self1, Ret (Some ((sort_by_key fst keyed).*2)))
      end
  end.

Definition solve (self : Scheduler) : Scheduler * Exc (option (list PublicEvent)) :=
  let '(self1, r) := solve_sorted self in
  match r with
  | Raise => (self1, Raise)
  | Ret None => (self1, Ret None)
  | Ret (Some combined_schedule) =>
      (update_progress 95 self1, Ret (Some (strip_internal <$> combined_schedule)))
  end.

(** ** Catalog loading *)

(** What the four loaders return; [Raise] when a loader raises. *)
Record Catalog : Type := mkCatalog {
  load_courses : Exc (list Course);
  load_rooms : Exc Rooms;
  load_time_settings : Exc TimeSettings;
  load_days : Exc (list string)
}.

Definition set_courses (courses : list Course) (s : Scheduler) : Scheduler :=
  {| process_id := process_id s;
     all_courses := prioritize_and_partition_courses courses;
     rooms := rooms s;
     days := days s; start_t := start_t s; end_t := end_t s; inc_hr := inc_hr s;
     inc_day := inc_day s; total_inc := total_inc s; lab_starts := lab_starts s;
     global_schedule := global_schedule s; occupied_slots := occupied_slots s;
     section_occupied := section_occupied s; schedule_id := schedule_id s;
     courses_with_both := courses_with_both s ∪ both_codes courses;
     progress_state := progress_state s; solver_answers := solver_answers s;
     solver_time_limits := solver_time_limits s |}.

Definition set_rooms (r : Rooms) (s : Scheduler) : Scheduler :=
  {| process_id := process_id s; all_courses := all_courses s; rooms := r;
     days := days s; start_t := start_t s; end_t := end_t s; inc_hr := inc_hr s;
     inc_day := inc_day s; total_inc := total_inc s; lab_starts := lab_starts s;
     global_schedule := global_schedule s; occupied_slots := occupied_slots s;
     section_occupied := section_occupied s; schedule_id := schedule_id s;
     courses_with_both := courses_with_both s;
     progress_state := progress_state s; solver_answers := solver_answers s;
     solver_time_limits := solver_time_limits s |}.

Definition set_days (d : list string) (s : Scheduler) : Scheduler :=
  {| process_id := process_id s; all_courses := all_courses s; rooms := rooms s;
     days := d; start_t := start_t s; end_t := end_t s; inc_hr := inc_hr s;
     inc_day := inc_day s; total_inc := total_inc s; lab_starts := lab_starts s;
     global_schedule := global_schedule s; occupied_slots := occupied_slots s;
     section_occupied := section_occupied s; schedule_id := schedule_id s;
     courses_with_both := courses_with_both s;
     progress_state := progress_state s; solver_answers := solver_answers s;
     solver_time_limits := solver_time_limits s |}.

Definition load_data (cat : Catalog) (self : Scheduler) : Scheduler * Exc unit :=
  let self := update_progress 5 self in
  match load_courses cat with
  | Raise => (self, Raise)
  | Ret courses =>
      let self := update_progress 15 (set_courses courses self) in
      match load_rooms cat with
      | Raise => (self, Raise)
      | Ret r =>
          let self := update_progress 25 (set_rooms r self) in
          match load_time_settings cat with
          | Raise => (self, Raise)
          | Ret ts =>
              let self := update_progress 35 self in
              match load_days cat with
              | Raise => (self, Raise)
              | Ret d =>
                  let self := update_progress 45 (set_days d self) in
                  (update_progress 50 (setup_time_parameters ts self), Ret tt)
              end
          end
      end
  end.

(** ** Entry point *)

Inductive Result : Type :=
| Impossible
| Schedule (events : list PublicEvent).

(** What a call of [generate_schedule] leaves behind: the value returned,
    the values written to the progress entry, and the new contents of
    [schedule_dict] ([None]: left as it was). *)
Record Outcome : Type := mkOutcome {
  returned : Result;
  progress_log : list Z;
  schedule_dict : option (gmap Z PublicEvent)
}.

(** [{e['schedule_id']: e for e in schedule}]: a later entry replaces an
    earlier one with the same key. *)
Definition dict_of_schedule (schedule : list PublicEvent) : gmap Z PublicEvent :=
  foldl (fun d e => <[schedule_id_of e := e]> d) ∅ schedule.

(** The [except Exception] branch. *)
Definition on_exception (self : Scheduler) : Outcome :=
  {| returned := Impossible;
     progress_log := if truthy (process_id self) then progress_state self ++ [-1]
                     else progress_state self;
     schedule_dict := None |}.

Definition generate_schedule (pid : option string) (cat : Catalog)
    (answers : list (option Assignment)) : Outcome :=
  let scheduler := init_scheduler pid answers in
  let '(scheduler, loaded) := load_data cat scheduler in
  match loaded with
  | Raise => on_exception scheduler
  | Ret _ =>
      let '(scheduler, r) := solve scheduler in
      match r with
      | Raise => on_exception scheduler
      | Ret None =>
          {| returned := Impossible;
             progress_log := progress_state scheduler;
             schedule_dict := None |}
      | Ret (Some schedule) =>
          {| returned := Schedule schedule;
             progress_log := if truthy pid then progress_state scheduler ++ [100]
                             else progress_state scheduler;
             schedule_dict := Some (dict_of_schedule schedule) |}
      end
  end.

(** The schedule of a run just before its internal fields are deleted
    ([None] when the run does not reach that point). *)
Definition internal_schedule (pid : option string) (cat : Catalog)
    (answers : list (option Assignment)) : option (list Event) :=
  let '(scheduler, loaded) := load_data cat (init_scheduler pid answers) in
  match loaded with
  | Raise => None
  | Ret _ =>
      match (solve_sorted scheduler).2 with
      | Ret (Some schedule) => Some schedule
      | _ => None
      end
  end.

(* ===================================================================== *)
(** * Vocabulary of the properties *)
(* ===================================================================== *)

(** Keys of a sort compare as tuples. *)
Definition key_le (k1 k2 : Z * Z) : Prop :=
  k1.1 < k2.1 \/ (k1.1 = k2.1 /\ k1.2 <= k2.2).

(** Phase value ascending, then priority score descending. *)
Definition partition_order (x y : SchedulingPhase * Course) : Prop :=
  phase_value x.1 < phase_value y.1 \/
  (phase_value x.1 = phase_value y.1 /\ priority_score y.2 <= priority_score x.2).

(** The slots [start .. start + duration - 1] are all outside [occupied]. *)
Definition free_at (occupied : gset Z) (duration : Z) (start : Z) : Prop :=
  forall t, start <= t < start + duration -> t ∉ occupied.

(** The candidate starts of a section, before any cap. *)
Definition free_starts (self : Scheduler) (section_key : SectionKey) (duration : Z)
    (is_lab : bool) : list Z :=
  filter (fun s => slots_free (default ∅ (section_occupied self !! section_key))
                     s duration = true)
         (search_space self duration is_lab).




(** ** Small catalogs for the examples *)

(** One day from 8 to 10 o'clock: four half-hour slots. *)
Definition one_short_day : Scheduler :=
  setup_time_parameters (mkTimeSettings 8 10)
    (set_days ["Mon"%string] (init_scheduler None [])).


(** ** What the builder guarantees *)

(** A model, or a build, only ever gains variables, constraints and bucket
    entries. *)
Definition model_grows (m m' : CpModel) : Prop :=
  (num_vars m <= num_vars m')%nat /\ constraints m ⊆ constraints m'.

Definition grows (b b' : Build) : Prop :=
  model_grows (model b) (model b') /\
  (forall k, dd_get (room_intervals b) k ⊆ dd_get (room_intervals b') k) /\
  (forall k, dd_get (section_intervals b) k ⊆ dd_get (section_intervals b') k).

Definition session_section_key (sess : Session) : SectionKey :=
  (s_prog sess, s_yr sess, s_blk sess).

Definition session_interval (sess : Session) (presence : option Lit) : IntervalVar :=
  mkInterval (EVar (s_start sess)) (s_duration sess) (EVar (s_end sess)) presence.

(** The interval that carries an event of an earlier phase forward. *)
Definition fixed_interval (event : Event) : IntervalVar :=
  mkInterval (EInt (e_start_slot event)) (e_duration event)
             (EInt (e_start_slot event + e_duration event)) None.

(** Two states of the scheduler that differ at most in the schedule id
    counter, the progress entry and the pending solver answers. *)
Definition same_setting (s s' : Scheduler) : Prop :=
  process_id s = process_id s' /\ all_courses s = all_courses s' /\
  rooms s = rooms s' /\ days s = days s' /\ start_t s = start_t s' /\
  end_t s = end_t s' /\ inc_hr s = inc_hr s' /\ inc_day s = inc_day s' /\
  total_inc s = total_inc s' /\ lab_starts s = lab_starts s' /\
  global_schedule s = global_schedule s' /\ occupied_slots s = occupied_slots s' /\
  section_occupied s = section_occupied s' /\
  courses_with_both s = courses_with_both s'.

(** A start that the builder may offer to the solver for a session: it
    belongs to the search space of the session, and it keeps clear of the
    slots that earlier phases occupy for the section unless no start of the
    search space does (the fallback). *)
Definition start_allowed (self : Scheduler) (key : SectionKey) (duration : Z)
    (is_lab : bool) (s : Z) : Prop :=
  s ∈ search_space self duration is_lab /\
  (free_starts self key duration is_lab <> [] ->
   free_at (default ∅ (section_occupied self !! key)) duration s).

(** The part of the model that concerns one session: its end is its start
    plus its duration, its room variable ranges over the rooms of its type,
    every such room has a literal that is true when the room is chosen and
    that guards the session's interval in the room's bucket, its interval is
    in the bucket of its section, its start is taken from allowed starts and
    lies in the day of its day variable. *)
Definition session_modelled (self : Scheduler) (b : Build) (sess : Session) : Prop :=
  exists names starts,
    rooms_get (rooms self) (s_type sess) = Some names /\
    CLinear (EVar (s_end sess)) CEq
      (EAdd (EVar (s_start sess)) (EInt (s_duration sess))) None
      ∈ constraints (model b) /\
    CDomain (s_room sess) (DomRange 0 (Z.of_nat (length names) - 1))
      ∈ constraints (model b) /\
    (forall r, 0 <= r < Z.of_nat (length names) ->
       exists lit,
         CDomain lit (DomRange 0 1) ∈ constraints (model b) /\
         CLinear (EVar (s_room sess)) CNe (EInt r) (Some (LitNeg lit))
           ∈ constraints (model b) /\
         session_interval sess (Some (LitPos lit))
           ∈ dd_get (room_intervals b) (s_type sess, r)) /\
    session_interval sess None
      ∈ dd_get (section_intervals b) (session_section_key sess) /\
    CDomain (s_start sess) (DomValues starts) ∈ constraints (model b) /\
    Forall (start_allowed self (session_section_key sess) (s_duration sess)
              (bool_decide (s_type sess = lab))) starts /\
    CDomain (s_day sess) (DomRange 0 (Z.of_nat (length (days self)) - 1))
      ∈ constraints (model b) /\
    CLinear (EVar (s_start sess)) CGe (EMul (EVar (s_day sess)) (inc_day self)) None
      ∈ constraints (model b) /\
    CLinear (EVar (s_start sess)) CLt
      (EMul (EAdd (EVar (s_day sess)) (EInt 1)) (inc_day self)) None
      ∈ constraints (model b).

(** What a run of the builder from [(sid, b)] to [(sid', b')] that created
    [sessions] has done. *)
Record built (self : Scheduler) (sid : Z) (b : Build) (sessions : list Session)
    (sid' : Z) (b' : Build) : Prop := mkBuilt {
  built_grows : grows b b';
  built_ids : s_id <$> sessions = seqZ sid (Z.of_nat (length sessions));
  built_sid : sid' = sid + Z.of_nat (length sessions);
  built_vars :
    Forall (fun sess => (num_vars (model b) <= s_start sess < num_vars (model b'))%nat)
           sessions;
  built_increasing : StronglySorted lt (s_start <$> sessions);
  built_modelled : Forall (session_modelled self b') sessions
}.

(** The fields of a session that come from its course. *)
Definition Shape : Type := string * string * string * nat * nat * SessType * Z.

Definition session_shape (sess : Session) : Shape :=
  (s_code sess, s_title sess, s_prog sess, s_yr sess, s_blk sess, s_type sess,
   s_duration sess).

Definition event_shape (e : Event) : Shape :=
  (e_baseCourseCode e, e_title e, e_program e, e_year e, e_block e, e_room_type e,
   e_duration e).

(** The meetings that the builder creates for a block of a course, and for
    a course. *)
Definition block_shapes (course : Course) (b : nat) : list Shape :=
  replicate (unitsLecture course)
    (courseCode course, title course, program course, yearLevel course,
     block_letter b, lecture, 2)
  ++ replicate (unitsLab course * 2)
       (courseCode course, title course, program course, yearLevel course,
        block_letter b, lab, 3).

Definition course_shapes (course : Course) : list Shape :=
  b ← seq 0 (blocks course); block_shapes course b.

(** ** Properties of a schedule *)

(** The slot intervals [[start, start + duration)] of two events do not
    meet. *)
Definition slots_apart (e1 e2 : Event) : Prop :=
  e_start_slot e1 + e_duration e1 <= e_start_slot e2 \/
  e_start_slot e2 + e_duration e2 <= e_start_slot e1.

(** [R] holds between the elements at any two different positions. *)
Definition pairwise {A : Type} (R : A -> A -> Prop) (l : list A) : Prop :=
  forall i j x y, i <> j -> l !! i = Some x -> l !! j = Some y -> R x y.

(** P1: two events at different positions of the schedule that use the
    same room do not meet. *)
Definition room_exclusive (schedule : list Event) : Prop :=
  pairwise (fun e1 e2 => event_room_key e1 = event_room_key e2 -> slots_apart e1 e2)
           schedule.

(** P2: the same for two events of one section. *)
Definition section_exclusive (schedule : list Event) : Prop :=
  pairwise (fun e1 e2 => event_section_key e1 = event_section_key e2 -> slots_apart e1 e2)
           schedule.

(** P3: the first and the last slot of an event are in the same day. *)
Definition day_confined (inc : Z) (e : Event) : Prop :=
  e_start_slot e `div` inc = (e_start_slot e + e_duration e - 1) `div` inc.

(** [a] meets every constraint that the build has collected and keeps the
    intervals of every bucket apart. *)
Definition solved (b : Build) (a : Assignment) : Prop :=
  Forall (holds a) (constraints (model b)) /\
  (forall k, no_overlap a (dd_get (room_intervals b) k)) /\
  (forall k, no_overlap a (dd_get (section_intervals b) k)).

(** Two states of the scheduler with the same catalog and time grid. *)
Definition same_catalog (s s' : Scheduler) : Prop :=
  process_id s = process_id s' /\ all_courses s = all_courses s' /\
  rooms s = rooms s' /\ days s = days s' /\ start_t s = start_t s' /\
  end_t s = end_t s' /\ inc_hr s = inc_hr s' /\ inc_day s = inc_day s' /\
  total_inc s = total_inc s' /\ lab_starts s = lab_starts s' /\
  courses_with_both s = courses_with_both s'.

(** The slots that the ledger holds for a section. *)
Definition section_slots (self : Scheduler) (key : SectionKey) : gset Z :=
  default ∅ (section_occupied self !! key).

(** The code under which an event is displayed: a course that has both a
    lecture and a laboratory part shows them as [code ++ "A"] and
    [code ++ "L"]. *)
Definition display_code (both : gset string) (code : string) (t : SessType) : string :=
  if bool_decide (code ∈ both) then
    match t with
    | lecture => code +:+ "A"
    | lab => code +:+ "L"
    end
  else code.

(** The meetings of one kind of one block of a course. *)
Definition event_course_key (e : Event) : CourseKey :=
  (e_baseCourseCode e, e_program e, e_year e, e_block e, e_room_type e).

(** P6: the meetings of one kind of one block of a course share a room. *)
Definition room_consistent (schedule : list Event) : Prop :=
  pairwise (fun e1 e2 => event_course_key e1 = event_course_key e2 ->
                         e_room_idx e1 = e_room_idx e2)
           schedule.

(** The same on the sessions of a model, under an assignment. *)
Definition rooms_agree (a : Assignment) (sessions : list Session) : Prop :=
  forall s1 s2, s1 ∈ sessions -> s2 ∈ sessions ->
    session_course_key s1 = session_course_key s2 ->
    value a (s_room s1) = value a (s_room s2).

(** P7: how many meetings of one kind a block of a course may have on one
    day. *)
Definition day_cap (t : SessType) : nat :=
  match t with
  | lecture => 1
  | lab => 2
  end.

(** Every assignment that meets the constraints of the build keeps the
    sessions of any one course key within the cap on every day. *)
Definition days_capped (self : Scheduler) (b : Build) (sessions : list Session) : Prop :=
  forall a, Forall (holds a) (constraints (model b)) ->
  forall (key : CourseKey) d, 0 <= d < Z.of_nat (length (days self)) ->
    (length (filter (fun s => session_course_key s = key /\ value a (s_day s) = d)
                    sessions) <= day_cap key.2)%nat.

(** The same for the events of a schedule on a grid of [inc] slots per
    day. *)
Definition meetings_capped (inc : Z) (num_days : nat) (schedule : list Event) : Prop :=
  forall (key : CourseKey) d, 0 <= d < Z.of_nat num_days ->
    (length (filter (fun e => event_course_key e = key /\ (e_start_slot e `div` inc = d)%Z)
                    schedule) <= day_cap key.2)%nat.

(** The hour of the day at which an event starts, as [extract_phase_solution]
    computes it, and what it makes the period of the event. *)
Definition event_hours (self : Scheduler) (e : Event) : PyFloat.float :=
  PyFloat.add (PyFloat.of_int (start_t self))
    (PyFloat.div (PyFloat.of_int (e_start_slot e `mod` inc_day self))
                 (PyFloat.of_int (inc_hr self))).

Definition period_formatted (self : Scheduler) (e : Event) : Prop :=
  exists t1 t2,
    format_time (event_hours self e) = Ret t1 /\
    format_time (PyFloat.add (event_hours self e)
                   (PyFloat.div (PyFloat.of_int (e_duration e))
                                (PyFloat.of_int (inc_hr self)))) = Ret t2 /\
    e_period e = t1 +:+ " - " +:+ t2.

(** The word that an event carries for its session type. *)
Definition session_word (t : SessType) : string :=
  match t with
  | lecture => "Lecture"
  | lab => "Laboratory"
  end.

(** What a successful phase, run from [self] on [courses], has produced:
    the schedule [sched] of the phase and the state [self'] after it. *)
Record phase_result (self : Scheduler) (courses : list Course) (sched : list Event)
    (self' : Scheduler) : Prop := mkPhaseResult {
  pr_catalog : same_catalog self self';
  pr_global : global_schedule self' = global_schedule self;
  pr_shapes : event_shape <$> sched = courses ≫= course_shapes;
  pr_ids :
    exists sid0,
      schedule_id self <= sid0 /\
      e_schedule_id <$> sched = seqZ sid0 (Z.of_nat (length sched)) /\
      schedule_id self' = sid0 + Z.of_nat (length sched);
  pr_rooms :
    Forall (fun e => exists names,
                rooms_get (rooms self) (e_room_type e) = Some names /\
                0 <= e_room_idx e < Z.of_nat (length names) /\
                py_index names (e_room_idx e) = Ret (e_room e)) sched;
  pr_periods : Forall (period_formatted self) sched;
  pr_codes :
    Forall (fun e => e_courseCode e =
                     display_code (courses_with_both self) (e_baseCourseCode e)
                       (e_room_type e)) sched;
  pr_room_consistent : room_consistent sched;
  pr_caps :
    NoDup (courseCode <$> courses) ->
    meetings_capped (inc_day self) (length (days self)) sched;
  pr_room_exclusive : room_exclusive sched;
  pr_room_prior :
    forall pe e,
      pe ∈ global_schedule self ->
      is_Some (rooms_get (rooms self) (e_room_type pe)) ->
      e ∈ sched -> event_room_key pe = event_room_key e -> slots_apart pe e;
  pr_section_exclusive : section_exclusive sched;
  pr_starts :
    Forall (fun e => start_allowed self (event_section_key e) (e_duration e)
                       (bool_decide (e_room_type e = lab)) (e_start_slot e)) sched;
  pr_ledger_mono :
    forall k t, t ∈ section_slots self k -> t ∈ section_slots self' k;
  pr_ledger_covers :
    forall e t, e ∈ sched -> e_start_slot e <= t < e_start_slot e + e_duration e ->
                t ∈ section_slots self' (event_section_key e);
  pr_words : Forall (fun e => e_session e = session_word (e_room_type e)) sched;
  pr_days :
    Forall (fun e => exists d,
                0 <= d < Z.of_nat (length (days self)) /\
                d * inc_day self <= e_start_slot e < (d + 1) * inc_day self /\
                py_index (days self) d = Ret (e_day e)) sched
}.

(** The courses to which the partitioner gave the phase [p], in order. *)
Definition phase_courses_of (all : list (SchedulingPhase * Course)) (p : SchedulingPhase)
  : list Course :=
  (filter (fun pc => pc.1 = p) all).*2.

(** The successive phases of a successful run: each phase starts from the
    state that its predecessor left, with the cumulative schedule as the
    source of the carry-forward intervals. *)
Inductive phases_run : Scheduler -> list (list Course) -> list (list Event)
                       -> Scheduler -> Prop :=
| phases_run_nil self : phases_run self [] [] self
| phases_run_cons self courses groups sched scheds self1 self' :
    phase_result self courses sched self1 ->
    phases_run (set_global_schedule (global_schedule self ++ sched) self1)
               groups scheds self' ->
    phases_run self (courses :: groups) (sched :: scheds) self'.

(** The state in which [solve] starts its phases after the catalog
    [courses], [rs], [ts], [ds] has been loaded by a fresh scheduler. *)
Record loaded (courses : list Course) (rs : Rooms) (ts : TimeSettings)
    (ds : list string) (self : Scheduler) : Prop := mkLoaded {
  ld_courses : all_courses self = prioritize_and_partition_courses courses;
  ld_rooms : rooms self = rs;
  ld_days : days self = ds;
  ld_start_t : start_t self = start_time ts;
  ld_inc_hr : inc_hr self = 2;
  ld_inc_day : inc_day self = (end_time ts - start_time ts) * 2;
  ld_total_inc : total_inc self = inc_day self * Z.of_nat (length ds);
  ld_lab_starts : lab_starts self = compute_lab_starts (inc_day self) (length ds);
  ld_both : courses_with_both self = both_codes courses;
  ld_global : global_schedule self = [];
  ld_schedule_id : schedule_id self = 1;
  ld_sections : section_occupied self = ∅
}.

(** Every event uses a room of the catalog, and two events in one room are
    apart. *)
Definition rooms_kept (self : Scheduler) : Prop :=
  room_exclusive (global_schedule self) /\
  Forall (fun e => is_Some (rooms_get (rooms self) (e_room_type e))) (global_schedule self).

(** Schedule ids grow along the schedule and stay below the counter. *)
Definition ids_fresh (self : Scheduler) : Prop :=
  StronglySorted Z.lt (e_schedule_id <$> global_schedule self) /\
  Forall (fun e => 1 <= e_schedule_id e < schedule_id self) (global_schedule self) /\
  1 <= schedule_id self.

(** The events of one block of a course that carry a given session word. *)
Definition meetings_of (course : Course) (b : nat) (word : string) (schedule : list Event)
  : list Event :=
  filter (fun e => e_baseCourseCode e = courseCode course /\
                   e_block e = block_letter b /\ e_session e = word) schedule.

(** The same selection on shapes. *)
Definition shapes_of (code : string) (blk : nat) (t : SessType) (shapes : list Shape)
  : list Shape :=
  filter (fun sh => sh.1.1.1.1.1.1 = code /\ sh.1.1.2 = blk /\ sh.1.2 = t) shapes.

(** ** Progress *)

(** From [self] to [self'] the scheduler only appended to the progress
    entry of its own process, and appended nothing if it has no process
    id. *)
Definition progress_extends (self self' : Scheduler) : Prop :=
  process_id self' = process_id self /\
  exists written,
    progress_state self' = progress_state self ++ written /\
    (truthy (process_id self) = false -> written = []).

(** The values that [load_data] writes when all four loaders succeed. *)
Definition load_progress : list Z := [5; 15; 25; 35; 45; 50].

(** ** Order of the schedule *)

(** The order in which [solve] returns two events: by the position of the
    day name in the list of days, then by start slot. *)
Definition in_final_order (ds : list string) (e1 e2 : Event) : Prop :=
  exists i1 i2,
    py_list_index ds (e_day e1) = Ret i1 /\ py_list_index ds (e_day e2) = Ret i2 /\
    key_le (i1, e_start_slot e1) (i2, e_start_slot e2).

(** The slots that the ledger holds for a room. *)
Definition room_slots (self : Scheduler) (key : RoomKey) : gset Z :=
  default ∅ (occupied_slots self !! key).

(** ** Events and the catalog *)

(** [e] is a meeting of a block of a course of [courses]: a lecture
    meeting of two slots of a course with lecture units, or a laboratory
    meeting of three slots of a course with laboratory units. *)
Definition from_course (courses : list Course) (e : Event) : Prop :=
  exists course b,
    course ∈ courses /\ (b < blocks course)%nat /\
    e_baseCourseCode e = courseCode course /\
    e_title e = title course /\
    e_program e = program course /\
    e_year e = yearLevel course /\
    e_block e = block_letter b /\
    ((0 < unitsLecture course)%nat /\ e_session e = "Lecture"%string
     /\ e_room_type e = lecture /\ e_duration e = 2
     \/ (0 < unitsLab course)%nat /\ e_session e = "Laboratory"%string
        /\ e_room_type e = lab /\ e_duration e = 3).

(** The room of [e] is the entry at the room index of [e] in the room
    list of its session type. *)
Definition in_catalog_room (rs : Rooms) (e : Event) : Prop :=
  exists names,
    rooms_get rs (e_room_type e) = Some names /\
    0 <= e_room_idx e < Z.of_nat (length names) /\
    names !! Z.to_nat (e_room_idx e) = Some (e_room e).

(** [e] lies on the grid of days [ds] from [start_time ts] to
    [end_time ts] o'clock: its slots are within the week, its day is the
    one in which its first slot falls, and a laboratory meeting starts at
    a laboratory start slot and ends in the day in which it starts. *)
Definition on_grid (ts : TimeSettings) (ds : list string) (e : Event) : Prop :=
  let inc := (end_time ts - start_time ts) * 2 in
  0 < inc /\
  0 <= e_start_slot e /\
  e_start_slot e + e_duration e <= inc * Z.of_nat (length ds) /\
  ds !! Z.to_nat (e_start_slot e `div` inc) = Some (e_day e) /\
  (e_room_type e = lab -> day_confined inc e) /\
  (e_room_type e = lab -> e_start_slot e ∈ compute_lab_starts inc (length ds)).

(** Some course of [courses] with the code [code] has both lecture and
    laboratory units. *)
Definition has_both_parts (courses : list Course) (code : string) : Prop :=
  exists c, c ∈ courses /\ courseCode c = code /\
            (0 < unitsLecture c)%nat /\ (0 < unitsLab c)%nat.

(** The displayed code of [e] is its base code, followed by ["A"]
    (lecture) or ["L"] (laboratory) when the code has both parts. *)
Definition code_displayed (courses : list Course) (e : Event) : Prop :=
  (has_both_parts courses (e_baseCourseCode e) ->
   e_courseCode e = e_baseCourseCode e +:+ match e_room_type e with
                                           | lecture => "A"
                                           | lab => "L"
                                           end) /\
  (~ has_both_parts courses (e_baseCourseCode e) ->
   e_courseCode e = e_baseCourseCode e).

(** ** Periods *)

(** The time of day [half_hours] half hours after midnight on a
    twelve-hour clock, as the schedule prints it. *)
Definition clock (half_hours : Z) : string :=
  let h := half_hours `div` 2 in
  pretty (if bool_decide (h `mod` 12 = 0) then 12 else h `mod` 12)
  +:+ ":" +:+ (if bool_decide (half_hours `mod` 2 = 0) then "00" else "30")
  +:+ " " +:+ (if bool_decide (h < 12) then "AM" else "PM").

(** The period of an event on the grid of [ts]: the clock time of its
    first slot and the clock time at which its last slot ends. *)
Definition period_of_slots (ts : TimeSettings) (e : Event) : string :=
  let first := 2 * start_time ts
               + e_start_slot e `mod` ((end_time ts - start_time ts) * 2) in
  clock first +:+ " - " +:+ clock (first + e_duration e).

(** [format_time] gives the clock time for the start and the end of a
    meeting of [dur] slots that starts [offs] slots after [start] o'clock. *)
Definition period_checked (start offs dur : Z) : bool :=
  let hr := PyFloat.add (PyFloat.of_int start)
              (PyFloat.div (PyFloat.of_int offs) (PyFloat.of_int 2)) in
  let hr2 := PyFloat.add hr (PyFloat.div (PyFloat.of_int dur) (PyFloat.of_int 2)) in
  match format_time hr, format_time hr2 with
  | Ret t1, Ret t2 =>
      bool_decide (t1 = clock (2 * start + offs))
      && bool_decide (t2 = clock (2 * start + offs + dur))
  | _, _ => false
  end.

(** ** A small catalog *)

(** A first-year lecture course and a second-year course with a lecture
    and a laboratory part, one lecture room and one laboratory room, and a
    single day from 8 to 17 o'clock. *)
Definition demo_fr101 : Course :=
  {| courseCode := "FR101"; title := "French"; program := "BSCS";
     yearLevel := 1; unitsLecture := 1; unitsLab := 0; blocks := 1 |}.

Definition demo_cs201 : Course :=
  {| courseCode := "CS201"; title := "Data Structures"; program := "BSCS";
     yearLevel := 2; unitsLecture := 1; unitsLab := 1; blocks := 1 |}.

Definition demo_courses : list Course := [demo_fr101; demo_cs201].

Definition demo_rooms : Rooms :=
  {| lecture_rooms := Some ["L1"%string]; lab_rooms := Some ["B1"%string] |}.

Definition demo_catalog : Catalog :=
  {| load_courses := Ret demo_courses;
     load_rooms := Ret demo_rooms;
     load_time_settings := Ret (mkTimeSettings 8 17);
     load_days := Ret ["Mon"%string] |}.

(** What the solver answers to the two phases: the lecture of FR101 at
    slots 0 and 1; then the lecture of CS201 at slots 2 and 3 and its two
    laboratory meetings at slots 4 to 6 and 7 to 9. *)
Definition demo_answers : list (option Assignment) :=
  [ Some [0; 2; 0; 0; 1];
    Some [2; 4; 0; 0; 1;  4; 7; 0; 0; 1;  7; 10; 0; 0; 1;  1; 1] ].

Definition demo_pid : option string := Some "job-1"%string.

(** The schedule of the run, with its internal fields. *)
Definition demo_schedule : list Event :=
  Eval vm_compute in default [] (internal_schedule demo_pid demo_catalog demo_answers).

(** The same catalog without a list of laboratory rooms. *)
Definition demo_catalog_no_labs : Catalog :=
  {| load_courses := Ret demo_courses;
     load_rooms := Ret {| lecture_rooms := Some ["L1"%string]; lab_rooms := None |};
     load_time_settings := Ret (mkTimeSettings 8 17);
     load_days := Ret ["Mon"%string] |}.

(** The same catalog with a loader of the rooms that raises. *)
Definition demo_catalog_broken : Catalog :=
  {| load_courses := Ret demo_courses;
     load_rooms := Raise;
     load_time_settings := Ret (mkTimeSettings 8 17);
     load_days := Ret ["Mon"%string] |}.

(** The state in which the phases of the run start, and its first phase. *)
Definition demo_loaded : Scheduler :=
  (load_data demo_catalog (init_scheduler demo_pid demo_answers)).1.

Definition demo_phase_1 : Scheduler * Exc (option (list Event)) :=
  solve_phase demo_loaded [demo_fr101] 1 2.

(** The event of the first phase. *)
Definition demo_event : Event :=
  {| e_schedule_id := 1; e_courseCode := "FR101"; e_baseCourseCode := "FR101";
     e_title := "French"; e_program := "BSCS"; e_year := 1; e_session := "Lecture";
     e_block := 65; e_day := "Mon"; e_period := "8:00 AM - 9:00 AM"; e_room := "L1";
     e_start_slot := 0; e_duration := 2; e_room_type := lecture; e_room_idx := 0 |}.

(** A model with two day variables, both on day 0, and the values of the
    two Booleans that [add_block_day_constraints] creates for them. *)
Definition demo_day_model : CpModel :=
  (NewIntVar 0 0 (NewIntVar 0 0 empty_model).2).2.

Definition demo_day_values : Assignment := [0; 0; 1; 1].



(* ===================================================================== *)
(** * Properties *)
(* ===================================================================== *)

(** ** Sorting *)

Section sorting.
Context {A : Type} (key : A -> Z * Z).

Lemma key_lt_false_le k1 k2 : key_lt k1 k2 = false -> key_le k2 k1.
Proof.
  unfold key_lt, key_le. destruct k1 as [a b], k2 as [c d]; simpl.
  rewrite orb_false_iff, andb_false_iff, !bool_decide_eq_false. lia.
Qed.

Lemma key_lt_true_le k1 k2 : key_lt k1 k2 = true -> key_le k1 k2.
Proof.
  unfold key_lt, key_le. destruct k1 as [a b], k2 as [c d]; simpl.
  rewrite orb_true_iff, andb_true_iff, !bool_decide_eq_true. lia.
Qed.

Lemma key_le_trans k1 k2 k3 : key_le k1 k2 -> key_le k2 k3 -> key_le k1 k3.
Proof. unfold key_le. lia. Qed.

Lemma insert_by_key_perm x l : insert_by_key key x l ≡ₚ x :: l.
Proof.
  induction l as [|y l IH]; simpl; [done|].
  destruct (key_lt (key y) (key x)); [|done].
  rewrite IH. apply Permutation_swap.
Qed.

Lemma sort_by_key_perm l : sort_by_key key l ≡ₚ l.
Proof.
  induction l as [|x l IH]; simpl; [done|].
  by rewrite insert_by_key_perm, IH.
Qed.

Lemma insert_by_key_sorted x l :
  StronglySorted (fun a b => key_le (key a) (key b)) l ->
  StronglySorted (fun a b => key_le (key a) (key b)) (insert_by_key key x l).
Proof.
  induction 1 as [|y l Hs IH Hy]; simpl.
  - repeat constructor.
  - destruct (key_lt (key y) (key x)) eqn:E.
    + constructor; [done|].
      rewrite insert_by_key_perm. constructor; [|done].
      by apply key_lt_true_le.
    + apply key_lt_false_le in E.
      constructor; [by constructor|].
      constructor; [done|].
      eapply Forall_impl; [exact Hy|]. intros z Hz. by eapply key_le_trans.
Qed.

Lemma sort_by_key_sorted l :
  StronglySorted (fun a b => key_le (key a) (key b)) (sort_by_key key l).
Proof.
  induction l; simpl; [constructor|]. by apply insert_by_key_sorted.
Qed.

End sorting.

Lemma StronglySorted_fmap_on {A B : Type} (R : relation A) (R' : relation B)
    (P : A -> Prop) (f : A -> B) (l : list A) :
  (forall x y, P x -> P y -> R x y -> R' (f x) (f y)) ->
  Forall P l -> StronglySorted R l -> StronglySorted R' (f <$> l).
Proof.
  intros HR HP Hs. induction Hs as [|x l Hs IH Hx]; simpl; [constructor|].
  apply Forall_cons in HP as [Px HP].
  constructor; [by apply IH|].
  apply Forall_fmap. rewrite Forall_forall in Hx, HP |- *.
  intros y Hy. apply HR; auto.
Qed.

(** ** The course partitioner *)

Lemma course_phase_1 c :
  course_phase c = PHASE_1_FLEXIBLE <-> (yearLevel c <= 1 /\ unitsLab c = 0)%nat.
Proof.
  unfold course_phase, has_lab.
  repeat case_bool_decide; simpl; split; intros; try done; try lia.
Qed.

Lemma course_phase_2 c :
  course_phase c = PHASE_2_REGULAR <->
  ((2 <= yearLevel c < 4 /\ 0 < unitsLab c) \/ (unitsLab c = 0 /\ 2 <= yearLevel c))%nat.
Proof.
  unfold course_phase, has_lab.
  repeat case_bool_decide; simpl; split; intros; try done; try lia.
Qed.

Lemma course_phase_3 c :
  course_phase c = PHASE_3_CRITICAL <->
  ~ (yearLevel c <= 1 /\ unitsLab c = 0)%nat /\
  ~ ((2 <= yearLevel c < 4 /\ 0 < unitsLab c) \/ (unitsLab c = 0 /\ 2 <= yearLevel c))%nat.
Proof.
  unfold course_phase, has_lab.
  repeat case_bool_decide; simpl; split; intros; try done; try lia.
Qed.

Lemma partition_perm courses :
  prioritize_and_partition_courses courses ≡ₚ (fun c => (course_phase c, c)) <$> courses.
Proof.
  unfold prioritize_and_partition_courses.
  rewrite sort_by_key_perm, <- list_fmap_compose. done.
Qed.

Lemma partition_sorted courses :
  StronglySorted partition_order (prioritize_and_partition_courses courses).
Proof.
  unfold prioritize_and_partition_courses.
  eapply (StronglySorted_fmap_on
            (fun a b => key_le (scored_key a) (scored_key b)) _
            (fun x => exists c, x = scored c)).
  - intros x y [c ->] [c' ->]. unfold key_le, partition_order, scored_key, scored; simpl. lia.
  - rewrite sort_by_key_perm. apply Forall_fmap, Forall_forall. intros c _. by exists c.
  - apply sort_by_key_sorted.
Qed.

(** C5.  The partitioner gives a course phase 1 exactly when its year
    level is at most 1 and it has no lab units, phase 2 exactly when it is
    a lab course of year 2 or 3 or a course without lab units of year 2 or
    more, and phase 3 otherwise; the three phases have the values 1, 2
    and 3; its result consists of the pairs (phase of the course, course)
    of the input courses, ordered by phase value ascending and, within a
    phase, by priority score descending. *)
Theorem partitioner_phases_and_order (courses : list Course) :
  (phase_value PHASE_1_FLEXIBLE = 1 /\ phase_value PHASE_2_REGULAR = 2 /\
   phase_value PHASE_3_CRITICAL = 3) /\
  (forall c, course_phase c = PHASE_1_FLEXIBLE <->
             (yearLevel c <= 1 /\ unitsLab c = 0)%nat) /\
  (forall c, course_phase c = PHASE_2_REGULAR <->
             ((2 <= yearLevel c < 4 /\ 0 < unitsLab c)
              \/ (unitsLab c = 0 /\ 2 <= yearLevel c))%nat) /\
  (forall c, course_phase c = PHASE_3_CRITICAL <->
             ~ (yearLevel c <= 1 /\ unitsLab c = 0)%nat /\
             ~ ((2 <= yearLevel c < 4 /\ 0 < unitsLab c)
                \/ (unitsLab c = 0 /\ 2 <= yearLevel c))%nat) /\
  (forall c, priority_score c =
             Z.of_nat (yearLevel c) * 1000
             + (Z.of_nat (unitsLecture c) + 2 * Z.of_nat (unitsLab c)) * 100
             + Z.of_nat (unitsLab c) * 50 + Z.of_nat (blocks c) * 10) /\
  prioritize_and_partition_courses courses ≡ₚ (fun c => (course_phase c, c)) <$> courses /\
  StronglySorted partition_order (prioritize_and_partition_courses courses).
Proof.
  split_and!.
  - done.
  - done.
  - done.
  - apply course_phase_1.
  - apply course_phase_2.
  - apply course_phase_3.
  - intros c. unfold priority_score. lia.
  - apply partition_perm.
  - apply partition_sorted.
Qed.

(** ** The occupancy ledger *)

Lemma elem_of_py_range2 a b x : x ∈ py_range2 a b <-> a <= x < b.
Proof. unfold py_range2. rewrite elem_of_seqZ. lia. Qed.

Lemma elem_of_py_range n x : x ∈ py_range n <-> 0 <= x < n.
Proof. apply elem_of_py_range2. Qed.

Lemma elem_of_slots_needed start duration t :
  t ∈ slots_needed start duration <-> start <= t < start + duration.
Proof. unfold slots_needed. rewrite elem_of_list_to_set. apply elem_of_py_range2. Qed.

Lemma slots_free_spec occupied start duration :
  slots_free occupied start duration = true <-> free_at occupied duration start.
Proof.
  unfold slots_free, free_at. rewrite bool_decide_eq_true.
  rewrite <- disjoint_intersection_L. unfold disjoint at 1.
  split.
  - intros H t Ht Hocc. apply (H t); [by apply elem_of_slots_needed|done].
  - intros H t Ht Hocc. apply elem_of_slots_needed in Ht. by apply (H t).
Qed.

Lemma StronglySorted_seqZ m n : StronglySorted Z.lt (seqZ m n).
Proof.
  destruct (decide (0 <= n)) as [Hn|Hn]; [|rewrite seqZ_nil by lia; constructor].
  rewrite <- (Z2Nat.id n) by done. generalize (Z.to_nat n) as k. clear. intros k.
  induction k as [|k IH]; [constructor|].
  rewrite seqZ_S. apply StronglySorted_app_2; [|done|repeat constructor].
  intros x y Hx Hy. apply elem_of_seqZ in Hx. apply list_elem_of_singleton in Hy. lia.
Qed.

Lemma StronglySorted_take {A} (R : relation A) n (l : list A) :
  StronglySorted R l -> StronglySorted R (take n l).
Proof.
  intros H. rewrite <- (take_drop n l) in H. by apply StronglySorted_app_1_l in H.
Qed.

Lemma StronglySorted_filter {A} (R : relation A) (P : A -> Prop)
    `{forall x, Decision (P x)} (l : list A) :
  StronglySorted R l -> StronglySorted R (filter P l).
Proof.
  induction 1 as [|x l Hs IH Hx]; [constructor|].
  rewrite filter_cons. destruct (decide (P x)); [|done].
  constructor; [done|].
  rewrite Forall_forall in Hx |- *. intros y Hy. apply Hx.
  by apply list_elem_of_filter in Hy as [_ ?].
Qed.

Lemma lab_starts_bind ds inc :
  StronglySorted Z.lt ds ->
  StronglySorted Z.lt (d ← ds; py_range2 (d * inc) (d * inc + inc - 2)).
Proof.
  induction 1 as [|d ds Hs IH Hd]; [constructor|].
  rewrite bind_cons. apply StronglySorted_app_2; [|apply StronglySorted_seqZ|done].
  intros x y Hx Hy. apply elem_of_py_range2 in Hx.
  apply list_elem_of_bind in Hy as (d' & Hy & Hd').
  apply elem_of_py_range2 in Hy.
  rewrite Forall_forall in Hd. specialize (Hd _ Hd'). nia.
Qed.

Lemma compute_lab_starts_sorted inc n : StronglySorted Z.lt (compute_lab_starts inc n).
Proof. apply lab_starts_bind, StronglySorted_seqZ. Qed.

Lemma scan_starts_take occupied duration cap space acc :
  Z.of_nat (length acc) < cap ->
  scan_starts occupied duration cap space acc =
  take (Z.to_nat cap)
       (acc ++ filter (fun s => slots_free occupied s duration = true) space).
Proof.
  revert acc. induction space as [|start rest IH]; intros acc Hlen; simpl.
  - rewrite app_nil_r, take_ge; [done|lia].
  - rewrite filter_cons. destruct (slots_free occupied start duration) eqn:E.
    + rewrite decide_True by done.
      case_bool_decide as Hcap.
      * rewrite length_app in Hcap; simpl in Hcap.
        set (more := filter _ rest).
        trans (take (Z.to_nat cap) ((acc ++ [start]) ++ more)).
        { rewrite take_app_length'; [done|]. rewrite length_app; simpl. lia. }
        by rewrite <- app_assoc.
      * rewrite IH, <- app_assoc; [done|].
        rewrite length_app in Hcap |- *; simpl in *. lia.
    + rewrite decide_False by done. by apply IH.
Qed.

Lemma get_available_time_slots_take self section_key duration is_lab cap :
  1 <= cap ->
  get_available_time_slots self section_key duration is_lab cap =
  take (Z.to_nat cap) (free_starts self section_key duration is_lab).
Proof.
  intros Hcap. unfold get_available_time_slots, free_starts.
  rewrite scan_starts_take; [done|simpl; lia].
Qed.

Lemma elem_of_free_starts self section_key duration is_lab s :
  s ∈ free_starts self section_key duration is_lab <->
  s ∈ search_space self duration is_lab /\
  free_at (default ∅ (section_occupied self !! section_key)) duration s.
Proof.
  unfold free_starts. rewrite list_elem_of_filter, slots_free_spec. tauto.
Qed.

Lemma search_space_sorted self duration is_lab :
  lab_starts self = compute_lab_starts (inc_day self) (length (days self)) ->
  StronglySorted Z.lt (search_space self duration is_lab).
Proof.
  intros Hlab. unfold search_space. destruct is_lab.
  - rewrite Hlab. apply compute_lab_starts_sorted.
  - apply StronglySorted_seqZ.
Qed.

Lemma scan_starts_low_cap occupied duration cap space :
  cap <= 0 ->
  scan_starts occupied duration cap space [] =
  take 1 (filter (fun s => slots_free occupied s duration = true) space).
Proof.
  intros Hcap. induction space as [|start rest IH]; simpl; [done|].
  rewrite filter_cons. destruct (slots_free occupied start duration) eqn:E.
  - rewrite decide_True by done. rewrite bool_decide_eq_true_2 by (simpl; lia). done.
  - rewrite decide_False by done. exact IH.
Qed.

(** C6.  The code does not keep to a cap below 1.  The loop of
    [get_available_time_slots] tests the cap only after it has appended a
    start, so for every cap of 0 or less the result is the first free
    start of the search space (if there is one) and not the first [cap]
    of them.  After the first phase of the small catalog, the section of
    the scheduled lecture has the free starts 2, 3, ..., 16 for a meeting
    of two slots; with a cap of 0 the code returns [[2]], where the first
    0 of them are none. *)
Theorem available_starts_cap_zero :
  (forall (self : Scheduler) (section_key : SectionKey) (duration : Z) (is_lab : bool)
          (cap : Z),
     cap <= 0 ->
     get_available_time_slots self section_key duration is_lab cap =
     take 1 (free_starts self section_key duration is_lab)) /\
  free_starts demo_phase_1.1 ("BSCS"%string, 1%nat, 65%nat) 2 false = seqZ 2 15 /\
  get_available_time_slots demo_phase_1.1 ("BSCS"%string, 1%nat, 65%nat) 2 false 0 = [2] /\
  take (Z.to_nat 0) (free_starts demo_phase_1.1 ("BSCS"%string, 1%nat, 65%nat) 2 false) = [].
Proof.
  split_and!.
  - intros self section_key duration is_lab cap Hcap.
    unfold get_available_time_slots, free_starts. by apply scan_starts_low_cap.
  - vm_compute. reflexivity.
  - vm_compute. reflexivity.
  - reflexivity.
Qed.

(** X25.  For a cap of at least 1, [get_available_time_slots] returns the
    first [cap] of the starts of the search space ([lab_starts] for a lab,
    [0 .. total_inc - duration] otherwise) whose slots
    [s .. s + duration - 1] are all outside the section's occupied set; the
    result is in ascending order, and when fewer than [cap] such starts
    exist it is all of them. *)
Theorem available_starts_capped (self : Scheduler) (section_key : SectionKey)
    (duration : Z) (is_lab : bool) (cap : Z) :
  1 <= cap ->
  lab_starts self = compute_lab_starts (inc_day self) (length (days self)) ->
  get_available_time_slots self section_key duration is_lab cap =
    take (Z.to_nat cap) (free_starts self section_key duration is_lab) /\
  (forall s, s ∈ free_starts self section_key duration is_lab <->
             s ∈ search_space self duration is_lab /\
             free_at (default ∅ (section_occupied self !! section_key)) duration s) /\
  search_space self duration is_lab =
    (if is_lab then lab_starts self else py_range (total_inc self - duration + 1)) /\
  StronglySorted Z.lt (get_available_time_slots self section_key duration is_lab cap) /\
  (Z.of_nat (length (free_starts self section_key duration is_lab)) < cap ->
   get_available_time_slots self section_key duration is_lab cap =
   free_starts self section_key duration is_lab).
Proof.
  intros Hcap Hlab. split_and!.
  - by apply get_available_time_slots_take.
  - intros s. apply elem_of_free_starts.
  - done.
  - rewrite get_available_time_slots_take by done.
    apply StronglySorted_take, StronglySorted_filter. by apply search_space_sorted.
  - intros Hfew. rewrite get_available_time_slots_take by done.
    apply take_ge. lia.
Qed.

Lemma available_starts_capped_witness :
  get_available_time_slots demo_phase_1.1 ("BSCS"%string, 1%nat, 65%nat) 2 false 3
  = [2; 3; 4] /\
  get_available_time_slots demo_phase_1.1 ("BSCS"%string, 1%nat, 65%nat) 3 true 1000
  = seqZ 2 14.
Proof.
  split.
  - destruct (available_starts_capped demo_phase_1.1 ("BSCS"%string, 1%nat, 65%nat)
                2 false 3) as (Htake & _).
    + lia.
    + vm_compute. reflexivity.
    + rewrite Htake. vm_compute. reflexivity.
  - destruct (available_starts_capped demo_phase_1.1 ("BSCS"%string, 1%nat, 65%nat)
                3 true 1000) as (_ & _ & _ & _ & Hall).
    + lia.
    + vm_compute. reflexivity.
    + rewrite Hall; vm_compute; reflexivity.
Defined.

(** ** Phase timeouts *)






(** ** Buckets *)

Section defaultdict.
Context {K V : Type} `{EqDecision K}.
Implicit Types (d : list (K * list V)) (k : K) (v : V).

Lemma dd_get_append d k v k' :
  dd_get (dd_append d k v) k' =
  if decide (k = k') then dd_get d k' ++ [v] else dd_get d k'.
Proof.
  induction d as [|[k0 l] d IH]; simpl.
  - repeat case_decide; done.
  - destruct (decide (k0 = k)) as [->|Hne]; simpl.
    + repeat case_decide; done.
    + rewrite IH. repeat case_decide; congruence.
Qed.

Lemma dd_get_append_mono d k v k' : dd_get d k' ⊆ dd_get (dd_append d k v) k'.
Proof.
  rewrite dd_get_append. case_decide; [|done].
  intros x Hx. apply elem_of_app. by left.
Qed.

Lemma dd_get_append_new d k v : v ∈ dd_get (dd_append d k v) k.
Proof. rewrite dd_get_append, decide_True by done. apply elem_of_app. right. by left. Qed.

Lemma dd_get_in_values d k : dd_get d k <> [] -> dd_get d k ∈ dd_values d.
Proof.
  unfold dd_values. induction d as [|[k0 l] d IH]; simpl; [done|].
  case_decide; intros Hne.
  - by left.
  - right. by apply IH.
Qed.

End defaultdict.

(** ** Growth of the model *)

#[local] Instance model_grows_preorder : PreOrder model_grows.
Proof.
  split.
  - intros m. split; [lia|done].
  - intros m1 m2 m3 [? ?] [? ?]. split; [lia|by etrans].
Qed.

#[local] Instance grows_preorder : PreOrder grows.
Proof.
  split.
  - intros b. split_and!; [reflexivity|intros k; reflexivity..].
  - intros b1 b2 b3 (? & H1 & H2) (? & H3 & H4). split_and!; [by etrans|..].
    + intros k. etrans; [apply H1|apply H3].
    + intros k. etrans; [apply H2|apply H4].
Qed.

Lemma new_var_grows d m : model_grows m (new_var d m).2.
Proof. split; simpl; [lia|]. intros c Hc. apply elem_of_app. by left. Qed.

Lemma Add_grows c m : model_grows m (Add c m).
Proof. split; simpl; [lia|]. intros c' Hc. apply elem_of_app. by left. Qed.

Lemma Add_elem c m : c ∈ constraints (Add c m).
Proof. simpl. apply elem_of_app. right. by left. Qed.

Lemma Minimize_grows e m : model_grows m (Minimize e m).
Proof. split; simpl; [lia|done]. Qed.

Lemma foldl_model_grows {A} (f : CpModel -> A -> CpModel) (l : list A) m :
  (forall m x, model_grows m (f m x)) -> model_grows m (foldl f m l).
Proof.
  intros Hf. revert m. induction l as [|x l IH]; intros m; simpl; [done|].
  etrans; [apply Hf|apply IH].
Qed.

Lemma foldl_model_grows_fst {A B} (f : CpModel * B -> A -> CpModel * B) (l : list A) st :
  (forall st x, model_grows st.1 (f st x).1) -> model_grows st.1 (foldl f st l).1.
Proof.
  intros Hf. revert st. induction l as [|x l IH]; intros st; simpl; [done|].
  etrans; [apply Hf|apply IH].
Qed.

Lemma with_model_grows m b : model_grows (model b) m -> grows b (with_model m b).
Proof. intros Hm. split_and!; [done|intros k; reflexivity..]. Qed.

Lemma grows_constraints b b' c :
  grows b b' -> c ∈ constraints (model b) -> c ∈ constraints (model b').
Proof. intros ((_ & H) & _) Hc. by apply H. Qed.

Lemma grows_room_bucket b b' k iv :
  grows b b' -> iv ∈ dd_get (room_intervals b) k -> iv ∈ dd_get (room_intervals b') k.
Proof. intros (_ & H & _) Hiv. by apply H. Qed.

Lemma grows_section_bucket b b' k iv :
  grows b b' -> iv ∈ dd_get (section_intervals b) k ->
  iv ∈ dd_get (section_intervals b') k.
Proof. intros (_ & _ & H) Hiv. by apply H. Qed.

Lemma grows_num_vars b b' :
  grows b b' -> (num_vars (model b) <= num_vars (model b'))%nat.
Proof. by intros ((H & _) & _). Qed.

Lemma session_modelled_grows self b b' sess :
  grows b b' -> session_modelled self b sess -> session_modelled self b' sess.
Proof.
  intros Hg (names & starts & Hrooms & Hend & Hroom & Hlits & Hsec & Hdom & Hall
             & Hday & Hge & Hlt).
  exists names, starts.
  split_and!; try done; try (by eapply grows_constraints);
    try (by eapply grows_section_bucket).
  intros r Hr. destruct (Hlits r Hr) as (lit & H1 & H2 & H3).
  exists lit. split_and!; [by eapply grows_constraints..|by eapply grows_room_bucket].
Qed.

(** ** Carry-forward intervals *)

Lemma add_prior_interval_grows self b event : grows b (add_prior_interval self b event).
Proof.
  unfold add_prior_interval. destruct (rooms_get _ _); [|done]. simpl.
  split_and!; simpl.
  - apply Add_grows.
  - intros k. apply dd_get_append_mono.
  - done.
Qed.

Lemma add_prior_interval_num_vars self b event :
  num_vars (model (add_prior_interval self b event)) = num_vars (model b).
Proof. unfold add_prior_interval. by destruct (rooms_get _ _). Qed.

Lemma add_prior_interval_elem self b event :
  is_Some (rooms_get (rooms self) (e_room_type event)) ->
  fixed_interval event
    ∈ dd_get (room_intervals (add_prior_interval self b event)) (event_room_key event).
Proof.
  intros [names Hn]. unfold add_prior_interval. rewrite Hn. simpl.
  apply dd_get_append_new.
Qed.

Lemma prior_loop_grows self events b :
  grows b (foldl (add_prior_interval self) b events).
Proof.
  revert b. induction events as [|e events IH]; intros b; simpl; [done|].
  etrans; [apply add_prior_interval_grows|apply IH].
Qed.

Lemma prior_loop_num_vars self events b :
  num_vars (model (foldl (add_prior_interval self) b events)) = num_vars (model b).
Proof.
  revert b. induction events as [|e events IH]; intros b; simpl; [done|].
  by rewrite IH, add_prior_interval_num_vars.
Qed.

Lemma prior_loop_elem self events b event :
  event ∈ events ->
  is_Some (rooms_get (rooms self) (e_room_type event)) ->
  fixed_interval event
    ∈ dd_get (room_intervals (foldl (add_prior_interval self) b events))
             (event_room_key event).
Proof.
  intros Hin Hsome. revert b.
  induction events as [|e events IH]; intros b; [by apply elem_of_nil in Hin|].
  simpl. apply elem_of_cons in Hin as [->|Hin].
  - eapply grows_room_bucket; [apply prior_loop_grows|].
    by apply add_prior_interval_elem.
  - by apply IH.
Qed.

(** ** One session *)

Lemma add_room_interval_grows t s e rv dur b r :
  grows b (add_room_interval t s e rv dur b r).
Proof.
  unfold add_room_interval. simpl. split_and!; simpl.
  - split; simpl; [lia|]. intros c Hc. rewrite !elem_of_app. tauto.
  - intros k. apply dd_get_append_mono.
  - done.
Qed.

Lemma room_loop_grows t s e rv dur rs b :
  grows b (foldl (add_room_interval t s e rv dur) b rs).
Proof.
  revert b. induction rs as [|r rs IH]; intros b; simpl; [done|].
  etrans; [apply add_room_interval_grows|apply IH].
Qed.

Lemma room_loop_section t s e rv dur rs b :
  section_intervals (foldl (add_room_interval t s e rv dur) b rs) = section_intervals b.
Proof.
  revert b. induction rs as [|r rs IH]; intros b; simpl; [done|]. by rewrite IH.
Qed.

Lemma room_loop_lits t s e rv dur rs b r :
  r ∈ rs ->
  let b' := foldl (add_room_interval t s e rv dur) b rs in
  exists lit,
    CDomain lit (DomRange 0 1) ∈ constraints (model b') /\
    CLinear (EVar rv) CNe (EInt r) (Some (LitNeg lit)) ∈ constraints (model b') /\
    mkInterval (EVar s) dur (EVar e) (Some (LitPos lit)) ∈ dd_get (room_intervals b') (t, r).
Proof.
  intros Hin. revert b.
  induction rs as [|r0 rs IH]; intros b; [by apply elem_of_nil in Hin|].
  simpl. apply elem_of_cons in Hin as [->|Hin]; [|by apply IH].
  exists (num_vars (model b)).
  pose proof (room_loop_grows t s e rv dur rs (add_room_interval t s e rv dur b r0)) as Hg.
  split_and!.
  - eapply grows_constraints; [exact Hg|]. simpl. rewrite !elem_of_app, !list_elem_of_singleton.
    tauto.
  - eapply grows_constraints; [exact Hg|]. simpl. rewrite !elem_of_app, !list_elem_of_singleton.
    tauto.
  - eapply grows_room_bucket; [exact Hg|]. simpl. apply dd_get_append_new.
Qed.

Lemma create_one_session_spec self code prog yr blk t dur title starts names b sid
    sess b' :
  rooms_get (rooms self) t = Some names ->
  Forall (start_allowed self (prog, yr, blk) dur (bool_decide (t = lab))) starts ->
  create_one_session self code prog yr blk t dur title (prog, yr, blk) starts
    (Z.of_nat (length names)) b sid = Some (sess, b') ->
  built self sid b [sess] (sid + 1) b' /\
  session_shape sess = (code, title, prog, yr, blk, t, dur).
Proof.
  intros Hrooms Hallowed. unfold create_one_session.
  destruct (take _ starts) as [|v0 vs] eqn:Hdom; [done|].
  set (values := v0 :: vs). simpl. intros [= <- <-].
  match goal with
  | |- context [foldl ?f ?b1 ?rs] =>
      pose proof (room_loop_grows t (num_vars (model b)) (S (num_vars (model b)))
                    (S (S (S (num_vars (model b))))) dur rs b1) as Hg;
      pose proof (room_loop_section t (num_vars (model b)) (S (num_vars (model b)))
                    (S (S (S (num_vars (model b))))) dur rs b1) as Hsec;
      pose proof (fun r => room_loop_lits t (num_vars (model b)) (S (num_vars (model b)))
                    (S (S (S (num_vars (model b))))) dur rs b1 r) as Hlits;
      set (b1v := b1) in *; set (b2 := foldl f b1v rs) in *
  end.
  assert (grows b b1v) as Hg1.
  { split_and!; simpl.
    - split; simpl; [lia|]. intros c Hc. rewrite !elem_of_app. tauto.
    - done.
    - intros k. apply dd_get_append_mono. }
  split; [|done]. split.
  - by etrans.
  - done.
  - simpl. lia.
  - apply Forall_singleton. simpl.
    apply grows_num_vars in Hg. simpl in Hg. lia.
  - repeat constructor.
  - apply Forall_singleton.
    exists names, values. split_and!; simpl; try done;
      try (eapply grows_constraints; [exact Hg|]; simpl;
           rewrite !elem_of_app, !list_elem_of_singleton; tauto).
    + intros r Hr. destruct (Hlits r) as (lit & ? & ? & ?); [by apply elem_of_py_range|].
      by exists lit.
    + eapply grows_section_bucket; [exact Hg|]. simpl. apply dd_get_append_new.
    + unfold values. rewrite <- Hdom. by apply Forall_take.
Qed.

(** ** Composition of builder runs *)

Lemma built_nil self sid b : built self sid b [] sid b.
Proof. split; simpl; try done; try constructor. lia. Qed.

Lemma built_weaken self sid b sessions sid' b1 b2 :
  built self sid b sessions sid' b1 -> grows b1 b2 ->
  built self sid b sessions sid' b2.
Proof.
  intros [Hg Hids Hsid Hvars Hinc Hmod] Hg2. split; try done.
  - by etrans.
  - eapply Forall_impl; [exact Hvars|]. simpl. intros sess Hs.
    apply grows_num_vars in Hg2. lia.
  - eapply Forall_impl; [exact Hmod|]. intros sess. by apply session_modelled_grows.
Qed.

Lemma built_app self sid b s1 sid1 b1 s2 sid2 b2 :
  built self sid b s1 sid1 b1 -> built self sid1 b1 s2 sid2 b2 ->
  built self sid b (s1 ++ s2) sid2 b2.
Proof.
  intros [Hg1 Hids1 Hsid1 Hvars1 Hinc1 Hmod1] [Hg2 Hids2 Hsid2 Hvars2 Hinc2 Hmod2].
  split.
  - by etrans.
  - rewrite fmap_app, length_app, Nat2Z.inj_add, seqZ_app by lia.
    by rewrite Hids1, Hids2, Hsid1.
  - rewrite length_app. lia.
  - apply Forall_app. split.
    + eapply Forall_impl; [exact Hvars1|]. simpl. intros sess Hs.
      apply grows_num_vars in Hg2. lia.
    + eapply Forall_impl; [exact Hvars2|]. simpl. intros sess Hs.
      apply grows_num_vars in Hg1. lia.
  - rewrite fmap_app. apply StronglySorted_app_2; [|done..].
    intros x1 x2 Hx1 Hx2.
    apply list_elem_of_fmap in Hx1 as (y1 & -> & Hy1).
    apply list_elem_of_fmap in Hx2 as (y2 & -> & Hy2).
    rewrite Forall_forall in Hvars1, Hvars2.
    specialize (Hvars1 _ Hy1). specialize (Hvars2 _ Hy2). simpl in *. lia.
  - apply Forall_app. split; [|done].
    eapply Forall_impl; [exact Hmod1|]. intros sess. by apply session_modelled_grows.
Qed.

Lemma built_sid_le self sid b sessions sid' b' :
  built self sid b sessions sid' b' -> sid <= sid'.
Proof. intros [_ _ -> _ _ _]. lia. Qed.

(** ** The loops of the builder *)

Lemma create_sessions_loop_spec self code prog yr blk t dur title starts names units
    b sid sid' b' r :
  rooms_get (rooms self) t = Some names ->
  Forall (start_allowed self (prog, yr, blk) dur (bool_decide (t = lab))) starts ->
  create_sessions_loop self code prog yr blk t dur title (prog, yr, blk) starts
    (Z.of_nat (length names)) units b sid = (sid', b', r) ->
  sid <= sid' /\
  forall sessions, r = Some sessions ->
    built self sid b sessions sid' b' /\
    session_shape <$> sessions = replicate units (code, title, prog, yr, blk, t, dur).
Proof.
  intros Hrooms Hallowed. revert b sid sid' b' r.
  induction units as [|units IH]; intros b sid sid' b' r; simpl.
  - intros [= <- <- <-]. split; [lia|]. intros sessions [= <-].
    split; [apply built_nil|done].
  - destruct (create_one_session _ _ _ _ _ _ _ _ _ _ _ _ _) as [[sess b1]|] eqn:Hone.
    + destruct (create_sessions_loop _ _ _ _ _ _ _ _ _ _ _ _ _ _)
        as [[sid2 b2] r2] eqn:Hloop.
      intros [= <- <- <-].
      apply create_one_session_spec in Hone as [Hb1 Hshape]; [|done..].
      apply IH in Hloop as [Hle Hrest]. split; [lia|].
      intros sessions Hsome. destruct r2 as [rest|]; [|done].
      simpl in Hsome. injection Hsome as <-.
      destruct (Hrest rest eq_refl) as [Hb2 Hshapes].
      split.
      * by apply (built_app _ _ _ [sess] _ _ rest _ _ Hb1).
      * by rewrite fmap_cons, Hshape, Hshapes.
    + intros [= <- <- <-]. split; [lia|]. done.
Qed.

Lemma add_day_bool_grows d st dv : model_grows st.1 (add_day_bool d st dv).1.
Proof.
  destruct st as [m bools]. unfold add_day_bool. simpl.
  split; simpl; [lia|]. intros c Hc. rewrite !elem_of_app. tauto.
Qed.

Lemma add_block_day_constraints_grows self m day_vars is_lab :
  model_grows m (add_block_day_constraints self m day_vars is_lab).
Proof.
  unfold add_block_day_constraints. apply foldl_model_grows. clear m.
  intros m d.
  pose proof (foldl_model_grows_fst (add_day_bool d) day_vars (m, [])
                (add_day_bool_grows d)) as H.
  destruct (foldl (add_day_bool d) (m, []) day_vars) as [m' bools]. simpl in H.
  etrans; [exact H|apply Add_grows].
Qed.

Lemma scan_starts_allowed self key dur is_lab :
  Forall (start_allowed self key dur is_lab)
         (get_available_time_slots self key dur is_lab 1000).
Proof.
  rewrite get_available_time_slots_take by lia.
  apply Forall_take, Forall_forall. intros s Hs.
  apply elem_of_free_starts in Hs as [Hs Hfree]. by split.
Qed.

Lemma fallback_allowed self key dur is_lab :
  get_available_time_slots self key dur is_lab 1000 = [] ->
  Forall (start_allowed self key dur is_lab) (search_space self dur is_lab).
Proof.
  rewrite get_available_time_slots_take by lia. intros Hnil.
  apply Forall_forall. intros s Hs. split; [done|].
  intros Hne. destruct (free_starts self key dur is_lab); [done|]. discriminate Hnil.
Qed.

Lemma create_session_type_spec self b sid code prog yr blk t units dur title is_lab
    sid' b' r :
  is_lab = bool_decide (t = lab) ->
  create_session_type self b sid code prog yr blk t units dur title (prog, yr, blk)
    is_lab = (sid', b', r) ->
  sid <= sid' /\
  forall sessions, r = Ret (Some sessions) ->
    built self sid b sessions sid' b' /\
    session_shape <$> sessions = replicate units (code, title, prog, yr, blk, t, dur).
Proof.
  intros Hlab. unfold create_session_type.
  set (filtered := get_available_time_slots _ _ _ _ _).
  set (avail := match filtered with [] => _ | _ => _ end).
  assert (Forall (start_allowed self (prog, yr, blk) dur (bool_decide (t = lab))) avail)
    as Hallowed.
  { rewrite <- Hlab. unfold avail. destruct filtered eqn:Hf.
    - by apply fallback_allowed.
    - rewrite <- Hf. apply scan_starts_allowed. }
  destruct avail as [|a0 avail'] eqn:Havail.
  { intros [= <- <- <-]. split; [lia|done]. }
  rewrite <- Havail in *. clear Havail.
  destruct (rooms_get (rooms self) t) as [names|] eqn:Hrooms.
  2:{ intros [= <- <- <-]. split; [lia|done]. }
  destruct (create_sessions_loop _ _ _ _ _ _ _ _ _ _ _ _ _ _) as [[sid1 b1] r1] eqn:Hloop.
  apply create_sessions_loop_spec in Hloop as [Hle Hspec]; [|done..].
  destruct r1 as [sessions|].
  - intros [= <- <- <-]. split; [done|]. intros ? [= <-].
    destruct (Hspec sessions eq_refl) as [Hb Hshapes]. split; [|done].
    destruct (bool_decide (1 < _)%nat); [|done].
    eapply built_weaken; [done|]. apply with_model_grows.
    apply add_block_day_constraints_grows.
  - intros [= <- <- <-]. split; [done|]. done.
Qed.

Lemma create_block_sessions_spec self course bld sid b sid' bld' r :
  create_block_sessions self course bld sid b = (sid', bld', r) ->
  sid <= sid' /\
  forall sessions, r = Ret (Some sessions) ->
    built self sid bld sessions sid' bld' /\
    session_shape <$> sessions = block_shapes course b.
Proof.
  unfold create_block_sessions, block_shapes.
  set (lectures_of := if bool_decide (0 < unitsLecture course)%nat then _ else _).
  destruct lectures_of as [[sid1 bld1] r1] eqn:Hlec.
  assert (sid <= sid1 /\
          forall sessions, r1 = Ret (Some sessions) ->
            built self sid bld sessions sid1 bld1 /\
            session_shape <$> sessions =
            replicate (unitsLecture course)
              (courseCode course, title course, program course, yearLevel course,
               block_letter b, lecture, 2)) as [Hle1 Hspec1].
  { unfold lectures_of in Hlec. case_bool_decide as Hu.
    - by apply create_session_type_spec in Hlec.
    - injection Hlec as <- <- <-. split; [lia|]. intros ? [= <-].
      split; [apply built_nil|]. by replace (unitsLecture course) with 0%nat by lia. }
  clear Hlec lectures_of.
  destruct r1 as [[lectures|]|]; try (intros [= <- <- <-]; split; [lia|done]).
  set (labs_of := if bool_decide (0 < unitsLab course)%nat then _ else _).
  destruct labs_of as [[sid2 bld2] r2] eqn:Hlab.
  assert (sid1 <= sid2 /\
          forall sessions, r2 = Ret (Some sessions) ->
            built self sid1 bld1 sessions sid2 bld2 /\
            session_shape <$> sessions =
            replicate (unitsLab course * 2)
              (courseCode course, title course, program course, yearLevel course,
               block_letter b, lab, 3)) as [Hle2 Hspec2].
  { unfold labs_of in Hlab. case_bool_decide as Hu.
    - by apply create_session_type_spec in Hlab.
    - injection Hlab as <- <- <-. split; [lia|]. intros ? [= <-].
      split; [apply built_nil|]. by replace (unitsLab course) with 0%nat by lia. }
  clear Hlab labs_of.
  destruct r2 as [[labs|]|]; intros [= <- <- <-]; (split; [lia|]); try done.
  intros ? [= <-].
  destruct (Hspec1 _ eq_refl) as [Hb1 Hs1]. destruct (Hspec2 _ eq_refl) as [Hb2 Hs2].
  split; [by eapply built_app|]. by rewrite fmap_app, Hs1, Hs2.
Qed.

Lemma create_blocks_loop_spec self course bs bld sid sid' bld' r :
  create_blocks_loop self course bs bld sid = (sid', bld', r) ->
  sid <= sid' /\
  forall sessions, r = Ret (Some sessions) ->
    built self sid bld sessions sid' bld' /\
    session_shape <$> sessions = bs ≫= block_shapes course.
Proof.
  revert bld sid sid' bld' r.
  induction bs as [|b bs IH]; intros bld sid sid' bld' r; simpl.
  - intros [= <- <- <-]. split; [lia|]. intros ? [= <-]. split; [apply built_nil|done].
  - destruct (create_block_sessions self course bld sid b) as [[sid1 bld1] r1] eqn:Hb.
    apply create_block_sessions_spec in Hb as [Hle1 Hspec1].
    destruct r1 as [[sessions1|]|]; try (intros [= <- <- <-]; split; [lia|done]).
    destruct (create_blocks_loop self course bs bld1 sid1) as [[sid2 bld2] r2] eqn:Hrest.
    apply IH in Hrest as [Hle2 Hspec2].
    destruct r2 as [[rest|]|]; intros [= <- <- <-]; (split; [lia|]); try done.
    intros ? [= <-].
    destruct (Hspec1 _ eq_refl) as [Hb1 Hs1]. destruct (Hspec2 _ eq_refl) as [Hb2 Hs2].
    split; [by eapply built_app|]. by rewrite fmap_app, Hs1, Hs2.
Qed.

Lemma create_course_sessions_spec self course bld sid sid' bld' r :
  create_course_sessions self course bld sid = (sid', bld', r) ->
  sid <= sid' /\
  forall sessions, r = Ret (Some sessions) ->
    built self sid bld sessions sid' bld' /\
    session_shape <$> sessions = course_shapes course.
Proof. apply create_blocks_loop_spec. Qed.

(** ** States that differ in counters only *)

#[local] Instance same_setting_equiv : Equivalence same_setting.
Proof.
  split.
  - intros s. unfold same_setting. tauto.
  - intros s s'. unfold same_setting. intuition congruence.
  - intros s1 s2 s3. unfold same_setting. intuition congruence.
Qed.

Lemma same_setting_set_schedule_id v s : same_setting s (set_schedule_id v s).
Proof. unfold same_setting. simpl. tauto. Qed.

Lemma same_setting_update_progress v s : same_setting s (update_progress v s).
Proof. unfold update_progress. destruct (truthy _); [|done]. unfold same_setting. simpl. tauto. Qed.

Lemma same_setting_set_solver_answers v s : same_setting s (set_solver_answers v s).
Proof. unfold same_setting. simpl. tauto. Qed.

Lemma update_progress_schedule_id v s : schedule_id (update_progress v s) = schedule_id s.
Proof. unfold update_progress. by destruct (truthy _). Qed.

Lemma update_progress_solver_answers v s :
  solver_answers (update_progress v s) = solver_answers s.
Proof. unfold update_progress. by destruct (truthy _). Qed.

Lemma start_allowed_same_setting s s' key dur is_lab x :
  same_setting s s' -> start_allowed s key dur is_lab x -> start_allowed s' key dur is_lab x.
Proof.
  unfold same_setting, start_allowed, free_starts, search_space.
  intros (_ & _ & _ & _ & _ & _ & _ & _ & -> & -> & _ & _ & -> & _). done.
Qed.

Lemma session_modelled_same_setting s s' b sess :
  same_setting s s' -> session_modelled s b sess -> session_modelled s' b sess.
Proof.
  intros Hs (names & starts & H). exists names, starts.
  pose proof Hs as (_ & _ & Hrooms & Hdays & _ & _ & _ & Hinc & _).
  rewrite <- Hrooms, <- Hdays, <- Hinc.
  destruct H as (? & ? & ? & ? & ? & ? & Hall & ? & ? & ?). split_and!; try done.
  eapply Forall_impl; [exact Hall|]. intros x. by apply start_allowed_same_setting.
Qed.

Lemma built_same_setting s s' sid b sessions sid' b' :
  same_setting s s' -> built s sid b sessions sid' b' -> built s' sid b sessions sid' b'.
Proof.
  intros Hs [? ? ? ? ? Hmod]. split; try done.
  eapply Forall_impl; [exact Hmod|]. intros sess. by apply session_modelled_same_setting.
Qed.

Lemma build_courses_spec self n cs ce courses idx b self' b' r :
  build_courses self n cs ce courses idx b = (self', b', r) ->
  same_setting self self' /\ solver_answers self' = solver_answers self /\
  schedule_id self <= schedule_id self' /\
  forall sessions, r = Ret (Some sessions) ->
    built self (schedule_id self) b sessions (schedule_id self') b' /\
    session_shape <$> sessions = courses ≫= course_shapes.
Proof.
  revert self idx b self' b' r.
  induction courses as [|course rest IH]; intros self idx b self' b' r; simpl.
  - intros [= <- <- <-]. split_and!; [done|done|lia|]. intros ? [= <-].
    split; [apply built_nil|done].
  - destruct (create_course_sessions self course b (schedule_id self))
      as [[sid1 b1] r1] eqn:Hc.
    apply create_course_sessions_spec in Hc as [Hle1 Hspec1].
    pose proof (same_setting_set_schedule_id sid1 self) as Hs1.
    destruct r1 as [[sessions1|]|];
      try (intros [= <- <- <-]; split_and!; [done|done|simpl; lia|done]).
    destruct (PyFloat.to_int _) as [k|];
      [|intros [= <- <- <-]; split_and!; [done|done|simpl; lia|done]].
    set (self2 := update_progress _ _).
    assert (same_setting self self2) as Hs2.
    { etrans; [exact Hs1|apply same_setting_update_progress]. }
    assert (schedule_id self2 = sid1) as Hid2 by apply update_progress_schedule_id.
    assert (solver_answers self2 = solver_answers self) as Hans2
      by (unfold self2; by rewrite update_progress_solver_answers).
    destruct (build_courses self2 n cs ce rest (idx + 1) b1) as [[self3 b3] r3] eqn:Hrest.
    apply IH in Hrest as (Hs3 & Hans3 & Hle3 & Hspec3).
    assert (same_setting self self3) as Hs13 by (by etrans).
    destruct r3 as [[more|]|]; intros [= <- <- <-];
      (split_and!; [done|congruence|lia|]); try done.
    intros ? [= <-].
    destruct (Hspec1 _ eq_refl) as [Hb1 Hsh1]. destruct (Hspec3 _ eq_refl) as [Hb3 Hsh3].
    split; [|by rewrite fmap_app, Hsh1, Hsh3].
    eapply built_app; [exact Hb1|]. rewrite <- Hid2.
    eapply built_same_setting; [|exact Hb3]. done.
Qed.

(** ** Meetings per day *)

Lemma eval_py_sum_from a (vs : list Var) (e : LinExpr) :
  eval a (foldl (fun acc v => EAdd acc (EVar v)) e vs) =
  eval a e + foldr Z.add 0 (value a <$> vs).
Proof.
  revert e. induction vs as [|v vs IH]; intros e; [simpl; lia|].
  rewrite fmap_cons. cbn [foldl foldr]. rewrite IH. cbn [eval]. lia.
Qed.

Lemma eval_py_sum a (vs : list Var) :
  eval a (py_sum vs) = foldr Z.add 0 (value a <$> vs).
Proof. unfold py_sum. by rewrite eval_py_sum_from. Qed.

Lemma add_day_bools_spec d (dvs : list Var) m acc m' bools :
  foldl (add_day_bool d) (m, acc) dvs = (m', bools) ->
  model_grows m m' /\
  exists news,
    bools = acc ++ news /\
    Forall2 (fun dv b =>
               CDomain b (DomRange 0 1) ∈ constraints m' /\
               CLinear (EVar dv) CNe (EInt d) (Some (LitNeg b)) ∈ constraints m')
            dvs news.
Proof.
  revert m acc. induction dvs as [|dv dvs IH]; intros m acc; simpl.
  - intros [= <- <-]. split; [reflexivity|]. exists []. by rewrite app_nil_r.
  - intros Hrest. pose proof Hrest as Hrest'.
    apply IH in Hrest as (Hg & news & -> & Hall).
    pose proof (add_day_bool_grows d (m, acc) dv) as Hg1. simpl in Hg1.
    split; [by etrans|].
    exists (num_vars m :: news). split; [by rewrite <- app_assoc|].
    constructor; [|done].
    destruct Hg as [_ Hsub]. split; apply Hsub; simpl; rewrite !elem_of_app;
      [left; left; right; by left|right; by left].
Qed.

Lemma day_sum_counts a d (dvs bools : list Var) :
  Forall2 (fun dv b => 0 <= value a b <= 1 /\ (value a dv = d -> value a b = 1)) dvs bools ->
  Z.of_nat (length (filter (fun dv => value a dv = d) dvs))
  <= foldr Z.add 0 (value a <$> bools).
Proof.
  induction 1 as [|dv b dvs bools [Hb Hdv] Hrest IH]; [done|].
  rewrite filter_cons, fmap_cons. simpl.
  destruct (decide (value a dv = d)) as [Heq|Hne]; simpl; [|lia].
  rewrite (Hdv Heq). lia.
Qed.

Lemma day_loop_elem (dvs : list Var) (cap : Z) (ds : list Z) m d :
  d ∈ ds ->
  exists m0 m1 bools,
    foldl (add_day_bool d) (m0, []) dvs = (m1, bools) /\
    constraints (Add (CLinear (py_sum bools) CLe (EInt cap) None) m1)
    ⊆ constraints
        (foldl (fun m d =>
                  let '(m, day_bools) := foldl (add_day_bool d) (m, []) dvs in
                  Add (CLinear (py_sum day_bools) CLe (EInt cap) None) m) m ds).
Proof.
  revert m. induction ds as [|d0 ds IH]; intros m Hd; [by apply elem_of_nil in Hd|].
  simpl. apply elem_of_cons in Hd as [<-|Hd]; [|by apply IH].
  destruct (foldl (add_day_bool d) (m, []) dvs) as [m1 bools] eqn:Hinner.
  exists m, m1, bools. split; [done|].
  match goal with
  | |- _ ⊆ constraints (foldl ?f ?m0 ds) =>
      pose proof (foldl_model_grows f ds m0) as [_ Hsub]
  end; [|exact Hsub].
  intros m' d'. destruct (foldl (add_day_bool d') (m', []) dvs) as [m2 bools2] eqn:H2.
  pose proof (foldl_model_grows_fst (add_day_bool d') dvs (m', [])
                (add_day_bool_grows d')) as Hg.
  rewrite H2 in Hg. simpl in Hg. etrans; [exact Hg|apply Add_grows].
Qed.

Lemma add_block_day_constraints_count (self : Scheduler) (m : CpModel) (day_vars : list Var) (is_lab : bool)
    (a : Assignment) (d : Z) :
  Forall (holds a) (constraints (add_block_day_constraints self m day_vars is_lab)) ->
  0 <= d < Z.of_nat (length (days self)) ->
  (length (filter (fun dv => value a dv = d) day_vars) <= if is_lab then 2 else 1)%nat.
Proof.
  intros Hall Hd. rewrite Forall_forall in Hall.
  unfold add_block_day_constraints in Hall.
  destruct (day_loop_elem day_vars (if is_lab then 2 else 1)
              (py_range (Z.of_nat (length (days self)))) m d)
    as (m0 & m1 & bools & Hinner & Hsub).
  { by apply elem_of_py_range. }
  apply add_day_bools_spec in Hinner as (_ & news & -> & Hnews). simpl in Hnews.
  assert (holds a (CLinear (py_sum news) CLe (EInt (if is_lab then 2 else 1)) None)) as Hsum.
  { apply Hall, Hsub, Add_elem. }
  simpl in Hsum. specialize (Hsum I). rewrite eval_py_sum in Hsum.
  assert (Z.of_nat (length (filter (fun dv => value a dv = d) day_vars))
          <= foldr Z.add 0 (value a <$> news)) as Hcount.
  { apply day_sum_counts. eapply Forall2_impl; [exact Hnews|].
    intros dv b [Hdom Hne].
    assert (holds a (CDomain b (DomRange 0 1))) as Hdom'.
    { apply Hall, Hsub. apply elem_of_app. by left. }
    assert (holds a (CLinear (EVar dv) CNe (EInt d) (Some (LitNeg b)))) as Hne'.
    { apply Hall, Hsub. apply elem_of_app. by left. }
    simpl in Hdom', Hne'. split; [done|]. intros Heq.
    destruct (decide (value a b = 0)) as [H0|H0]; [by destruct (Hne' H0)|lia]. }
  destruct is_lab; lia.
Qed.

(** ** The cap through the builder *)

Lemma session_key_of_shape s1 s2 :
  session_shape s1 = session_shape s2 -> session_course_key s1 = session_course_key s2.
Proof. unfold session_shape, session_course_key. by intros [= -> _ -> -> -> -> _]. Qed.

Lemma days_capped_nil self b : days_capped self b [].
Proof. intros a _ key d _. simpl. lia. Qed.

Lemma days_capped_grows self b b' sessions :
  grows b b' -> days_capped self b sessions -> days_capped self b' sessions.
Proof.
  intros [[_ Hsub] _] Hcap a Hall. apply Hcap.
  rewrite Forall_forall in Hall. apply Forall_forall. intros c Hc. by apply Hall, Hsub.
Qed.

Lemma days_capped_app self b s1 s2 :
  days_capped self b s1 -> days_capped self b s2 ->
  (forall x y, x ∈ s1 -> y ∈ s2 -> session_course_key x <> session_course_key y) ->
  days_capped self b (s1 ++ s2).
Proof.
  intros H1 H2 Hdisj a Hall key d Hd. rewrite filter_app, length_app.
  specialize (H1 a Hall key d Hd). specialize (H2 a Hall key d Hd).
  destruct (filter _ s1) as [|x xs] eqn:Hx; [simpl; lia|].
  destruct (filter _ s2) as [|y ys] eqn:Hy; [simpl in *; lia|].
  assert (x ∈ filter (fun s => session_course_key s = key /\ value a (s_day s) = d) s1)
    as Hinx by (rewrite Hx; by left).
  assert (y ∈ filter (fun s => session_course_key s = key /\ value a (s_day s) = d) s2)
    as Hiny by (rewrite Hy; by left).
  apply list_elem_of_filter in Hinx as [[Hkx _] Hinx].
  apply list_elem_of_filter in Hiny as [[Hky _] Hiny].
  destruct (Hdisj x y Hinx Hiny). congruence.
Qed.

Lemma days_capped_same_setting s s' b sessions :
  same_setting s s' -> days_capped s b sessions -> days_capped s' b sessions.
Proof.
  intros (_ & _ & _ & Hdays & _) Hcap a Hall key d Hd. apply Hcap; [done|].
  by rewrite Hdays.
Qed.

Lemma filter_none {A} (P : A -> Prop) `{forall x, Decision (P x)} (l : list A) :
  (forall x, x ∈ l -> ~ P x) -> filter P l = [].
Proof.
  induction l as [|x l IH]; intros Hall; [done|].
  rewrite filter_cons, decide_False by (apply Hall; by left).
  apply IH. intros y Hy. apply Hall. by right.
Qed.

Lemma length_filter_le_fmap {A B} (P : A -> Prop) (Q : B -> Prop)
    `{forall x, Decision (P x)} `{forall y, Decision (Q y)} (g : A -> B) (l : list A) :
  (forall x, x ∈ l -> P x -> Q (g x)) ->
  (length (filter P l) <= length (filter Q (g <$> l)))%nat.
Proof.
  induction l as [|x l IH]; intros Hall; [done|].
  rewrite fmap_cons, !filter_cons.
  assert (P x -> Q (g x)) as Hx by (apply Hall; by left).
  assert (length (filter P l) <= length (filter Q (g <$> l)))%nat as Hl.
  { apply IH. intros y Hy. apply Hall. by right. }
  destruct (decide (P x)), (decide (Q (g x))); simpl; try tauto; lia.
Qed.

Lemma create_session_type_caps self b sid code prog yr blk t units dur title is_lab
    sid' b' sessions :
  is_lab = bool_decide (t = lab) ->
  create_session_type self b sid code prog yr blk t units dur title (prog, yr, blk)
    is_lab = (sid', b', Ret (Some sessions)) ->
  days_capped self b' sessions.
Proof.
  intros Hlab. unfold create_session_type.
  set (filtered := get_available_time_slots _ _ _ _ _).
  set (avail := match filtered with [] => _ | _ => _ end).
  assert (Forall (start_allowed self (prog, yr, blk) dur (bool_decide (t = lab))) avail)
    as Hallowed.
  { rewrite <- Hlab. unfold avail. destruct filtered eqn:Hf.
    - by apply fallback_allowed.
    - rewrite <- Hf. apply scan_starts_allowed. }
  destruct avail as [|a0 avail'] eqn:Havail; [done|].
  rewrite <- Havail in *. clear Havail.
  destruct (rooms_get (rooms self) t) as [names|] eqn:Hrooms; [|done].
  destruct (create_sessions_loop _ _ _ _ _ _ _ _ _ _ _ _ _ _) as [[sid1 b1] r1] eqn:Hloop.
  apply create_sessions_loop_spec in Hloop as [Hle Hspec]; [|done..].
  destruct r1 as [sessions1|]; [|done].
  intros [= <- <- <-].
  destruct (Hspec sessions1 eq_refl) as [_ Hshapes].
  assert (Forall (fun s => session_course_key s = (code, prog, yr, blk, t)) sessions1)
    as Hkeys.
  { apply Forall_forall. intros s Hs. apply (list_elem_of_fmap_2 session_shape) in Hs.
    rewrite Hshapes in Hs. apply elem_of_replicate in Hs as [Hs _].
    unfold session_shape in Hs. unfold session_course_key. by injection Hs as -> _ -> -> -> -> _. }
  rewrite Forall_forall in Hkeys.
  intros a Hall key d Hd.
  destruct (decide (key = (code, prog, yr, blk, t))) as [->|Hne].
  2:{ rewrite filter_none; [simpl; lia|].
      intros s Hs [Hk _]. rewrite (Hkeys _ Hs) in Hk. congruence. }
  simpl.
  assert (length (filter (fun s => session_course_key s = (code, prog, yr, blk, t)
                                   /\ value a (s_day s) = d) sessions1)
          <= length (filter (fun dv => value a dv = d) (s_day <$> sessions1)))%nat as Hle'.
  { apply length_filter_le_fmap. by intros s _ [_ ?]. }
  destruct (bool_decide (1 < length (s_day <$> sessions1))%nat) eqn:Hmany.
  - simpl in Hall.
    pose proof (add_block_day_constraints_count self _ _ is_lab a d Hall Hd) as Hcount.
    rewrite Hlab in Hcount. destruct t; simpl in *; lia.
  - apply bool_decide_eq_false in Hmany.
    pose proof (length_filter (fun dv => value a dv = d) (s_day <$> sessions1)).
    destruct t; simpl; lia.
Qed.

Lemma create_block_sessions_caps self course bld sid b sid' bld' sessions :
  create_block_sessions self course bld sid b = (sid', bld', Ret (Some sessions)) ->
  days_capped self bld' sessions.
Proof.
  unfold create_block_sessions.
  set (lectures_of := if bool_decide (0 < unitsLecture course)%nat then _ else _).
  destruct lectures_of as [[sid1 bld1] r1] eqn:Hlec.
  assert (forall lectures, r1 = Ret (Some lectures) ->
            days_capped self bld1 lectures /\
            Forall (fun s => s_type s = lecture) lectures) as Hspec1.
  { intros lectures ->. unfold lectures_of in Hlec. case_bool_decide as Hu.
    - split; [eapply create_session_type_caps; [reflexivity|exact Hlec]|].
      apply create_session_type_spec in Hlec as [_ Hspec]; [|reflexivity].
      destruct (Hspec _ eq_refl) as [_ Hshapes].
      apply Forall_forall. intros s Hs. apply (list_elem_of_fmap_2 session_shape) in Hs.
      rewrite Hshapes in Hs. apply elem_of_replicate in Hs as [Hs _].
      unfold session_shape in Hs. by injection Hs.
    - injection Hlec as _ <- <-. split; [apply days_capped_nil|constructor]. }
  clear Hlec lectures_of.
  destruct r1 as [[lectures|]|]; try done.
  set (labs_of := if bool_decide (0 < unitsLab course)%nat then _ else _).
  destruct labs_of as [[sid2 bld2] r2] eqn:Hlab.
  assert (forall labs, r2 = Ret (Some labs) ->
            days_capped self bld2 labs /\ grows bld1 bld2 /\
            Forall (fun s => s_type s = lab) labs) as Hspec2.
  { intros labs ->. unfold labs_of in Hlab. case_bool_decide as Hu.
    - split; [eapply create_session_type_caps; [reflexivity|exact Hlab]|].
      apply create_session_type_spec in Hlab as [_ Hspec]; [|reflexivity].
      destruct (Hspec _ eq_refl) as [Hbuilt Hshapes].
      split; [apply Hbuilt|].
      apply Forall_forall. intros s Hs. apply (list_elem_of_fmap_2 session_shape) in Hs.
      rewrite Hshapes in Hs. apply elem_of_replicate in Hs as [Hs _].
      unfold session_shape in Hs. by injection Hs.
    - injection Hlab as _ <- <-. split_and!; [apply days_capped_nil|reflexivity|constructor]. }
  clear Hlab labs_of.
  destruct r2 as [[labs|]|]; try done. intros [= <- <- <-].
  destruct (Hspec1 _ eq_refl) as [Hc1 Ht1].
  destruct (Hspec2 _ eq_refl) as (Hc2 & Hg & Ht2).
  apply days_capped_app; [by eapply days_capped_grows|done|].
  rewrite Forall_forall in Ht1, Ht2. intros x y Hx Hy Hkey.
  unfold session_course_key in Hkey. injection Hkey as _ _ _ _ Ht.
  rewrite (Ht1 _ Hx), (Ht2 _ Hy) in Ht. done.
Qed.

Lemma create_blocks_loop_caps self course bs bld sid sid' bld' sessions :
  NoDup bs ->
  create_blocks_loop self course bs bld sid = (sid', bld', Ret (Some sessions)) ->
  days_capped self bld' sessions.
Proof.
  revert bld sid sid' bld' sessions.
  induction bs as [|b bs IH]; intros bld sid sid' bld' sessions Hnd; simpl.
  - intros [= <- <- <-]. apply days_capped_nil.
  - apply NoDup_cons in Hnd as [Hb Hnd].
    destruct (create_block_sessions self course bld sid b) as [[sid1 bld1] r1] eqn:Hblock.
    destruct r1 as [[sessions1|]|]; try done.
    destruct (create_blocks_loop self course bs bld1 sid1) as [[sid2 bld2] r2] eqn:Hrest.
    destruct r2 as [[rest|]|]; try done. intros [= <- <- <-].
    pose proof (create_block_sessions_caps _ _ _ _ _ _ _ _ Hblock) as Hc1.
    pose proof (IH _ _ _ _ _ Hnd Hrest) as Hc2.
    apply create_block_sessions_spec in Hblock as [_ Hspec1].
    destruct (Hspec1 _ eq_refl) as [_ Hs1].
    apply create_blocks_loop_spec in Hrest as [_ Hspec2].
    destruct (Hspec2 _ eq_refl) as [Hbuilt2 Hs2].
    apply days_capped_app; [eapply days_capped_grows; [apply Hbuilt2|done]|done|].
    intros x y Hx Hy Hkey.
    apply (list_elem_of_fmap_2 session_shape) in Hx, Hy. rewrite Hs1 in Hx. rewrite Hs2 in Hy.
    apply list_elem_of_bind in Hy as (b' & Hy & Hb').
    unfold session_course_key in Hkey. injection Hkey as _ _ _ Hblk _.
    assert (forall sh b0, sh ∈ block_shapes course b0 -> sh.1.1.2 = block_letter b0) as Hletter.
    { intros sh b0 Hsh. unfold block_shapes in Hsh.
      apply elem_of_app in Hsh as [Hsh|Hsh]; apply elem_of_replicate in Hsh as [-> _]; done. }
    apply Hletter in Hx, Hy. unfold session_shape in Hx, Hy. simpl in Hx, Hy.
    unfold block_letter in *. assert (b = b') as -> by lia. done.
Qed.

Lemma create_course_sessions_caps self course bld sid sid' bld' sessions :
  create_course_sessions self course bld sid = (sid', bld', Ret (Some sessions)) ->
  days_capped self bld' sessions.
Proof. apply create_blocks_loop_caps, NoDup_seq. Qed.

Lemma shape_code_of_course course (sh : Shape) :
  sh ∈ course_shapes course -> sh.1.1.1.1.1.1 = courseCode course.
Proof.
  unfold course_shapes, block_shapes. intros Hsh.
  apply list_elem_of_bind in Hsh as (b & Hsh & _).
  apply elem_of_app in Hsh as [Hsh|Hsh]; apply elem_of_replicate in Hsh as [-> _]; done.
Qed.

Lemma length_filter_Forall2 {A B} (P : A -> Prop) (Q : B -> Prop)
    `{forall x, Decision (P x)} `{forall y, Decision (Q y)} (l1 : list A) (l2 : list B) :
  Forall2 (fun x y => P x <-> Q y) l1 l2 ->
  length (filter P l1) = length (filter Q l2).
Proof.
  induction 1 as [|x y l1 l2 Hxy Hrest IH]; [done|].
  rewrite !filter_cons.
  destruct (decide (P x)), (decide (Q y)); simpl; try tauto; by rewrite IH.
Qed.

Lemma build_courses_caps self n cs ce courses idx b self' b' sessions :
  NoDup (courseCode <$> courses) ->
  build_courses self n cs ce courses idx b = (self', b', Ret (Some sessions)) ->
  days_capped self b' sessions.
Proof.
  revert self idx b self' b' sessions.
  induction courses as [|course rest IH]; intros self idx b self' b' sessions Hnd; simpl.
  - intros [= <- <- <-]. apply days_capped_nil.
  - rewrite fmap_cons in Hnd. apply NoDup_cons in Hnd as [Hfresh Hnd].
    destruct (create_course_sessions self course b (schedule_id self))
      as [[sid1 b1] r1] eqn:Hc.
    destruct r1 as [[sessions1|]|]; try done.
    destruct (PyFloat.to_int _) as [k|]; [|done].
    set (self2 := update_progress _ _).
    assert (same_setting self self2) as Hs2.
    { etrans; [apply (same_setting_set_schedule_id sid1)|apply same_setting_update_progress]. }
    destruct (build_courses self2 n cs ce rest (idx + 1) b1) as [[self3 b3] r3] eqn:Hrest.
    destruct r3 as [[more|]|]; try done. intros [= <- <- <-].
    pose proof (create_course_sessions_caps _ _ _ _ _ _ _ Hc) as Hc1.
    pose proof (IH _ _ _ _ _ _ Hnd Hrest) as Hc2.
    apply create_course_sessions_spec in Hc as [_ Hspec1].
    destruct (Hspec1 _ eq_refl) as [_ Hs1].
    apply build_courses_spec in Hrest as (_ & _ & _ & Hspec3).
    destruct (Hspec3 _ eq_refl) as [Hbuilt3 Hs3].
    apply days_capped_app.
    + eapply days_capped_grows; [apply Hbuilt3|done].
    + eapply days_capped_same_setting; [symmetry; exact Hs2|done].
    + intros x y Hx Hy Hkey.
      apply (list_elem_of_fmap_2 session_shape) in Hx, Hy.
      rewrite Hs1 in Hx. rewrite Hs3 in Hy.
      apply list_elem_of_bind in Hy as (course' & Hy & Hcourse').
      apply shape_code_of_course in Hx, Hy.
      unfold session_course_key in Hkey. injection Hkey as Hcode _ _ _ _.
      unfold session_shape in Hx, Hy. simpl in Hx, Hy.
      apply Hfresh. apply list_elem_of_fmap. exists course'. split; [congruence|done].
Qed.

(** ** The finished model *)

Lemma add_no_overlaps_grows {K} (d : list (K * list IntervalVar)) m :
  model_grows m (add_no_overlaps d m).
Proof.
  unfold add_no_overlaps. apply foldl_model_grows. clear m.
  intros m [|iv ivs]; [done|apply Add_grows].
Qed.

Lemma add_no_overlaps_elem {K} (d : list (K * list IntervalVar)) m l :
  l ∈ dd_values d -> l <> [] -> CNoOverlap l ∈ constraints (add_no_overlaps d m).
Proof.
  unfold add_no_overlaps. generalize (dd_values d). clear d. intros ls Hin Hne. revert m.
  induction ls as [|l0 ls IH]; intros m; [by apply elem_of_nil in Hin|].
  simpl. apply elem_of_cons in Hin as [<-|Hin]; [|by apply IH].
  destruct l as [|iv ivs]; [done|].
  match goal with
  | |- _ ∈ constraints (foldl ?f ?m0 ls) =>
      pose proof (foldl_model_grows f ls m0) as [_ Hsub]
  end.
  { clear. intros m [|iv ivs]; [done|apply Add_grows]. }
  apply Hsub, Add_elem.
Qed.

Lemma add_room_consistency_grows m sessions :
  model_grows m (add_room_consistency m sessions).
Proof.
  unfold add_room_consistency. apply foldl_model_grows. clear m.
  intros m [|v0 [|v1 vs]]; [done..|].
  apply foldl_model_grows. intros m' v. apply Add_grows.
Qed.

Lemma add_day_span_grows self st group : model_grows st.1 (add_day_span self st group).1.
Proof.
  destruct st as [m objs]. unfold add_day_span. case_bool_decide; [|done]. simpl.
  split; simpl; [lia|]. intros c Hc. rewrite !elem_of_app. tauto.
Qed.

Lemma add_time_penalties_grows self st sess :
  model_grows st.1 (add_time_penalties self st sess).1.
Proof.
  destruct st as [m objs]. unfold add_time_penalties. simpl.
  split; simpl; [lia|]. intros c Hc. rewrite !elem_of_app. tauto.
Qed.

Lemma add_phase_objectives_grows self m sessions :
  model_grows m (add_phase_objectives self m sessions).
Proof.
  unfold add_phase_objectives.
  set (groups := dd_values _).
  pose proof (foldl_model_grows_fst (add_day_span self) groups (m, [])
                (add_day_span_grows self)) as H1.
  set (st := foldl (add_day_span self) (m, []) groups) in *.
  pose proof (foldl_model_grows_fst (add_time_penalties self) sessions st
                (add_time_penalties_grows self)) as H2.
  destruct (foldl (add_time_penalties self) st sessions) as [m' objs]. simpl in *.
  destruct objs; [by etrans|].
  etrans; [exact H1|]. etrans; [exact H2|]. apply Minimize_grows.
Qed.

Lemma finish_model_solved self b sessions optimize a :
  satisfies (finish_model self b sessions optimize) a -> solved b a.
Proof.
  intros [_ Hall]. rewrite Forall_forall in Hall.
  set (m1 := add_no_overlaps (section_intervals b) (model b)).
  set (m2 := add_no_overlaps (room_intervals b) m1).
  set (m3 := add_room_consistency m2 sessions).
  assert (model_grows m3 (finish_model self b sessions optimize)) as [_ H3].
  { unfold finish_model. fold m1 m2 m3. destruct optimize; [|done].
    apply add_phase_objectives_grows. }
  pose proof (add_room_consistency_grows m2 sessions) as [_ H2]. fold m3 in H2.
  pose proof (add_no_overlaps_grows (room_intervals b) m1) as [_ H1]. fold m2 in H1.
  pose proof (add_no_overlaps_grows (section_intervals b) (model b)) as [_ H0].
  fold m1 in H0.
  split_and!.
  - apply Forall_forall. intros c Hc. apply Hall, H3, H2, H1, H0, Hc.
  - intros k. destruct (dd_get (room_intervals b) k) as [|iv ivs] eqn:Hk; [done|].
    apply (Hall (CNoOverlap (iv :: ivs))), H3, H2.
    apply add_no_overlaps_elem; [|done]. rewrite <- Hk. apply dd_get_in_values. by rewrite Hk.
  - intros k. destruct (dd_get (section_intervals b) k) as [|iv ivs] eqn:Hk; [done|].
    apply (Hall (CNoOverlap (iv :: ivs))), H3, H2, H1.
    apply add_no_overlaps_elem; [|done]. rewrite <- Hk. apply dd_get_in_values. by rewrite Hk.
Qed.

(** ** Room consistency *)

Lemma by_course_get (sessions : list Session) d key :
  dd_get (foldl (fun d sess => dd_append d (session_course_key sess) (s_room sess))
                d sessions) key =
  dd_get d key ++ (s_room <$> filter (fun s => session_course_key s = key) sessions).
Proof.
  revert d. induction sessions as [|s sessions IH]; intros d; simpl.
  - by rewrite app_nil_r.
  - rewrite IH, dd_get_append, filter_cons.
    destruct (decide (session_course_key s = key)); [|done].
    by rewrite fmap_cons, <- app_assoc.
Qed.

Lemma room_group_grows m (room_vars : list Var) :
  model_grows m
    (match room_vars with
     | v0 :: v1 :: vs =>
         foldl (fun m v => Add (CLinear (EVar v) CEq (EVar v0) None) m) m (v1 :: vs)
     | _ => m
     end).
Proof.
  destruct room_vars as [|v0 [|v1 vs]]; [done..|].
  apply foldl_model_grows. intros m' v. apply Add_grows.
Qed.

Lemma room_group_elem m v0 (vs : list Var) v :
  v ∈ vs ->
  CLinear (EVar v) CEq (EVar v0) None
    ∈ constraints (foldl (fun m v => Add (CLinear (EVar v) CEq (EVar v0) None) m) m vs).
Proof.
  revert m. induction vs as [|v1 vs IH]; intros m Hv; [by apply elem_of_nil in Hv|].
  simpl. apply elem_of_cons in Hv as [->|Hv]; [|by apply IH].
  match goal with
  | |- _ ∈ constraints (foldl ?f ?m0 vs) =>
      pose proof (foldl_model_grows f vs m0) as [_ Hsub]
  end.
  { intros m' v'. apply Add_grows. }
  apply Hsub, Add_elem.
Qed.

Lemma room_groups_agree a m (groups : list (list Var)) group :
  Forall (holds a)
    (constraints
       (foldl (fun m room_vars =>
                 match room_vars with
                 | v0 :: v1 :: vs =>
                     foldl (fun m v => Add (CLinear (EVar v) CEq (EVar v0) None) m) m
                           (v1 :: vs)
                 | _ => m
                 end) m groups)) ->
  group ∈ groups ->
  forall v1 v2, v1 ∈ group -> v2 ∈ group -> value a v1 = value a v2.
Proof.
  intros Hall Hin. rewrite Forall_forall in Hall.
  assert (forall v0 v1 vs v, group = v0 :: v1 :: vs -> v ∈ v1 :: vs ->
                             value a v = value a v0) as Hhead.
  { intros v0 v1 vs v -> Hv.
    assert (holds a (CLinear (EVar v) CEq (EVar v0) None)) as Hc; [|by apply Hc].
    apply Hall. clear Hall. revert m.
    induction groups as [|g groups IH]; intros m; [by apply elem_of_nil in Hin|].
    simpl. apply elem_of_cons in Hin as [<-|Hin]; [|by apply IH].
    match goal with
    | |- _ ∈ constraints (foldl ?f ?m0 groups) =>
        pose proof (foldl_model_grows f groups m0) as [_ Hsub]
    end.
    { intros m' g. apply room_group_grows. }
    apply Hsub. exact (room_group_elem m v0 (v1 :: vs) v Hv). }
  intros v1 v2 H1 H2.
  destruct group as [|v0 [|v1' vs]]; [by apply elem_of_nil in H1|..].
  - apply list_elem_of_singleton in H1, H2. congruence.
  - assert (forall v, v ∈ v0 :: v1' :: vs -> value a v = value a v0) as Hv0.
    { intros v Hv. apply elem_of_cons in Hv as [->|Hv]; [done|].
      by eapply Hhead. }
    by rewrite (Hv0 v1), (Hv0 v2).
Qed.

Lemma add_room_consistency_agree a m sessions :
  Forall (holds a) (constraints (add_room_consistency m sessions)) ->
  rooms_agree a sessions.
Proof.
  intros Hall s1 s2 H1 H2 Hkey.
  set (by_course :=
         foldl (fun d sess => dd_append d (session_course_key sess) (s_room sess))
               [] sessions).
  assert (forall s, s ∈ sessions -> s_room s ∈ dd_get by_course (session_course_key s))
    as Hget.
  { intros s Hs. unfold by_course. rewrite by_course_get. simpl.
    apply (list_elem_of_fmap_2 s_room). by apply list_elem_of_filter. }
  eapply (room_groups_agree a m (dd_values by_course)
            (dd_get by_course (session_course_key s1))).
  - exact Hall.
  - apply dd_get_in_values. intros Hnil. specialize (Hget _ H1). rewrite Hnil in Hget.
    by apply elem_of_nil in Hget.
  - by apply Hget.
  - rewrite Hkey. by apply Hget.
Qed.

Lemma finish_model_rooms_agree self b sessions optimize a :
  satisfies (finish_model self b sessions optimize) a -> rooms_agree a sessions.
Proof.
  intros [_ Hall]. rewrite Forall_forall in Hall.
  eapply (add_room_consistency_agree a
            (add_no_overlaps (room_intervals b)
               (add_no_overlaps (section_intervals b) (model b)))).
  apply Forall_forall. intros c Hc. apply Hall.
  unfold finish_model. destruct optimize; [|done].
  by apply add_phase_objectives_grows.
Qed.

(** ** What a solution says about the sessions *)

Lemma apart_sym a i j : apart a i j -> apart a j i.
Proof. unfold apart. tauto. Qed.

Lemma no_overlap_elem a ivs i j :
  no_overlap a ivs -> i ∈ ivs -> j ∈ ivs -> i <> j -> apart a i j.
Proof.
  induction ivs as [|iv ivs IH]; simpl; [by intros _ Hi; apply elem_of_nil in Hi|].
  intros [Hhead Hrest] Hi Hj Hne. rewrite Forall_forall in Hhead.
  apply elem_of_cons in Hi as [->|Hi]; apply elem_of_cons in Hj as [->|Hj].
  - done.
  - by apply Hhead.
  - by apply apart_sym, Hhead.
  - by apply IH.
Qed.

Lemma solved_holds b a c : solved b a -> c ∈ constraints (model b) -> holds a c.
Proof. intros (Hall & _) Hc. rewrite Forall_forall in Hall. by apply Hall. Qed.

Lemma session_end_value self b a sess :
  solved b a -> session_modelled self b sess ->
  value a (s_end sess) = value a (s_start sess) + s_duration sess.
Proof.
  intros Hs (names & starts & _ & Hend & _).
  apply (solved_holds _ _ _ Hs) in Hend. simpl in Hend. by apply Hend.
Qed.

Lemma session_room_interval self b a sess :
  solved b a -> session_modelled self b sess ->
  exists names lit,
    rooms_get (rooms self) (s_type sess) = Some names /\
    0 <= value a (s_room sess) < Z.of_nat (length names) /\
    lit_holds a (LitPos lit) /\
    session_interval sess (Some (LitPos lit))
      ∈ dd_get (room_intervals b) (s_type sess, value a (s_room sess)).
Proof.
  intros Hs (names & starts & Hrooms & _ & Hroom & Hlits & _).
  apply (solved_holds _ _ _ Hs) in Hroom. simpl in Hroom.
  destruct (Hlits (value a (s_room sess))) as (lit & Hdom & Hne & Hiv); [lia|].
  apply (solved_holds _ _ _ Hs) in Hdom, Hne. simpl in Hdom, Hne.
  exists names, lit. split_and!; try done; try lia.
  simpl. destruct (decide (value a lit = 0)) as [H0|H0]; [|lia].
  by destruct (Hne H0).
Qed.

Lemma sessions_room_apart self b a s1 s2 :
  solved b a -> session_modelled self b s1 -> session_modelled self b s2 ->
  s_start s1 <> s_start s2 -> s_type s1 = s_type s2 ->
  value a (s_room s1) = value a (s_room s2) ->
  value a (s_start s1) + s_duration s1 <= value a (s_start s2) \/
  value a (s_start s2) + s_duration s2 <= value a (s_start s1).
Proof.
  intros Hs H1 H2 Hne Htype Hroom.
  destruct (session_room_interval _ _ _ _ Hs H1) as (n1 & l1 & _ & _ & Hl1 & Hi1).
  destruct (session_room_interval _ _ _ _ Hs H2) as (n2 & l2 & _ & _ & Hl2 & Hi2).
  rewrite Htype, Hroom in Hi1.
  pose proof Hs as (_ & Hno & _).
  pose proof (no_overlap_elem _ _ _ _ (Hno _) Hi1 Hi2) as Hapart.
  rewrite <- (session_end_value _ _ _ _ Hs H1), <- (session_end_value _ _ _ _ Hs H2).
  apply Hapart; [|done..]. unfold session_interval. congruence.
Qed.

Lemma session_prior_apart self b a sess event :
  solved b a -> session_modelled self b sess ->
  fixed_interval event ∈ dd_get (room_intervals b) (event_room_key event) ->
  s_type sess = e_room_type event -> value a (s_room sess) = e_room_idx event ->
  e_start_slot event + e_duration event <= value a (s_start sess) \/
  value a (s_start sess) + s_duration sess <= e_start_slot event.
Proof.
  intros Hs H1 Hfix Htype Hroom.
  destruct (session_room_interval _ _ _ _ Hs H1) as (n1 & l1 & _ & _ & Hl1 & Hi1).
  rewrite Htype, Hroom in Hi1.
  pose proof Hs as (_ & Hno & _).
  pose proof (no_overlap_elem _ _ _ _ (Hno _) Hfix Hi1) as Hapart.
  rewrite <- (session_end_value _ _ _ _ Hs H1).
  apply Hapart; done.
Qed.

Lemma sessions_section_apart self b a s1 s2 :
  solved b a -> session_modelled self b s1 -> session_modelled self b s2 ->
  s_start s1 <> s_start s2 -> session_section_key s1 = session_section_key s2 ->
  value a (s_start s1) + s_duration s1 <= value a (s_start s2) \/
  value a (s_start s2) + s_duration s2 <= value a (s_start s1).
Proof.
  intros Hs H1 H2 Hne Hkey.
  pose proof H1 as (_ & _ & _ & _ & _ & _ & Hi1 & _).
  pose proof H2 as (_ & _ & _ & _ & _ & _ & Hi2 & _).
  rewrite Hkey in Hi1.
  pose proof Hs as (_ & _ & Hno).
  pose proof (no_overlap_elem _ _ _ _ (Hno _) Hi1 Hi2) as Hapart.
  rewrite <- (session_end_value _ _ _ _ Hs H1), <- (session_end_value _ _ _ _ Hs H2).
  apply Hapart; [|done..]. unfold session_interval. congruence.
Qed.

Lemma session_start_value self b a sess :
  solved b a -> session_modelled self b sess ->
  start_allowed self (session_section_key sess) (s_duration sess)
    (bool_decide (s_type sess = lab)) (value a (s_start sess)).
Proof.
  intros Hs (names & starts & _ & _ & _ & _ & _ & Hdom & Hall & _).
  apply (solved_holds _ _ _ Hs) in Hdom. simpl in Hdom.
  rewrite Forall_forall in Hall. by apply Hall.
Qed.

Lemma session_day_value self b a sess :
  solved b a -> session_modelled self b sess ->
  0 <= value a (s_day sess) < Z.of_nat (length (days self)) /\
  value a (s_day sess) * inc_day self <= value a (s_start sess)
    < (value a (s_day sess) + 1) * inc_day self.
Proof.
  intros Hs (names & starts & _ & _ & _ & _ & _ & _ & _ & Hday & Hge & Hlt).
  apply (solved_holds _ _ _ Hs) in Hday, Hge, Hlt. simpl in Hday, Hge, Hlt.
  specialize (Hge I). specialize (Hlt I). lia.
Qed.

(** ** Extraction *)

Lemma exc_bind_Ret {A B} (m : Exc A) (k : A -> Exc B) y :
  exc_bind m k = Ret y -> exists x, m = Ret x /\ k x = Ret y.
Proof. destruct m as [x|]; simpl; [|done]. intros H. by exists x. Qed.

Lemma exc_map_Forall2 {A B} (f : A -> Exc B) l r :
  exc_map f l = Ret r -> Forall2 (fun x y => f x = Ret y) l r.
Proof.
  revert r. induction l as [|x l IH]; intros r; simpl.
  - intros [= <-]. constructor.
  - intros H. apply exc_bind_Ret in H as (y & Hy & H).
    apply exc_bind_Ret in H as (ys & Hys & [= <-]).
    constructor; [done|by apply IH].
Qed.

Lemma extract_session_fields self a sess ev :
  extract_session self a sess = Ret ev ->
  e_schedule_id ev = s_id sess /\
  event_shape ev = session_shape sess /\
  e_start_slot ev = value a (s_start sess) /\
  e_duration ev = s_duration sess /\
  e_room_type ev = s_type sess /\
  e_room_idx ev = value a (s_room sess) /\
  event_section_key ev = session_section_key sess /\
  e_session ev = session_word (s_type sess) /\
  py_index (days self) (value a (s_day sess)) = Ret (e_day ev) /\
  e_courseCode ev = display_code (courses_with_both self) (s_code sess) (s_type sess) /\
  (exists names,
     rooms_get (rooms self) (s_type sess) = Some names /\
     py_index names (value a (s_room sess)) = Ret (e_room ev)) /\
  period_formatted self ev.
Proof.
  unfold extract_session. case_bool_decide as Hinc; [done|].
  intros H.
  apply exc_bind_Ret in H as (t1 & Ht1 & H).
  apply exc_bind_Ret in H as (t2 & Ht2 & H).
  apply exc_bind_Ret in H as (day & Hday & H).
  apply exc_bind_Ret in H as (names & Hnames & H).
  apply exc_bind_Ret in H as (room & Hroom & [= <-]).
  simpl. split_and!; try done.
  - exists names. split; [|done].
    by destruct (rooms_get (rooms self) (s_type sess)); simplify_eq/=.
  - by exists t1, t2.
Qed.

(** ** The ledger *)

Lemma commit_event_catalog self event : same_catalog self (commit_event self event).
Proof. unfold same_catalog, commit_event. simpl. tauto. Qed.

#[local] Instance same_catalog_equiv : Equivalence same_catalog.
Proof.
  split.
  - intros s. unfold same_catalog. tauto.
  - intros s s'. unfold same_catalog. intuition congruence.
  - intros s1 s2 s3. unfold same_catalog. intuition congruence.
Qed.

Lemma same_setting_catalog s s' : same_setting s s' -> same_catalog s s'.
Proof. unfold same_setting, same_catalog. tauto. Qed.

Lemma section_slots_commit self event k t :
  t ∈ section_slots (commit_event self event) k <->
  t ∈ section_slots self k \/
  (k = event_section_key event /\
   e_start_slot event <= t < e_start_slot event + e_duration event).
Proof.
  unfold section_slots, commit_event. simpl.
  destruct (decide (event_section_key event = k)) as [<-|Hne].
  - rewrite lookup_insert_eq. simpl. rewrite elem_of_union, elem_of_slots_needed.
    tauto.
  - rewrite lookup_insert_ne by done. split; [by left|].
    intros [?|[-> _]]; done.
Qed.

Lemma update_occupancy_spec schedule self :
  let self' := update_occupancy_from_schedule schedule self in
  same_catalog self self' /\
  global_schedule self' = global_schedule self /\
  schedule_id self' = schedule_id self /\
  progress_state self' = progress_state self /\
  solver_answers self' = solver_answers self /\
  (forall k t, t ∈ section_slots self' k <->
     t ∈ section_slots self k \/
     exists e, e ∈ schedule /\ k = event_section_key e /\
               e_start_slot e <= t < e_start_slot e + e_duration e).
Proof.
  unfold update_occupancy_from_schedule. revert self.
  induction schedule as [|e schedule IH]; intros self; simpl.
  - split_and!; try done. intros k t. split; [by left|].
    intros [?|(e & He & _)]; [done|]. by apply elem_of_nil in He.
  - destruct (IH (commit_event self e)) as (Hc & Hg & Hid & Hp & Ha & Hl).
    split; [etrans; [apply commit_event_catalog|done]|].
    split_and!; try done.
    intros k t. rewrite Hl, section_slots_commit. split.
    + intros [[?|[-> ?]]|(e' & He' & ?)]; [by left| |].
      * right. exists e. split; [by left|done].
      * right. exists e'. split; [by right|done].
    + intros [?|(e' & He' & -> & ?)]; [by left; left|].
      apply elem_of_cons in He' as [->|He']; [by left; right|].
      right. by exists e'.
Qed.

(** ** One attempt at a phase *)

Lemma increasing_lookup_ne (l : list nat) i j x y :
  StronglySorted lt l -> i <> j -> l !! i = Some x -> l !! j = Some y -> x <> y.
Proof.
  intros Hs. revert i j. induction Hs as [|z l Hs IH Hz]; intros i j Hij Hi Hj; [done|].
  rewrite Forall_forall in Hz.
  destruct i as [|i], j as [|j]; simpl in *; try done.
  - injection Hi as ->. apply list_elem_of_lookup_2 in Hj. specialize (Hz _ Hj). lia.
  - injection Hj as ->. apply list_elem_of_lookup_2 in Hi. specialize (Hz _ Hi). lia.
  - eapply IH; [|done..]. lia.
Qed.

Lemma pop_answer_spec self answer self' :
  pop_answer self = (answer, self') ->
  same_setting self self' /\ schedule_id self' = schedule_id self.
Proof.
  unfold pop_answer. destruct (solver_answers self) as [|ans rest]; intros [= <- <-].
  - done.
  - split; [apply same_setting_set_solver_answers|done].
Qed.

Lemma configure_solver_setting timeout self :
  same_setting self (configure_solver timeout self) /\
  schedule_id (configure_solver timeout self) = schedule_id self /\
  solver_answers (configure_solver timeout self) = solver_answers self /\
  progress_state (configure_solver timeout self) = progress_state self /\
  process_id (configure_solver timeout self) = process_id self.
Proof. unfold same_setting. simpl. tauto. Qed.

Lemma configured_pop_spec timeout self answer self' :
  pop_answer (configure_solver timeout self) = (answer, self') ->
  same_setting self self' /\ schedule_id self' = schedule_id self.
Proof.
  intros H. apply pop_answer_spec in H as [Hs Hid].
  destruct (configure_solver_setting timeout self) as (Hs0 & Hid0 & _).
  split; [by etrans|congruence].
Qed.

Lemma Solve_satisfies m answer a : Solve m answer = Some a -> satisfies m a.
Proof.
  unfold Solve. destruct answer as [a'|]; [|done].
  destruct (decide (satisfies m a')); [|done]. by intros [= <-].
Qed.

Lemma extracted_phase self (self2 : Scheduler) courses b0 b1 sid1 sessions a sched :
  b0 = foldl (add_prior_interval self) empty_build (global_schedule self) ->
  same_setting self self2 -> schedule_id self2 = sid1 ->
  built self (schedule_id self) b0 sessions sid1 b1 ->
  session_shape <$> sessions = courses ≫= course_shapes ->
  solved b1 a -> rooms_agree a sessions ->
  (NoDup (courseCode <$> courses) -> days_capped self b1 sessions) ->
  extract_phase_solution self2 a sessions = Ret sched ->
  phase_result self courses sched (update_occupancy_from_schedule sched self2).
Proof.
  intros Hb0 Hset Hid [Hg Hids Hsid Hvars Hinc Hmod] Hshapes Hsolved Hagree Hcapped Hext.
  apply exc_map_Forall2 in Hext.
  assert (Forall2 (fun sess ev => extract_session self2 a sess = Ret ev
                                  /\ session_modelled self b1 sess) sessions sched) as Hboth.
  { clear -Hext Hmod. induction Hext as [|s e ss es He Hrest IH]; [constructor|].
    apply Forall_cons in Hmod as [Hs Hmod]. constructor; [done|by apply IH]. }
  pose proof (Forall2_length _ _ _ Hext) as Hlen.
  destruct (update_occupancy_spec sched self2) as (Hcat & Hglob & Hsid2 & _ & _ & Hledger).
  pose proof Hset as (_ & _ & Hrooms & Hdays & _ & _ & _ & Hincday & _ & _ & Hgs & _ & Hocc & _).
  assert (forall k, section_slots self2 k = section_slots self k) as Hslots.
  { intros k. unfold section_slots. by rewrite Hocc. }
  split.
  - etrans; [apply same_setting_catalog, Hset|done].
  - by rewrite Hglob.
  - rewrite <- Hshapes. clear -Hext.
    induction Hext as [|s e ss es He Hrest IH]; [done|].
    rewrite !fmap_cons, IH. f_equal. by apply extract_session_fields in He as (_ & -> & _).
  - exists (schedule_id self). split; [lia|]. rewrite <- Hlen, Hsid2, Hid, Hsid.
    split; [|done]. rewrite <- Hids. clear -Hext.
    induction Hext as [|s e ss es He Hrest IH]; [done|].
    rewrite !fmap_cons, IH. f_equal. by apply extract_session_fields in He as (-> & _).
  - apply Forall_forall. intros e He.
    apply list_elem_of_lookup in He as [i He].
    destruct (Forall2_lookup_r _ _ _ _ _ Hboth He) as (s & Hs & Hx & Hm).
    destruct (extract_session_fields _ _ _ _ Hx)
      as (_ & _ & _ & _ & Ht & Hr & _ & _ & _ & _ & (names' & Hn' & Hroom) & _).
    destruct (session_room_interval _ _ _ _ Hsolved Hm) as (names & lit & Hn & ? & _).
    rewrite Ht, Hr. exists names. split; [done|]. split; [done|].
    rewrite <- Hrooms, Hn in Hn'. by injection Hn' as <-.
  - apply Forall_forall. intros e He.
    apply list_elem_of_lookup in He as [i He].
    destruct (Forall2_lookup_r _ _ _ _ _ Hboth He) as (s & Hs & Hx & Hm).
    destruct (extract_session_fields _ _ _ _ Hx)
      as (_ & _ & _ & _ & _ & _ & _ & _ & _ & _ & _ & Hperiod).
    pose proof Hset as (_ & _ & _ & _ & Hst & _ & Hih & Hid' & _).
    unfold period_formatted, event_hours in *. by rewrite Hst, Hih, Hid'.
  - apply Forall_forall. intros e He.
    apply list_elem_of_lookup in He as [i He].
    destruct (Forall2_lookup_r _ _ _ _ _ Hboth He) as (s & Hs & Hx & Hm).
    destruct (extract_session_fields _ _ _ _ Hx)
      as (_ & Hsh & _ & _ & Ht & _ & _ & _ & _ & Hcode & _).
    pose proof Hset as (_ & _ & _ & _ & _ & _ & _ & _ & _ & _ & _ & _ & _ & Hcb).
    rewrite Hcode, Ht, Hcb. f_equal.
    unfold event_shape, session_shape in Hsh. by simplify_eq.
  - intros i j e1 e2 Hij H1 H2 Hkey.
    destruct (Forall2_lookup_r _ _ _ _ _ Hboth H1) as (s1 & Hs1 & Hx1 & Hm1).
    destruct (Forall2_lookup_r _ _ _ _ _ Hboth H2) as (s2 & Hs2 & Hx2 & Hm2).
    apply extract_session_fields in Hx1 as (_ & Hsh1 & _ & _ & Ht1 & Hr1 & _).
    apply extract_session_fields in Hx2 as (_ & Hsh2 & _ & _ & Ht2 & Hr2 & _).
    rewrite Hr1, Hr2. apply Hagree.
    + by eapply list_elem_of_lookup_2.
    + by eapply list_elem_of_lookup_2.
    + unfold event_course_key in Hkey. unfold event_shape, session_shape in Hsh1, Hsh2.
      unfold session_course_key. simplify_eq. congruence.
  - intros Hnd key d Hd.
    pose proof (Hcapped Hnd a (proj1 Hsolved) key d Hd) as Hcount.
    erewrite <- length_filter_Forall2; [exact Hcount|].
    eapply Forall2_impl; [exact Hboth|]. intros s e [Hx Hm]. simpl.
    destruct (extract_session_fields _ _ _ _ Hx) as (_ & Hsh & Hst & _).
    destruct (session_day_value _ _ _ _ Hsolved Hm) as [Hrange Hday].
    assert (event_course_key e = session_course_key s) as ->.
    { unfold event_course_key, session_course_key.
      unfold event_shape, session_shape in Hsh. by injection Hsh as -> _ -> -> -> -> _. }
    assert (e_start_slot e `div` inc_day self = value a (s_day s)) as ->; [|done].
    rewrite Hst. symmetry.
    apply (Z.div_unique_pos _ _ _ (value a (s_start s) - value a (s_day s) * inc_day self));
      lia.
  - intros i j e1 e2 Hij H1 H2 Hkey.
    destruct (Forall2_lookup_r _ _ _ _ _ Hboth H1) as (s1 & Hs1 & Hx1 & Hm1).
    destruct (Forall2_lookup_r _ _ _ _ _ Hboth H2) as (s2 & Hs2 & Hx2 & Hm2).
    apply extract_session_fields in Hx1 as (_ & _ & Hst1 & Hd1 & Ht1 & Hr1 & _).
    apply extract_session_fields in Hx2 as (_ & _ & Hst2 & Hd2 & Ht2 & Hr2 & _).
    unfold event_room_key in Hkey. injection Hkey as Hkt Hkr.
    unfold slots_apart. rewrite Hst1, Hd1, Hst2, Hd2.
    eapply sessions_room_apart; try done; [|congruence|congruence].
    eapply (increasing_lookup_ne _ i j); [exact Hinc|done|..];
      by rewrite list_lookup_fmap, ?Hs1, ?Hs2.
  - intros pe e Hpe Hsome He Hkey.
    apply list_elem_of_lookup in He as [i He].
    destruct (Forall2_lookup_r _ _ _ _ _ Hboth He) as (s & Hs & Hx & Hm).
    apply extract_session_fields in Hx as (_ & _ & Hst & Hd & Ht & Hr & _).
    unfold event_room_key in Hkey. injection Hkey as Hkt Hkr.
    unfold slots_apart. rewrite Hst, Hd.
    eapply session_prior_apart; try done; [|congruence|congruence].
    eapply grows_room_bucket; [exact Hg|]. rewrite Hb0. by apply prior_loop_elem.
  - intros i j e1 e2 Hij H1 H2 Hkey.
    destruct (Forall2_lookup_r _ _ _ _ _ Hboth H1) as (s1 & Hs1 & Hx1 & Hm1).
    destruct (Forall2_lookup_r _ _ _ _ _ Hboth H2) as (s2 & Hs2 & Hx2 & Hm2).
    apply extract_session_fields in Hx1 as (_ & _ & Hst1 & Hd1 & _ & _ & Hk1 & _).
    apply extract_session_fields in Hx2 as (_ & _ & Hst2 & Hd2 & _ & _ & Hk2 & _).
    unfold slots_apart. rewrite Hst1, Hd1, Hst2, Hd2.
    eapply sessions_section_apart; try done; [|congruence].
    eapply (increasing_lookup_ne _ i j); [exact Hinc|done|..];
      by rewrite list_lookup_fmap, ?Hs1, ?Hs2.
  - apply Forall_forall. intros e He.
    apply list_elem_of_lookup in He as [i He].
    destruct (Forall2_lookup_r _ _ _ _ _ Hboth He) as (s & Hs & Hx & Hm).
    apply extract_session_fields in Hx as (_ & _ & -> & -> & -> & _ & -> & _).
    by eapply session_start_value.
  - intros k t Ht. apply Hledger. left. by rewrite Hslots.
  - intros e t He Ht. apply Hledger. right. by exists e.
  - apply Forall_forall. intros e He.
    apply list_elem_of_lookup in He as [i He].
    destruct (Forall2_lookup_r _ _ _ _ _ Hboth He) as (s & Hs & Hx & Hm).
    by apply extract_session_fields in Hx as (_ & _ & _ & _ & -> & _ & _ & -> & _).
  - apply Forall_forall. intros e He.
    apply list_elem_of_lookup in He as [i He].
    destruct (Forall2_lookup_r _ _ _ _ _ Hboth He) as (s & Hs & Hx & Hm).
    apply extract_session_fields in Hx as (_ & _ & -> & _ & _ & _ & _ & _ & Hday & _).
    destruct (session_day_value _ _ _ _ Hsolved Hm) as [? ?].
    exists (value a (s_day s)). rewrite <- Hdays in Hday. done.
Qed.

Lemma solve_phase_attempt_spec self courses phase_num total_phases timeout optimize
    self' r :
  solve_phase_attempt self courses phase_num total_phases timeout optimize = (self', r) ->
  schedule_id self <= schedule_id self' /\
  match r with
  | Ret (Some sched) => phase_result self courses sched self'
  | Ret None => same_setting self self'
  | Raise => True
  end.
Proof.
  unfold solve_phase_attempt.
  set (b0 := foldl (add_prior_interval self) empty_build (global_schedule self)).
  case_bool_decide as HP; [intros [= <- <-]; split; [lia|done]|].
  destruct (build_courses _ _ _ _ _ _ _) as [[self1 b1] r1] eqn:Hbuild.
  pose proof Hbuild as Hbuild'.
  apply build_courses_spec in Hbuild as (Hs1 & Hans1 & Hle1 & Hspec1).
  destruct r1 as [[sessions|]|]; try (intros [= <- <-]; split; [lia|done]).
  destruct (Hspec1 _ eq_refl) as [Hbuilt Hshapes].
  destruct (pop_answer (configure_solver timeout self1)) as [answer self2] eqn:Hpop.
  apply configured_pop_spec in Hpop as [Hs2 Hid2].
  assert (same_setting self self2) as Hs12 by (by etrans).
  destruct (Solve _ answer) as [a|] eqn:Hsolve;
    [|intros [= <- <-]; split; [lia|done]].
  apply Solve_satisfies in Hsolve.
  pose proof (finish_model_rooms_agree _ _ _ _ _ Hsolve) as Hagree.
  apply finish_model_solved in Hsolve.
  destruct (extract_phase_solution self2 a sessions) as [sched|] eqn:Hext;
    intros [= <- <-].
  - destruct (update_occupancy_spec sched self2) as (_ & _ & Hid3 & _).
    split; [simpl in Hid3; lia|].
    eapply extracted_phase; try done.
    intros Hnd. by eapply (build_courses_caps _ _ _ _ _ _ _ _ _ _ Hnd Hbuild').
  - split; [lia|done].
Qed.

(** ** A phase, with its retry *)

Lemma phase_result_empty self : phase_result self [] [] self.
Proof.
  split.
  - done.
  - done.
  - done.
  - exists (schedule_id self). simpl. split_and!; [lia|done|lia].
  - constructor.
  - constructor.
  - constructor.
  - intros i j e1 e2 _ Hi. by rewrite lookup_nil in Hi.
  - intros _ key d _. simpl. lia.
  - intros i j e1 e2 _ Hi. by rewrite lookup_nil in Hi.
  - intros pe e _ _ He. by apply elem_of_nil in He.
  - intros i j e1 e2 _ Hi. by rewrite lookup_nil in Hi.
  - constructor.
  - done.
  - intros e t He. by apply elem_of_nil in He.
  - constructor.
  - constructor.
Qed.

Lemma phase_result_same_setting self0 self courses sched self' :
  same_setting self0 self -> schedule_id self0 <= schedule_id self ->
  phase_result self courses sched self' -> phase_result self0 courses sched self'.
Proof.
  intros Hs Hle [Hcat Hglob Hshapes Hids Hrooms Hperiods Hcodes Hrc Hcaps Hrx Hprior Hsx
                   Hstarts Hmono Hcov Hwords Hdays].
  pose proof Hs as (_ & _ & Hr & Hd & Hst & _ & Hih & Hinc & _ & _ & Hgs & _ & Hocc & Hcb).
  assert (forall k, section_slots self k = section_slots self0 k) as Hslots.
  { intros k. unfold section_slots. by rewrite Hocc. }
  split; try done.
  - etrans; [apply same_setting_catalog, Hs|done].
  - by rewrite Hglob.
  - destruct Hids as (sid0 & ? & ? & ?). exists sid0. split_and!; [lia|done..].
  - by rewrite Hr.
  - unfold period_formatted, event_hours in *. by rewrite Hst, Hih, Hinc.
  - by rewrite Hcb.
  - by rewrite Hinc, Hd.
  - rewrite Hr, Hgs. done.
  - eapply Forall_impl; [exact Hstarts|]. intros e.
    apply start_allowed_same_setting. by symmetry.
  - intros k t. rewrite <- Hslots. apply Hmono.
  - by rewrite Hd, Hinc.
Qed.

Lemma solve_phase_spec self courses phase_num total_phases self' r :
  solve_phase self courses phase_num total_phases = (self', r) ->
  schedule_id self <= schedule_id self' /\
  match r with
  | Ret (Some sched) => phase_result self courses sched self'
  | Ret None => same_setting self self'
  | Raise => True
  end.
Proof.
  unfold solve_phase. destruct courses as [|c courses'] eqn:Hcs.
  { intros [= <- <-]. split; [lia|apply phase_result_empty]. }
  rewrite <- Hcs. clear Hcs.
  destruct (get_phase_timeout _ _ _) as [timeout|]; [|intros [= <- <-]; split; [lia|done]].
  destruct (solve_phase_attempt self courses phase_num total_phases timeout false)
    as [self1 r1] eqn:H1.
  apply solve_phase_attempt_spec in H1 as [Hle1 Hr1].
  destruct r1 as [[sched|]|]; try (intros [= <- <-]; split; [lia|done]).
  destruct (retry_timeout timeout) as [timeout2|];
    [|intros [= <- <-]; split; [lia|done]].
  intros H2. apply solve_phase_attempt_spec in H2 as [Hle2 Hr2].
  split; [lia|]. destruct r as [[sched|]|]; [|by etrans|done].
  by eapply phase_result_same_setting.
Qed.

(** ** The phases of a run *)

Lemma solve_phases_trace self groups phase_num total_phases combined self' final :
  solve_phases self groups phase_num total_phases combined = (self', Ret (Some final)) ->
  global_schedule self = combined ->
  exists scheds,
    final = combined ++ concat scheds /\ phases_run self groups scheds self'.
Proof.
  revert self phase_num combined.
  induction groups as [|courses groups IH]; intros self phase_num combined; simpl.
  - intros [= <- <-] _. exists []. split; [by rewrite app_nil_r|constructor].
  - destruct (solve_phase self courses phase_num total_phases) as [self1 r1] eqn:H1.
    apply solve_phase_spec in H1 as [Hle1 Hr1].
    destruct r1 as [[sched|]|]; try done.
    intros Hrest Hglob. apply IH in Hrest as (scheds & -> & Hrun); [|done].
    exists (sched :: scheds). split; [by rewrite <- app_assoc|].
    econstructor; [exact Hr1|]. by rewrite Hglob.
Qed.

(** ** From the entry point to the phases *)

Lemma load_data_Ret cat self self' u :
  load_data cat self = (self', Ret u) ->
  exists courses rs ts ds,
    load_courses cat = Ret courses /\ load_rooms cat = Ret rs /\
    load_time_settings cat = Ret ts /\ load_days cat = Ret ds /\
    self' =
    update_progress 50
      (setup_time_parameters ts
         (update_progress 45
            (set_days ds
               (update_progress 35
                  (update_progress 25
                     (set_rooms rs
                        (update_progress 15
                           (set_courses courses (update_progress 5 self))))))))).
Proof.
  unfold load_data.
  destruct (load_courses cat) as [courses|]; [|done].
  destruct (load_rooms cat) as [rs|]; [|done].
  destruct (load_time_settings cat) as [ts|]; [|done].
  destruct (load_days cat) as [ds|]; [|done].
  intros [= <- _]. by exists courses, rs, ts, ds.
Qed.

Lemma loaded_init pid answers courses rs ts ds :
  loaded courses rs ts ds
    (update_progress 52
       (update_progress 50
          (setup_time_parameters ts
             (update_progress 45
                (set_days ds
                   (update_progress 35
                      (update_progress 25
                         (set_rooms rs
                            (update_progress 15
                               (set_courses courses
                                  (update_progress 5 (init_scheduler pid answers)))))))))))).
Proof.
  destruct (truthy pid) eqn:Hpid; unfold update_progress;
    repeat (simpl; rewrite Hpid); split; try done; simpl;
    by rewrite (left_id_L ∅ (∪)).
Qed.

Lemma final_key_snd self combined keyed :
  exc_map (final_key self) combined = Ret keyed -> keyed.*2 = combined.
Proof.
  revert keyed. induction combined as [|e combined IH]; intros keyed; simpl.
  - by intros [= <-].
  - intros H. apply exc_bind_Ret in H as (k & Hk & H).
    apply exc_bind_Ret in H as (ks & Hks & [= <-]).
    unfold final_key in Hk. apply exc_bind_Ret in Hk as (i & _ & [= <-]).
    rewrite fmap_cons. simpl. f_equal. by apply IH.
Qed.

Lemma update_progress_all_courses v s :
  all_courses (update_progress v s) = all_courses s.
Proof. unfold update_progress. by destruct (truthy _). Qed.

Lemma update_progress_global v s :
  global_schedule (update_progress v s) = global_schedule s.
Proof. unfold update_progress. by destruct (truthy _). Qed.

Lemma solve_sorted_trace self self' final :
  solve_sorted self = (self', Ret (Some final)) ->
  global_schedule self = [] ->
  exists scheds self1,
    phases_run (update_progress 52 self) (phase_groups (all_courses self)) scheds self1 /\
    final ≡ₚ concat scheds.
Proof.
  unfold solve_sorted. intros H Hglob.
  destruct (solve_phases _ _ _ _ _) as [self1 r] eqn:Hrun.
  destruct r as [[combined|]|]; try done.
  destruct (exc_map (final_key self1) combined) as [keyed|] eqn:Hkeys; [|done].
  injection H as <- <-.
  rewrite update_progress_all_courses in Hrun.
  apply solve_phases_trace in Hrun as (scheds & -> & Hrun).
  2:{ by rewrite update_progress_global. }
  exists scheds, self1. split; [done|].
  apply final_key_snd in Hkeys. simpl in Hkeys.
  rewrite <- Hkeys. by rewrite sort_by_key_perm.
Qed.

Lemma internal_schedule_trace pid cat answers final :
  internal_schedule pid cat answers = Some final ->
  exists courses rs ts ds self0 scheds self1,
    load_courses cat = Ret courses /\ load_rooms cat = Ret rs /\
    load_time_settings cat = Ret ts /\ load_days cat = Ret ds /\
    loaded courses rs ts ds self0 /\
    phases_run self0 (phase_groups (prioritize_and_partition_courses courses))
      scheds self1 /\
    final ≡ₚ concat scheds.
Proof.
  unfold internal_schedule.
  destruct (load_data cat (init_scheduler pid answers)) as [self loadr] eqn:Hload.
  destruct loadr as [u|]; [|done].
  apply load_data_Ret in Hload as (courses & rs & ts & ds & Hc & Hr & Ht & Hd & ->).
  set (self := update_progress 50 _).
  destruct (solve_sorted self) as [self' r] eqn:Hsolve. simpl.
  destruct r as [[sched|]|]; try done. intros [= ->].
  pose proof (loaded_init pid answers courses rs ts ds) as Hloaded. fold self in Hloaded.
  apply solve_sorted_trace in Hsolve as (scheds & self1 & Hrun & Hperm).
  2:{ rewrite <- (ld_global _ _ _ _ _ Hloaded).
      symmetry. apply update_progress_global. }
  exists courses, rs, ts, ds, (update_progress 52 self), scheds, self1.
  split_and!; try done.
  assert (all_courses self = prioritize_and_partition_courses courses) as <-; [|done].
  rewrite <- (ld_courses _ _ _ _ _ Hloaded).
  symmetry. apply update_progress_all_courses.
Qed.

Lemma generate_schedule_returned pid cat answers :
  returned (generate_schedule pid cat answers) =
  match internal_schedule pid cat answers with
  | Some sched => Schedule (strip_internal <$> sched)
  | None => Impossible
  end.
Proof.
  unfold generate_schedule, internal_schedule, solve.
  destruct (load_data cat (init_scheduler pid answers)) as [self loadr].
  destruct loadr as [u|]; [|done].
  destruct (solve_sorted self) as [self' r]. simpl.
  by destruct r as [[sched|]|].
Qed.

(** ** Pairs of positions *)

Lemma pairwise_nil {A} (R : A -> A -> Prop) : pairwise R [].
Proof. intros i j x y _ Hi. by rewrite lookup_nil in Hi. Qed.

Lemma pairwise_cons {A} (R : A -> A -> Prop) x l :
  pairwise R (x :: l) <-> (forall y, y ∈ l -> R x y /\ R y x) /\ pairwise R l.
Proof.
  split.
  - intros H. split.
    + intros y Hy. apply list_elem_of_lookup in Hy as [j Hj].
      split; [apply (H 0%nat (S j))|apply (H (S j) 0%nat)]; done.
    + intros i j a b Hij Hi Hj. apply (H (S i) (S j)); [lia|done..].
  - intros [Hx Hl] i j a b Hij Hi Hj.
    destruct i as [|i], j as [|j]; simpl in *; try done.
    + injection Hi as <-. apply Hx. by eapply list_elem_of_lookup_2.
    + injection Hj as <-. apply Hx. by eapply list_elem_of_lookup_2.
    + apply (Hl i j); [lia|done..].
Qed.

Lemma pairwise_app {A} (R : A -> A -> Prop) l1 l2 :
  pairwise R l1 -> pairwise R l2 ->
  (forall x y, x ∈ l1 -> y ∈ l2 -> R x y /\ R y x) ->
  pairwise R (l1 ++ l2).
Proof.
  intros H1 H2 H12. induction l1 as [|x l1 IH]; [done|].
  apply pairwise_cons in H1 as [Hx H1]. simpl. apply pairwise_cons. split.
  - intros y Hy. apply elem_of_app in Hy as [Hy|Hy]; [by apply Hx|].
    apply H12; [by left|done].
  - apply IH; [done|]. intros a b Ha Hb. apply H12; [by right|done].
Qed.

Lemma pairwise_Permutation {A} (R : A -> A -> Prop) l1 l2 :
  l1 ≡ₚ l2 -> pairwise R l1 -> pairwise R l2.
Proof.
  induction 1 as [|x l1 l2 Hp IH|x y l|l1 l2 l3 Hp1 IH1 Hp2 IH2]; [done|..].
  - rewrite !pairwise_cons. intros [Hx Hl]. split; [|by apply IH].
    intros y Hy. apply Hx. by rewrite Hp.
  - rewrite !pairwise_cons. intros (Hy & Hx & Hl). split_and!; [| |done].
    + intros z Hz. apply elem_of_cons in Hz as [->|Hz].
      * destruct (Hy x) as [? ?]; [by left|]. done.
      * apply Hx, Hz.
    + intros z Hz. apply Hy. by right.
  - auto.
Qed.

Lemma pairwise_elem_of {A} (R : A -> A -> Prop) l x y :
  pairwise R l -> x ∈ l -> y ∈ l -> x <> y -> R x y.
Proof.
  intros H Hx Hy Hne.
  apply list_elem_of_lookup in Hx as [i Hi]. apply list_elem_of_lookup in Hy as [j Hj].
  apply (H i j); [|done..]. intros ->. congruence.
Qed.

Lemma slots_apart_sym e1 e2 : slots_apart e1 e2 -> slots_apart e2 e1.
Proof. unfold slots_apart. tauto. Qed.

Lemma slots_apart_disjoint e1 e2 :
  slots_apart e1 e2 ->
  slots_needed (e_start_slot e1) (e_duration e1)
    ## slots_needed (e_start_slot e2) (e_duration e2).
Proof.
  unfold slots_apart. intros H t H1 H2.
  apply elem_of_slots_needed in H1, H2. lia.
Qed.

(** ** Invariants of a run *)

Lemma phases_run_global self groups scheds self' :
  phases_run self groups scheds self' ->
  global_schedule self' = global_schedule self ++ concat scheds.
Proof.
  induction 1 as [self|self courses groups sched scheds self1 self' Hres Hrun IH]; simpl.
  - by rewrite app_nil_r.
  - rewrite IH. simpl. by rewrite app_assoc.
Qed.

Lemma phases_run_preserves (J : Scheduler -> Prop) self groups scheds self' :
  (forall self courses sched self1,
     J self -> phase_result self courses sched self1 ->
     J (set_global_schedule (global_schedule self ++ sched) self1)) ->
  phases_run self groups scheds self' -> J self -> J self'.
Proof.
  intros Hstep. induction 1 as [|self courses groups sched scheds self1 self' Hres Hrun IH];
    [done|].
  intros HJ. apply IH. by eapply Hstep.
Qed.

Lemma phases_run_shapes self groups scheds self' :
  phases_run self groups scheds self' ->
  event_shape <$> concat scheds = concat groups ≫= course_shapes.
Proof.
  induction 1 as [|self courses groups sched scheds self1 self' Hres Hrun IH]; [done|].
  simpl. rewrite fmap_app, bind_app, IH. f_equal. apply Hres.
Qed.

Lemma rooms_kept_step self courses sched self1 :
  rooms_kept self -> phase_result self courses sched self1 ->
  rooms_kept (set_global_schedule (global_schedule self ++ sched) self1).
Proof.
  intros [Hex Hrooms] Hres. unfold rooms_kept. simpl.
  pose proof (pr_catalog _ _ _ _ Hres) as (_ & _ & Hr & _).
  rewrite Forall_forall in Hrooms.
  split.
  - apply pairwise_app; [done|apply Hres|].
    intros pe e Hpe He.
    assert (event_room_key pe = event_room_key e -> slots_apart pe e) as Hap.
    { intros Hkey. eapply (pr_room_prior _ _ _ _ Hres); eauto. }
    split; [done|]. intros Hkey. by apply slots_apart_sym, Hap.
  - rewrite <- Hr. apply Forall_app. split; [by apply Forall_forall|].
    eapply Forall_impl; [apply (pr_rooms _ _ _ _ Hres)|].
    intros e (names & Hn & _). by exists names.
Qed.

Lemma ids_fresh_step self courses sched self1 :
  ids_fresh self -> phase_result self courses sched self1 ->
  ids_fresh (set_global_schedule (global_schedule self ++ sched) self1).
Proof.
  intros (Hsorted & Hbelow & Hpos) Hres. unfold ids_fresh. simpl.
  destruct (pr_ids _ _ _ _ Hres) as (sid0 & Hle & Hids & Hnext).
  assert (forall e, e ∈ sched -> sid0 <= e_schedule_id e < sid0 + Z.of_nat (length sched))
    as Hrange.
  { intros e He. apply (list_elem_of_fmap_2 e_schedule_id) in He.
    rewrite Hids in He. by apply elem_of_seqZ in He. }
  rewrite Forall_forall in Hbelow.
  split_and!.
  - rewrite fmap_app. apply StronglySorted_app_2; [|done|].
    + intros x y Hx Hy.
      apply list_elem_of_fmap in Hx as (e1 & -> & He1).
      apply list_elem_of_fmap in Hy as (e2 & -> & He2).
      specialize (Hbelow _ He1). specialize (Hrange _ He2). lia.
    + rewrite Hids. apply StronglySorted_seqZ.
  - apply Forall_app. split; apply Forall_forall; intros e He.
    + specialize (Hbelow _ He). lia.
    + specialize (Hrange _ He). lia.
  - lia.
Qed.

Lemma loaded_rooms_kept courses rs ts ds self : loaded courses rs ts ds self -> rooms_kept self.
Proof.
  intros H. unfold rooms_kept. rewrite (ld_global _ _ _ _ _ H).
  split; [apply pairwise_nil|constructor].
Qed.

Lemma loaded_ids_fresh courses rs ts ds self : loaded courses rs ts ds self -> ids_fresh self.
Proof.
  intros H. unfold ids_fresh. rewrite (ld_global _ _ _ _ _ H), (ld_schedule_id _ _ _ _ _ H).
  split_and!; [constructor|constructor|lia].
Qed.

Lemma run_room_exclusive pid cat answers schedule :
  internal_schedule pid cat answers = Some schedule -> room_exclusive schedule.
Proof.
  intros H.
  apply internal_schedule_trace in H
    as (courses & rs & ts & ds & self0 & scheds & self1 & _ & _ & _ & _ & Hl & Hrun & Hperm).
  pose proof (phases_run_preserves rooms_kept _ _ _ _ rooms_kept_step Hrun
                (loaded_rooms_kept _ _ _ _ _ Hl)) as [Hex _].
  rewrite (phases_run_global _ _ _ _ Hrun), (ld_global _ _ _ _ _ Hl) in Hex.
  eapply pairwise_Permutation; [symmetry; exact Hperm|done].
Qed.

Lemma run_ids_increasing pid cat answers schedule :
  internal_schedule pid cat answers = Some schedule ->
  NoDup (e_schedule_id <$> schedule) /\ Forall (fun e => 1 <= e_schedule_id e) schedule.
Proof.
  intros H.
  apply internal_schedule_trace in H
    as (courses & rs & ts & ds & self0 & scheds & self1 & _ & _ & _ & _ & Hl & Hrun & Hperm).
  pose proof (phases_run_preserves ids_fresh _ _ _ _ ids_fresh_step Hrun
                (loaded_ids_fresh _ _ _ _ _ Hl)) as (Hsorted & Hbelow & _).
  rewrite (phases_run_global _ _ _ _ Hrun), (ld_global _ _ _ _ _ Hl) in Hsorted, Hbelow.
  simpl in *. rewrite Hperm. split.
  - clear -Hsorted. induction Hsorted as [|x l Hs IH Hx]; [constructor|].
    constructor; [|done]. intros Hin. rewrite Forall_forall in Hx.
    specialize (Hx _ Hin). lia.
  - eapply Forall_impl; [exact Hbelow|]. simpl. intros e. lia.
Qed.

(** X1.  In the schedule of a successful run, taken just before its
    internal fields are deleted, any two events at different positions
    that have the same room type and room index occupy disjoint slot
    intervals [[_start_slot, _start_slot + _duration)], whether they come
    from one phase or from two; the schedule returned is this one without
    its internal fields. *)
Theorem room_exclusivity (pid : option string) (cat : Catalog)
    (answers : list (option Assignment)) (schedule : list Event) :
  internal_schedule pid cat answers = Some schedule ->
  returned (generate_schedule pid cat answers) = Schedule (strip_internal <$> schedule) /\
  room_exclusive schedule /\
  (forall e1 e2,
     e1 ∈ schedule -> e2 ∈ schedule -> e1 <> e2 ->
     e_room_type e1 = e_room_type e2 -> e_room_idx e1 = e_room_idx e2 ->
     slots_needed (e_start_slot e1) (e_duration e1)
       ## slots_needed (e_start_slot e2) (e_duration e2)).
Proof.
  intros H. split_and!.
  - by rewrite generate_schedule_returned, H.
  - by eapply run_room_exclusive.
  - intros e1 e2 H1 H2 Hne Ht Hi. apply slots_apart_disjoint.
    pose proof (run_room_exclusive _ _ _ _ H) as Hex.
    apply (pairwise_elem_of _ schedule e1 e2 Hex H1 H2 Hne).
    unfold event_room_key. congruence.
Qed.

Lemma room_exclusivity_witness :
  internal_schedule demo_pid demo_catalog demo_answers = Some demo_schedule /\
  room_exclusive demo_schedule.
Proof.
  assert (internal_schedule demo_pid demo_catalog demo_answers = Some demo_schedule) as H
    by (vm_compute; reflexivity).
  split; [exact H|].
  destruct (room_exclusivity demo_pid demo_catalog demo_answers demo_schedule H)
    as (_ & Hex & _).
  exact Hex.
Defined.

(** ** The result dictionary *)

Lemma dict_of_schedule_snoc l e :
  dict_of_schedule (l ++ [e]) = <[schedule_id_of e := e]> (dict_of_schedule l).
Proof. unfold dict_of_schedule. by rewrite foldl_app. Qed.

Lemma dict_of_schedule_lookup l k :
  NoDup (schedule_id_of <$> l) ->
  forall e, dict_of_schedule l !! k = Some e <-> e ∈ l /\ schedule_id_of e = k.
Proof.
  induction l as [|x l IH] using rev_ind; intros Hnd e.
  - unfold dict_of_schedule. simpl. rewrite lookup_empty. split; [done|].
    intros [He _]. by apply elem_of_nil in He.
  - rewrite fmap_app in Hnd. apply NoDup_app in Hnd as (Hnd & Hfresh & _).
    rewrite dict_of_schedule_snoc, elem_of_app, list_elem_of_singleton.
    destruct (decide (schedule_id_of x = k)) as [Hk|Hk].
    + rewrite Hk, lookup_insert_eq. split.
      * intros [= <-]. split; [by right|done].
      * intros [[He| ->] Hid]; [|done].
        exfalso. apply (Hfresh (schedule_id_of e)).
        -- by apply list_elem_of_fmap_2.
        -- simpl. rewrite Hid, <- Hk. by left.
    + rewrite lookup_insert_ne by done. rewrite IH by done. split.
      * intros [? ?]. split; [by left|done].
      * intros [[?| ->] ?]; done.
Qed.

Lemma dict_of_schedule_size l :
  NoDup (schedule_id_of <$> l) -> size (dict_of_schedule l) = length l.
Proof.
  induction l as [|x l IH] using rev_ind; intros Hnd; [done|].
  rewrite fmap_app in Hnd. apply NoDup_app in Hnd as (Hnd & Hfresh & _).
  rewrite dict_of_schedule_snoc, length_app, map_size_insert_None; simpl.
  - rewrite IH by done. lia.
  - destruct (dict_of_schedule l !! schedule_id_of x) as [e|] eqn:He; [|done].
    apply dict_of_schedule_lookup in He as [He Hid]; [|done].
    exfalso. apply (Hfresh (schedule_id_of e)).
    + by apply list_elem_of_fmap_2.
    + simpl. rewrite Hid. by left.
Qed.

Lemma generate_schedule_dict pid cat answers events :
  returned (generate_schedule pid cat answers) = Schedule events ->
  schedule_dict (generate_schedule pid cat answers) = Some (dict_of_schedule events).
Proof.
  unfold generate_schedule.
  destruct (load_data cat (init_scheduler pid answers)) as [self loadr].
  destruct loadr as [u|]; [|done].
  destruct (solve self) as [self' r].
  destruct r as [[sched|]|]; try done. simpl. by intros [= ->].
Qed.

(** X2.  The events of a schedule that [generate_schedule] returns carry
    pairwise distinct schedule ids, so the dictionary
    [{schedule_id: event}] that it stores has exactly one entry per event:
    as many entries as the schedule has events, every event under its own
    id, and nothing else. *)
Theorem schedule_ids_unique (pid : option string) (cat : Catalog)
    (answers : list (option Assignment)) (events : list PublicEvent) :
  returned (generate_schedule pid cat answers) = Schedule events ->
  NoDup (schedule_id_of <$> events) /\
  exists dict,
    schedule_dict (generate_schedule pid cat answers) = Some dict /\
    size dict = length events /\
    (forall e, e ∈ events -> dict !! schedule_id_of e = Some e) /\
    (forall k e, dict !! k = Some e -> e ∈ events /\ schedule_id_of e = k).
Proof.
  intros Hret. pose proof Hret as Hret'.
  rewrite generate_schedule_returned in Hret'.
  destruct (internal_schedule pid cat answers) as [sched|] eqn:Hint; [|done].
  injection Hret' as <-.
  apply run_ids_increasing in Hint as [Hnd _].
  assert (NoDup (schedule_id_of <$> (strip_internal <$> sched))) as Hnd'.
  { by rewrite <- list_fmap_compose. }
  split; [done|].
  exists (dict_of_schedule (strip_internal <$> sched)). split_and!.
  - by apply generate_schedule_dict.
  - by apply dict_of_schedule_size.
  - intros e He. by apply dict_of_schedule_lookup.
  - intros k e. by apply dict_of_schedule_lookup.
Qed.

Lemma schedule_ids_unique_witness :
  returned (generate_schedule demo_pid demo_catalog demo_answers)
  = Schedule (strip_internal <$> demo_schedule) /\
  NoDup (schedule_id_of <$> (strip_internal <$> demo_schedule)).
Proof.
  assert (returned (generate_schedule demo_pid demo_catalog demo_answers)
          = Schedule (strip_internal <$> demo_schedule)) as H
    by (vm_compute; reflexivity).
  split; [exact H|].
  destruct (schedule_ids_unique demo_pid demo_catalog demo_answers
              (strip_internal <$> demo_schedule) H) as [Hnd _].
  exact Hnd.
Defined.

(** ** The phases that [solve] iterates over *)

Lemma dd_keys_append {K V : Type} `{EqDecision K} (d : list (K * list V)) k v :
  (dd_append d k v).*1 = if decide (k ∈ d.*1) then d.*1 else d.*1 ++ [k].
Proof.
  induction d as [|[k0 l] d IH].
  - destruct (decide (k ∈ ([] : list (K * list V)).*1)) as [H|_]; [|done].
    by apply elem_of_nil in H.
  - cbn [dd_append]. destruct (decide (k0 = k)) as [->|Hne].
    + rewrite !fmap_cons. cbn [fst]. rewrite decide_True; [done|]. by left.
    + rewrite !fmap_cons, IH. cbn [fst].
      destruct (decide (k ∈ d.*1)) as [Hin|Hout].
      * rewrite decide_True; [done|]. by right.
      * rewrite decide_False; [done|].
        intros Hin. apply elem_of_cons in Hin as [->|Hin]; done.
Qed.

Lemma phase_courses_of_cons p c all q :
  phase_courses_of ((p, c) :: all) q =
  if decide (p = q) then c :: phase_courses_of all q else phase_courses_of all q.
Proof.
  unfold phase_courses_of. rewrite filter_cons. simpl.
  destruct (decide (p = q)); done.
Qed.

Lemma phases_fold_get (d : list (SchedulingPhase * list Course)) all p :
  dd_get (foldl (fun phases pc => dd_append phases pc.1 pc.2) d all) p =
  dd_get d p ++ phase_courses_of all p.
Proof.
  revert d. induction all as [|[q c] all IH]; intros d; simpl.
  - by rewrite app_nil_r.
  - rewrite IH, dd_get_append, phase_courses_of_cons.
    destruct (decide (q = p)); [|done]. by rewrite <- app_assoc.
Qed.

Lemma phases_fold_keys (d : list (SchedulingPhase * list Course)) all :
  NoDup d.*1 ->
  NoDup (foldl (fun phases pc => dd_append phases pc.1 pc.2) d all).*1 /\
  forall p, p ∈ (foldl (fun phases pc => dd_append phases pc.1 pc.2) d all).*1 <->
            p ∈ d.*1 \/ phase_courses_of all p <> [].
Proof.
  revert d. induction all as [|[q c] all IH]; intros d Hnd; simpl.
  - split; [done|]. intros p. unfold phase_courses_of. simpl. tauto.
  - assert (NoDup (dd_append d q c).*1) as Hnd'.
    { rewrite dd_keys_append. destruct (decide (q ∈ d.*1)); [done|].
      apply NoDup_app. split_and!; [done| |apply NoDup_singleton].
      intros x Hx Hq. apply list_elem_of_singleton in Hq as ->. done. }
    destruct (IH _ Hnd') as [Hnd'' Hkeys]. split; [done|].
    intros p. rewrite Hkeys, dd_keys_append, phase_courses_of_cons.
    destruct (decide (q ∈ d.*1)) as [Hin|Hout], (decide (q = p)) as [->|Hne];
      rewrite ?elem_of_app, ?list_elem_of_singleton; split; intros H;
      try tauto; try (by left); try (by right); try (by left; right).
    destruct H as [[?|?]|?]; [by left|congruence|by right].
Qed.

Lemma phases_dict_get all p : dd_get (phases_dict all) p = phase_courses_of all p.
Proof. unfold phases_dict. by rewrite phases_fold_get. Qed.

Lemma phases_dict_keys all :
  NoDup (phases_dict all).*1 /\
  forall p, p ∈ (phases_dict all).*1 <-> phase_courses_of all p <> [].
Proof.
  unfold phases_dict.
  destruct (phases_fold_keys [] all) as [Hnd Hkeys]; [constructor|].
  split; [done|]. intros p. rewrite Hkeys. simpl. split; [|by right].
  intros [H|H]; [by apply elem_of_nil in H|done].
Qed.

Definition phase_le (p q : SchedulingPhase) : Prop :=
  key_le (phase_value p, 0) (phase_value q, 0).

#[local] Instance phase_le_antisymm : AntiSymm (=) phase_le.
Proof.
  intros p q. unfold phase_le, key_le. simpl.
  destruct p, q; simpl; intros; try done; lia.
Qed.

Lemma fmap_filter_iff {A B : Type} (f : A -> B) (P : A -> Prop) (Q : B -> Prop)
    `{forall x, Decision (P x)} `{forall y, Decision (Q y)} (l : list A) :
  (forall x, x ∈ l -> (P x <-> Q (f x))) ->
  f <$> filter P l = filter Q (f <$> l).
Proof.
  induction l as [|x l IH]; intros Hiff; [done|].
  rewrite fmap_cons, !filter_cons.
  assert (P x <-> Q (f x)) as Hx by (apply Hiff; by left).
  assert (f <$> filter P l = filter Q (f <$> l)) as IH'
    by (apply IH; intros y Hy; apply Hiff; by right).
  destruct (decide (P x)), (decide (Q (f x))); rewrite ?fmap_cons, ?IH'; try done; tauto.
Qed.

(** The keys sorted by value are the phases 1, 2 and 3, in this order,
    without those that have no course. *)
Lemma sorted_phases (keys : list SchedulingPhase) :
  NoDup keys ->
  sort_by_key (fun p => (phase_value p, 0)) keys =
  filter (fun p => p ∈ keys) [PHASE_1_FLEXIBLE; PHASE_2_REGULAR; PHASE_3_CRITICAL].
Proof.
  intros Hnd. apply (StronglySorted_unique phase_le).
  - apply (sort_by_key_sorted (fun p => (phase_value p, 0))).
  - apply StronglySorted_filter.
    repeat (constructor; [|repeat constructor; unfold phase_le, key_le; simpl; lia]).
    constructor.
  - rewrite sort_by_key_perm. apply NoDup_Permutation; [done| |].
    + apply NoDup_filter. apply (bool_decide_unpack _). vm_compute. exact I.
    + intros p. rewrite list_elem_of_filter. split; [|tauto].
      intros Hp. split; [done|]. rewrite !elem_of_cons. destruct p; tauto.
Qed.

Lemma phase_groups_by_value all :
  phase_groups all =
  filter (fun l => l <> [])
         (phase_courses_of all <$> [PHASE_1_FLEXIBLE; PHASE_2_REGULAR; PHASE_3_CRITICAL]).
Proof.
  unfold phase_groups. destruct (phases_dict_keys all) as [Hnd Hkeys].
  rewrite sorted_phases by done.
  rewrite (list_fmap_ext _ (phase_courses_of all)) by (intros; apply phases_dict_get).
  apply fmap_filter_iff. intros p _. apply Hkeys.
Qed.

(** ** Counting meetings *)

Lemma filter_bind_nil {A B} (P : B -> Prop) `{forall x, Decision (P x)}
    (f : A -> list B) (l : list A) :
  (forall x, x ∈ l -> filter P (f x) = []) -> filter P (l ≫= f) = [].
Proof.
  induction l as [|x l IH]; intros Hall; [done|].
  rewrite bind_cons, filter_app, Hall by (by left). simpl.
  apply IH. intros y Hy. apply Hall. by right.
Qed.

Lemma filter_bind_only {A B} (P : B -> Prop) `{forall x, Decision (P x)}
    (f : A -> list B) (l : list A) (c : A) :
  NoDup l -> c ∈ l ->
  (forall x, x ∈ l -> x <> c -> filter P (f x) = []) ->
  filter P (l ≫= f) = filter P (f c).
Proof.
  induction l as [|x l IH]; intros Hnd Hc Hall; [by apply elem_of_nil in Hc|].
  apply NoDup_cons in Hnd as [Hx Hnd].
  rewrite bind_cons, filter_app.
  apply elem_of_cons in Hc as [->|Hc].
  - rewrite filter_bind_nil, app_nil_r; [done|].
    intros y Hy. apply Hall; [by right|]. intros ->. done.
  - rewrite Hall; [|by left|by intros ->]. simpl.
    apply IH; [done..|]. intros y Hy. apply Hall. by right.
Qed.

Lemma length_filter_fmap {A B} (P : A -> Prop) (Q : B -> Prop)
    `{forall x, Decision (P x)} `{forall y, Decision (Q y)} (g : A -> B) (l : list A) :
  (forall x, x ∈ l -> P x <-> Q (g x)) ->
  length (filter P l) = length (filter Q (g <$> l)).
Proof.
  induction l as [|x l IH]; intros Hall; [done|].
  rewrite fmap_cons, !filter_cons.
  assert (P x <-> Q (g x)) as Hx by (apply Hall; by left).
  assert (length (filter P l) = length (filter Q (g <$> l))) as Hl.
  { apply IH. intros y Hy. apply Hall. by right. }
  destruct (decide (P x)), (decide (Q (g x))); simpl; try tauto; by rewrite Hl.
Qed.

Lemma filter_replicate_all {A} (P : A -> Prop) `{forall x, Decision (P x)} n x :
  P x -> filter P (replicate n x) = replicate n x.
Proof.
  intros Hx. induction n as [|n IH]; [done|].
  simpl. rewrite filter_cons, decide_True by done. by rewrite IH.
Qed.

Lemma filter_replicate_none {A} (P : A -> Prop) `{forall x, Decision (P x)} n x :
  ~ P x -> filter P (replicate n x) = [].
Proof.
  intros Hx. induction n as [|n IH]; [done|].
  simpl. by rewrite filter_cons, decide_False.
Qed.

Lemma shapes_of_block course b b' t :
  shapes_of (courseCode course) (block_letter b) t (block_shapes course b') =
  if decide (b' = b) then
    match t with
    | lecture => replicate (unitsLecture course)
                   (courseCode course, title course, program course, yearLevel course,
                    block_letter b, lecture, 2)
    | lab => replicate (unitsLab course * 2)
               (courseCode course, title course, program course, yearLevel course,
                block_letter b, lab, 3)
    end
  else [].
Proof.
  unfold shapes_of, block_shapes. rewrite filter_app.
  destruct (decide (b' = b)) as [->|Hne].
  - destruct t.
    + rewrite filter_replicate_all, filter_replicate_none, app_nil_r; simpl; [done|..];
        intuition congruence.
    + rewrite filter_replicate_none, filter_replicate_all; simpl; [done|..];
        intuition congruence.
  - rewrite !filter_replicate_none; simpl; [done|..];
      unfold block_letter; intros (_ & ? & _); lia.
Qed.

Lemma shapes_of_course course b t :
  (b < blocks course)%nat ->
  length (shapes_of (courseCode course) (block_letter b) t (course_shapes course)) =
  match t with
  | lecture => unitsLecture course
  | lab => (unitsLab course * 2)%nat
  end.
Proof.
  intros Hb. unfold course_shapes, shapes_of.
  rewrite (filter_bind_only _ _ _ b).
  - change (length (shapes_of (courseCode course) (block_letter b) t
                       (block_shapes course b)) = match t with
                                                  | lecture => unitsLecture course
                                                  | lab => (unitsLab course * 2)%nat
                                                  end).
    rewrite shapes_of_block, decide_True by done.
    destruct t; by rewrite length_replicate.
  - apply NoDup_seq.
  - apply elem_of_seq. lia.
  - intros b' _ Hne.
    change (shapes_of (courseCode course) (block_letter b) t (block_shapes course b') = []).
    by rewrite shapes_of_block, decide_False.
Qed.

Lemma shapes_of_other_course course course' b t :
  courseCode course' <> courseCode course ->
  shapes_of (courseCode course) (block_letter b) t (course_shapes course') = [].
Proof.
  intros Hne. unfold course_shapes, shapes_of. apply filter_bind_nil.
  intros b' _. unfold block_shapes. rewrite filter_app.
  rewrite !filter_replicate_none; simpl; [done|..]; intros (? & _); done.
Qed.

Lemma NoDup_fmap_eq {A B} (f : A -> B) (l : list A) x y :
  NoDup (f <$> l) -> x ∈ l -> y ∈ l -> f x = f y -> x = y.
Proof.
  induction l as [|z l IH]; intros Hnd Hx Hy Hf; [by apply elem_of_nil in Hx|].
  rewrite fmap_cons in Hnd. apply NoDup_cons in Hnd as [Hz Hnd].
  apply elem_of_cons in Hx as [->|Hx]; apply elem_of_cons in Hy as [->|Hy]; [done|..].
  - destruct Hz. rewrite Hf. by apply list_elem_of_fmap_2.
  - destruct Hz. rewrite <- Hf. by apply list_elem_of_fmap_2.
  - by apply IH.
Qed.

Lemma shapes_of_courses courses course b t :
  NoDup (courseCode <$> courses) -> course ∈ courses -> (b < blocks course)%nat ->
  length (shapes_of (courseCode course) (block_letter b) t (courses ≫= course_shapes)) =
  match t with
  | lecture => unitsLecture course
  | lab => (unitsLab course * 2)%nat
  end.
Proof.
  intros Hnd Hc Hb. unfold shapes_of at 1.
  rewrite (filter_bind_only _ _ _ course); [by apply shapes_of_course| |done|].
  - by apply NoDup_fmap_1 in Hnd.
  - intros c' Hc' Hne. apply shapes_of_other_course. intros Heq. apply Hne.
    by eapply (NoDup_fmap_eq courseCode).
Qed.

(** ** The courses of the phases *)

Lemma phase_split (all : list (SchedulingPhase * Course)) :
  phase_courses_of all PHASE_1_FLEXIBLE ++ phase_courses_of all PHASE_2_REGULAR
  ++ phase_courses_of all PHASE_3_CRITICAL ≡ₚ all.*2.
Proof.
  unfold phase_courses_of. induction all as [|[p c] all IH]; [done|].
  rewrite !filter_cons, fmap_cons. simpl. rewrite <- IH.
  destruct p; repeat (case_decide; try done); rewrite ?fmap_cons; simpl;
    try reflexivity.
  - by rewrite <- Permutation_middle.
  - by rewrite (app_assoc _ _ (c :: _)), <- Permutation_middle, <- app_assoc.
Qed.

Lemma concat_nonempty (ls : list (list Course)) :
  concat (filter (fun l => l <> []) ls) = concat ls.
Proof.
  induction ls as [|l ls IH]; [done|].
  rewrite filter_cons. destruct (decide (l <> [])) as [?|Hnil]; simpl; [by rewrite IH|].
  destruct l; [by rewrite IH|]. by destruct Hnil.
Qed.

Lemma phase_groups_concat all :
  concat (phase_groups all) ≡ₚ all.*2.
Proof.
  rewrite phase_groups_by_value, concat_nonempty, <- phase_split.
  simpl. by rewrite app_nil_r.
Qed.

Lemma partition_courses_perm courses :
  (prioritize_and_partition_courses courses).*2 ≡ₚ courses.
Proof.
  rewrite partition_perm, <- list_fmap_compose.
  rewrite (list_fmap_ext _ id courses) by done. by rewrite list_fmap_id.
Qed.

Lemma run_shapes pid cat answers schedule :
  internal_schedule pid cat answers = Some schedule ->
  exists courses,
    load_courses cat = Ret courses /\
    event_shape <$> schedule ≡ₚ courses ≫= course_shapes /\
    Forall (fun e => e_session e = session_word (e_room_type e)) schedule.
Proof.
  intros H.
  apply internal_schedule_trace in H
    as (courses & rs & ts & ds & self0 & scheds & self1 & Hc & _ & _ & _ & Hl & Hrun & Hperm).
  exists courses. split_and!; [done|..].
  - rewrite Hperm, (phases_run_shapes _ _ _ _ Hrun).
    by rewrite phase_groups_concat, partition_courses_perm.
  - rewrite Hperm. clear -Hrun.
    induction Hrun as [|self cs groups sched scheds self1 self' Hres Hrun IH];
      [constructor|].
    simpl. apply Forall_app. split; [apply Hres|done].
Qed.

(** ** The progress entry *)

#[local] Instance progress_extends_preorder : PreOrder progress_extends.
Proof.
  split.
  - intros s. split; [done|]. exists []. by rewrite app_nil_r.
  - intros s1 s2 s3 (Hp1 & w1 & Hw1 & Hq1) (Hp2 & w2 & Hw2 & Hq2).
    split; [congruence|]. exists (w1 ++ w2). split.
    + by rewrite Hw2, Hw1, app_assoc.
    + intros Hf. rewrite Hq1, Hq2 by congruence. done.
Qed.

Lemma update_progress_extends v s : progress_extends s (update_progress v s).
Proof.
  unfold update_progress. destruct (truthy (process_id s)) eqn:Hp; [|reflexivity].
  split; [done|]. exists [v]. split; [done|]. by rewrite Hp.
Qed.

Lemma progress_extends_same s s' :
  process_id s' = process_id s -> progress_state s' = progress_state s ->
  progress_extends s s'.
Proof. intros Hp Hs. split; [done|]. exists []. by rewrite app_nil_r. Qed.

Lemma update_progress_last v s :
  truthy (process_id s) = true ->
  progress_state (update_progress v s) = progress_state s ++ [v].
Proof. unfold update_progress. by intros ->. Qed.

Lemma build_courses_progress self n cs ce courses idx b self' b' r :
  build_courses self n cs ce courses idx b = (self', b', r) ->
  progress_extends self self'.
Proof.
  revert self idx b self' b' r.
  induction courses as [|course rest IH]; intros self idx b self' b' r; simpl.
  - intros [= <- _ _]. reflexivity.
  - destruct (create_course_sessions self course b (schedule_id self))
      as [[sid1 b1] r1].
    assert (progress_extends self (set_schedule_id sid1 self)) as H1
      by (by apply progress_extends_same).
    destruct r1 as [[sessions1|]|]; try (by intros [= <- _ _]).
    destruct (PyFloat.to_int _) as [k|]; [|by intros [= <- _ _]].
    set (self2 := update_progress _ _).
    assert (progress_extends self self2) as H2.
    { etrans; [exact H1|apply update_progress_extends]. }
    destruct (build_courses self2 n cs ce rest (idx + 1) b1) as [[self3 b3] r3] eqn:Hrest.
    apply IH in Hrest.
    destruct r3 as [[more|]|]; intros [= <- _ _]; by etrans.
Qed.

Lemma pop_answer_progress self answer self' :
  pop_answer self = (answer, self') -> progress_extends self self'.
Proof.
  unfold pop_answer. destruct (solver_answers self) as [|ans rest]; intros [= _ <-].
  - reflexivity.
  - by apply progress_extends_same.
Qed.

Lemma update_occupancy_progress schedule self :
  progress_extends self (update_occupancy_from_schedule schedule self).
Proof.
  destruct (update_occupancy_spec schedule self) as (Hc & _ & _ & Hp & _).
  apply progress_extends_same; [|done]. symmetry. apply Hc.
Qed.

Lemma solve_phase_attempt_progress self courses phase_num total_phases timeout optimize
    self' r :
  solve_phase_attempt self courses phase_num total_phases timeout optimize = (self', r) ->
  progress_extends self self'.
Proof.
  unfold solve_phase_attempt.
  case_bool_decide as HP; [by intros [= <- _]|].
  destruct (build_courses _ _ _ _ _ _ _) as [[self1 b1] r1] eqn:Hbuild.
  apply build_courses_progress in Hbuild.
  destruct r1 as [[sessions|]|]; try (by intros [= <- _]).
  destruct (pop_answer (configure_solver timeout self1)) as [answer self2] eqn:Hpop.
  apply pop_answer_progress in Hpop.
  assert (progress_extends self1 self2) as Hpop'.
  { etrans; [|exact Hpop].
    destruct (configure_solver_setting timeout self1) as (_ & _ & _ & Hpr & Hpid).
    by apply progress_extends_same. }
  clear Hpop. rename Hpop' into Hpop.
  destruct (Solve _ answer) as [a|]; [|intros [= <- _]; by etrans].
  destruct (extract_phase_solution self2 a sessions) as [sched|]; intros [= <- _].
  - etrans; [exact Hbuild|]. etrans; [exact Hpop|]. apply update_occupancy_progress.
  - by etrans.
Qed.

Lemma solve_phase_progress self courses phase_num total_phases self' r :
  solve_phase self courses phase_num total_phases = (self', r) ->
  progress_extends self self'.
Proof.
  unfold solve_phase. destruct courses as [|c courses'] eqn:Hcs.
  { by intros [= <- _]. }
  rewrite <- Hcs. clear Hcs.
  destruct (get_phase_timeout _ _ _) as [timeout|]; [|by intros [= <- _]].
  destruct (solve_phase_attempt self courses phase_num total_phases timeout false)
    as [self1 r1] eqn:H1.
  apply solve_phase_attempt_progress in H1.
  destruct r1 as [[sched|]|]; try (by intros [= <- _]).
  destruct (retry_timeout timeout) as [timeout2|]; [|by intros [= <- _]].
  intros H2. apply solve_phase_attempt_progress in H2. by etrans.
Qed.

Lemma solve_phases_progress self groups phase_num total_phases combined self' r :
  solve_phases self groups phase_num total_phases combined = (self', r) ->
  progress_extends self self' /\
  (r = Ret None -> truthy (process_id self) = true ->
   exists before, progress_state self' = before ++ [-1]).
Proof.
  revert self phase_num combined.
  induction groups as [|courses groups IH]; intros self phase_num combined; simpl.
  - intros [= <- <-]. split; [reflexivity|done].
  - destruct (solve_phase self courses phase_num total_phases) as [self1 r1] eqn:H1.
    apply solve_phase_progress in H1.
    destruct r1 as [[sched|]|].
    + intros Hrest. apply IH in Hrest as [Hext Hlast].
      assert (progress_extends self (set_global_schedule (combined ++ sched) self1)) as H2.
      { etrans; [exact H1|]. by apply progress_extends_same. }
      split; [by etrans|]. intros Hr Hp. apply Hlast; [done|].
      simpl. destruct H1 as [-> _]. done.
    + intros [= <- <-]. split; [etrans; [exact H1|apply update_progress_extends]|].
      intros _ Hp. exists (progress_state self1). apply update_progress_last.
      destruct H1 as [-> _]. done.
    + intros [= <- <-]. split; [done|]. done.
Qed.

Lemma solve_sorted_progress self self' r :
  solve_sorted self = (self', r) ->
  progress_extends (update_progress 52 self) self' /\
  (r = Ret None -> truthy (process_id self) = true ->
   exists before, progress_state self' = before ++ [-1]).
Proof.
  unfold solve_sorted.
  destruct (solve_phases _ _ _ _ _) as [self1 r1] eqn:Hrun.
  apply solve_phases_progress in Hrun as [Hext Hlast].
  assert (process_id (update_progress 52 self) = process_id self) as Hp
    by apply update_progress_extends.
  destruct r1 as [[combined|]|].
  - destruct (exc_map (final_key self1) combined) as [keyed|]; intros [= <- <-];
      (split; [done|done]).
  - intros [= <- <-]. split; [done|]. intros _ Ht. apply Hlast; [done|]. by rewrite Hp.
  - intros [= <- <-]. split; [done|done].
Qed.

Lemma load_data_progress pid answers cat self r :
  load_data cat (init_scheduler pid answers) = (self, r) ->
  process_id self = pid /\
  exists n,
    progress_state self = (if truthy pid then take n load_progress else []) /\
    (1 <= n)%nat /\ (r = Ret tt -> n = 6%nat) /\ (r = Raise -> (n <= 4)%nat).
Proof.
  unfold load_data.
  destruct (load_courses cat) as [courses|]; [|intros [= <- <-]].
  2:{ unfold update_progress. simpl. destruct (truthy pid) eqn:Hp; simpl; rewrite ?Hp;
        (split; [done|exists 1%nat; split_and!; [done|lia|done|first [lia|done]]]). }
  destruct (load_rooms cat) as [rs|]; [|intros [= <- <-]].
  2:{ unfold update_progress. simpl. destruct (truthy pid) eqn:Hp; simpl; rewrite ?Hp;
        simpl; rewrite ?Hp;
        (split; [done|exists 2%nat; split_and!; [done|lia|done|first [lia|done]]]). }
  destruct (load_time_settings cat) as [ts|]; [|intros [= <- <-]].
  2:{ unfold update_progress. simpl.
      destruct (truthy pid) eqn:Hp; repeat (simpl; rewrite ?Hp);
        (split; [done|exists 3%nat; split_and!; [done|lia|done|first [lia|done]]]). }
  destruct (load_days cat) as [ds|]; intros [= <- <-].
  2:{ unfold update_progress. simpl.
      destruct (truthy pid) eqn:Hp; repeat (simpl; rewrite ?Hp);
        (split; [done|exists 4%nat; split_and!; [done|lia|done|first [lia|done]]]). }
  unfold update_progress. simpl.
  destruct (truthy pid) eqn:Hp; repeat (simpl; rewrite ?Hp);
    (split; [done|exists 6%nat; split_and!; [done|lia|done|first [lia|done]]]).
Qed.

(** ** Lifting facts about a phase to the run *)

Lemma elem_of_concat {A} (x : A) (ls : list (list A)) :
  x ∈ concat ls <-> exists l, x ∈ l /\ l ∈ ls.
Proof.
  induction ls as [|l0 ls IH]; simpl.
  - split; [by intros H; apply elem_of_nil in H|].
    intros (l & _ & Hl). by apply elem_of_nil in Hl.
  - rewrite elem_of_app, IH. split.
    + intros [H|(l & Hx & Hl)]; [exists l0; split; [done|by left]|].
      exists l. split; [done|by right].
    + intros (l & Hx & Hl). apply elem_of_cons in Hl as [->|Hl]; [by left|].
      right. by exists l.
Qed.

Lemma same_catalog_set_global v s : same_catalog s (set_global_schedule v s).
Proof. unfold same_catalog. simpl. tauto. Qed.

Lemma phases_run_catalog self groups scheds self' :
  phases_run self groups scheds self' -> same_catalog self self'.
Proof.
  induction 1 as [self|self courses groups sched scheds self1 self' Hres Hrun IH];
    [reflexivity|].
  etrans; [apply (pr_catalog _ _ _ _ Hres)|].
  etrans; [apply (same_catalog_set_global (global_schedule self ++ sched))|exact IH].
Qed.

Lemma phases_run_Forall (Q : Scheduler -> Event -> Prop) self groups scheds self' :
  (forall s s' e, same_catalog s s' -> Q s' e -> Q s e) ->
  (forall self courses sched self1,
     phase_result self courses sched self1 -> Forall (Q self) sched) ->
  phases_run self groups scheds self' -> Forall (Q self) (concat scheds).
Proof.
  intros Hcat Hphase.
  induction 1 as [self|self courses groups sched scheds self1 self' Hres Hrun IH]; simpl;
    [constructor|].
  apply Forall_app. split; [by eapply Hphase|].
  eapply Forall_impl; [exact IH|]. intros e. apply Hcat.
  etrans; [apply (pr_catalog _ _ _ _ Hres)|apply same_catalog_set_global].
Qed.

Lemma shape_of_course (courses : list Course) (sched : list Event) e :
  event_shape <$> sched = courses ≫= course_shapes -> e ∈ sched ->
  exists course, course ∈ courses /\ event_shape e ∈ course_shapes course.
Proof.
  intros Hshapes He. apply (list_elem_of_fmap_2 event_shape) in He.
  rewrite Hshapes in He. apply list_elem_of_bind in He as (course & He & Hc).
  by exists course.
Qed.

Lemma phases_run_pairwise (R : Event -> Event -> Prop) (Q : Course -> Course -> Prop)
    self groups scheds self' :
  (forall self courses sched self1,
     phase_result self courses sched self1 -> pairwise R sched) ->
  (forall c1 c2 e1 e2,
     Q c1 c2 -> event_shape e1 ∈ course_shapes c1 -> event_shape e2 ∈ course_shapes c2 ->
     R e1 e2 /\ R e2 e1) ->
  pairwise (fun g1 g2 => forall c1 c2, c1 ∈ g1 -> c2 ∈ g2 -> Q c1 c2) groups ->
  phases_run self groups scheds self' -> pairwise R (concat scheds).
Proof.
  intros Hphase Hcross Hsep Hrun. revert Hsep.
  induction Hrun as [self|self courses groups sched scheds self1 self' Hres Hrun IH];
    intros Hsep; simpl; [apply pairwise_nil|].
  apply pairwise_cons in Hsep as [Hhead Hsep].
  apply pairwise_app; [by eapply Hphase|by apply IH|].
  intros x y Hx Hy.
  destruct (shape_of_course _ _ _ (pr_shapes _ _ _ _ Hres) Hx) as (c1 & Hc1 & Hs1).
  destruct (shape_of_course _ _ _ (phases_run_shapes _ _ _ _ Hrun) Hy) as (c2 & Hc2 & Hs2).
  apply elem_of_concat in Hc2 as (g2 & Hc2 & Hg2).
  destruct (Hhead g2 Hg2) as [HQ _].
  eapply Hcross; [|done..]. by apply HQ.
Qed.

(** ** The groups of a run *)

Lemma pairwise_filter {A} (R : A -> A -> Prop) (P : A -> Prop)
    `{forall x, Decision (P x)} (l : list A) :
  pairwise R l -> pairwise R (filter P l).
Proof.
  induction l as [|x l IH]; [done|].
  intros Hl. apply pairwise_cons in Hl as [Hx Hl]. rewrite filter_cons.
  destruct (decide (P x)); [|by apply IH].
  apply pairwise_cons. split; [|by apply IH].
  intros y Hy. apply list_elem_of_filter in Hy as [_ Hy]. by apply Hx.
Qed.

Lemma partition_phase courses p c :
  (p, c) ∈ prioritize_and_partition_courses courses -> p = course_phase c /\ c ∈ courses.
Proof.
  unfold prioritize_and_partition_courses. intros H.
  apply list_elem_of_fmap in H as (x & Hx & Hin).
  rewrite sort_by_key_perm in Hin.
  apply list_elem_of_fmap in Hin as (c' & -> & Hc').
  simpl in Hx. by injection Hx as -> ->.
Qed.

Lemma elem_of_phase_courses_of all p c :
  c ∈ phase_courses_of all p <-> (p, c) ∈ all.
Proof.
  unfold phase_courses_of. rewrite list_elem_of_fmap. split.
  - intros ([p' c'] & -> & Hin). apply list_elem_of_filter in Hin as [Hp Hin].
    simpl in Hp. by rewrite <- Hp.
  - intros Hin. exists (p, c). split; [done|]. by apply list_elem_of_filter.
Qed.

Lemma phase_groups_phases courses :
  pairwise (fun g1 g2 => forall c1 c2, c1 ∈ g1 -> c2 ∈ g2 ->
                                       course_phase c1 <> course_phase c2 /\
                                       c1 ∈ courses /\ c2 ∈ courses)
           (phase_groups (prioritize_and_partition_courses courses)).
Proof.
  rewrite phase_groups_by_value. apply pairwise_filter.
  set (all := prioritize_and_partition_courses courses).
  assert (forall p c, c ∈ phase_courses_of all p -> course_phase c = p /\ c ∈ courses)
    as Hp.
  { intros p c Hc. apply elem_of_phase_courses_of, partition_phase in Hc as [-> ?]. done. }
  rewrite !fmap_cons, fmap_nil.
  repeat (apply pairwise_cons; split); try apply pairwise_nil;
    intros g Hg; repeat (apply elem_of_cons in Hg as [->|Hg]);
    try (by apply elem_of_nil in Hg);
    split; intros c1 c2 H1 H2; apply Hp in H1 as [H1 ?], H2 as [H2 ?];
    (split; [congruence|done]).
Qed.

Lemma pairwise_impl {A} (R R' : A -> A -> Prop) (l : list A) :
  (forall x y, R x y -> R' x y) -> pairwise R l -> pairwise R' l.
Proof. intros Himpl H i j x y Hij Hi Hj. apply Himpl. by eapply H. Qed.

Lemma groups_by_code (groups : list (list Course)) :
  NoDup (courseCode <$> concat groups) ->
  pairwise (fun g1 g2 => forall c1 c2, c1 ∈ g1 -> c2 ∈ g2 -> courseCode c1 <> courseCode c2)
           groups.
Proof.
  induction groups as [|g groups IH]; [intros _; apply pairwise_nil|].
  simpl. rewrite fmap_app. intros Hnd. apply NoDup_app in Hnd as (_ & Hdisj & Hnd).
  apply pairwise_cons. split; [|by apply IH].
  assert (forall g2 c1 c2, g2 ∈ groups -> c1 ∈ g -> c2 ∈ g2 ->
                           courseCode c1 <> courseCode c2) as Hne.
  { intros g2 c1 c2 Hg2 H1 H2 Heq. apply (Hdisj (courseCode c1)).
    - by apply list_elem_of_fmap_2.
    - rewrite Heq. apply list_elem_of_fmap_2, elem_of_concat. by exists g2. }
  intros g2 Hg2. split; intros c1 c2 H1 H2.
  - by eapply Hne.
  - intros Heq. by eapply (Hne g2 c2 c1).
Qed.

Lemma phase_groups_codes courses :
  NoDup (courseCode <$> courses) ->
  NoDup (courseCode <$> concat (phase_groups (prioritize_and_partition_courses courses))).
Proof.
  intros Hnd. by rewrite phase_groups_concat, partition_courses_perm.
Qed.

(** ** The shape of an event *)

Lemma elem_of_course_shapes course (sh : Shape) :
  sh ∈ course_shapes course <->
  exists b, (b < blocks course)%nat /\
    ((0 < unitsLecture course)%nat /\
     sh = (courseCode course, title course, program course, yearLevel course,
           block_letter b, lecture, 2)
     \/ (0 < unitsLab course)%nat /\
        sh = (courseCode course, title course, program course, yearLevel course,
              block_letter b, lab, 3)).
Proof.
  unfold course_shapes, block_shapes. rewrite list_elem_of_bind. split.
  - intros (b & Hsh & Hb). apply elem_of_seq in Hb. exists b. split; [lia|].
    apply elem_of_app in Hsh as [Hsh|Hsh]; apply elem_of_replicate in Hsh as [-> Hn];
      [left|right]; (split; [lia|done]).
  - intros (b & Hb & Hsh). exists b. split; [|apply elem_of_seq; lia].
    apply elem_of_app.
    destruct Hsh as [[Hn ->]|[Hn ->]]; [left|right]; apply elem_of_replicate;
      (split; [done|lia]).
Qed.

(** ** What a run guarantees *)

Lemma run_Forall (Q : Scheduler -> Event -> Prop) pid cat answers schedule :
  (forall s s' e, same_catalog s s' -> Q s' e -> Q s e) ->
  (forall self courses sched self1,
     phase_result self courses sched self1 -> Forall (Q self) sched) ->
  internal_schedule pid cat answers = Some schedule ->
  exists courses rs ts ds self0,
    load_courses cat = Ret courses /\ load_rooms cat = Ret rs /\
    load_time_settings cat = Ret ts /\ load_days cat = Ret ds /\
    loaded courses rs ts ds self0 /\ Forall (Q self0) schedule.
Proof.
  intros Hcat Hphase H.
  apply internal_schedule_trace in H
    as (courses & rs & ts & ds & self0 & scheds & self1 & Hc & Hr & Ht & Hd & Hl & Hrun
        & Hperm).
  exists courses, rs, ts, ds, self0. split_and!; try done.
  rewrite Hperm. by eapply phases_run_Forall.
Qed.

Lemma run_pairwise (R : Event -> Event -> Prop) (Q : Course -> Course -> Prop)
    pid cat answers schedule courses :
  (forall self courses sched self1,
     phase_result self courses sched self1 -> pairwise R sched) ->
  (forall c1 c2 e1 e2,
     Q c1 c2 -> event_shape e1 ∈ course_shapes c1 -> event_shape e2 ∈ course_shapes c2 ->
     R e1 e2 /\ R e2 e1) ->
  pairwise (fun g1 g2 => forall c1 c2, c1 ∈ g1 -> c2 ∈ g2 -> Q c1 c2)
           (phase_groups (prioritize_and_partition_courses courses)) ->
  load_courses cat = Ret courses ->
  internal_schedule pid cat answers = Some schedule ->
  pairwise R schedule.
Proof.
  intros Hphase Hcross Hsep Hc H.
  apply internal_schedule_trace in H
    as (courses' & rs & ts & ds & self0 & scheds & self1 & Hc' & _ & _ & _ & _ & Hrun
        & Hperm).
  rewrite Hc in Hc'. injection Hc' as <-.
  eapply pairwise_Permutation; [symmetry; exact Hperm|].
  by eapply phases_run_pairwise.
Qed.

Lemma shapes_from_courses (courses : list Course) (schedule : list Event) :
  event_shape <$> schedule ≡ₚ courses ≫= course_shapes ->
  Forall (fun e => e_session e = session_word (e_room_type e)) schedule ->
  Forall (from_course courses) schedule.
Proof.
  intros Hshapes Hwords. rewrite Forall_forall in Hwords.
  apply Forall_forall. intros e He. specialize (Hwords _ He).
  apply (list_elem_of_fmap_2 event_shape) in He. rewrite Hshapes in He.
  apply list_elem_of_bind in He as (course & Hsh & Hcourse).
  apply elem_of_course_shapes in Hsh as (b & Hb & Hsh).
  exists course, b. unfold event_shape in Hsh.
  destruct Hsh as [[Hn Hsh]|[Hn Hsh]]; injection Hsh as ? ? ? ? ? Ht ?;
    rewrite Ht in Hwords; (split_and!; try done); [left|right]; done.
Qed.

(** X3.  Every event of a schedule belongs to a block of a course of the
    catalog: it carries the course's code, title, program and year, the
    letter of one of the course's blocks, and it is either a lecture
    meeting of two slots of a course with lecture units or a laboratory
    meeting of three slots of a course with laboratory units. *)
Theorem events_come_from_courses (pid : option string) (cat : Catalog)
    (answers : list (option Assignment)) (schedule : list Event) :
  internal_schedule pid cat answers = Some schedule ->
  exists courses,
    load_courses cat = Ret courses /\ Forall (from_course courses) schedule.
Proof.
  intros H. apply run_shapes in H as (courses & Hc & Hshapes & Hwords).
  exists courses. split; [exact Hc|].
  by apply shapes_from_courses.
Qed.

Lemma events_come_from_courses_witness :
  internal_schedule demo_pid demo_catalog demo_answers = Some demo_schedule /\
  Forall (from_course demo_courses) demo_schedule.
Proof.
  assert (internal_schedule demo_pid demo_catalog demo_answers = Some demo_schedule) as H
    by (vm_compute; reflexivity).
  split; [exact H|].
  destruct (events_come_from_courses demo_pid demo_catalog demo_answers demo_schedule H)
    as (courses & Hc & Hall).
  injection Hc as <-. exact Hall.
Defined.

(** X4.  When the course codes of the catalog are pairwise different, the
    schedule holds, for every block of every course, exactly
    [unitsLecture] events with session ["Lecture"] and exactly
    [2 * unitsLab] events with session ["Laboratory"]. *)
Theorem meeting_counts (pid : option string) (cat : Catalog)
    (answers : list (option Assignment)) (schedule : list Event) (courses : list Course) :
  internal_schedule pid cat answers = Some schedule ->
  load_courses cat = Ret courses ->
  NoDup (courseCode <$> courses) ->
  forall course b, course ∈ courses -> (b < blocks course)%nat ->
    length (meetings_of course b "Lecture" schedule) = unitsLecture course /\
    length (meetings_of course b "Laboratory" schedule) = (2 * unitsLab course)%nat.
Proof.
  intros H Hc Hnd course b Hcourse Hb.
  apply run_shapes in H as (courses' & Hc' & Hshapes & Hwords).
  rewrite Hc in Hc'. injection Hc' as <-.
  assert (forall t,
            length (meetings_of course b (session_word t) schedule) =
            length (shapes_of (courseCode course) (block_letter b) t
                      (courses ≫= course_shapes))) as Hcount.
  { intros t. unfold meetings_of, shapes_of. rewrite <- Hshapes.
    apply length_filter_fmap. intros e He. rewrite Forall_forall in Hwords.
    rewrite (Hwords _ He). unfold event_shape. simpl.
    split; intros (? & ? & Ht); split_and!; try done.
    - by destruct t, (e_room_type e).
    - by rewrite Ht. }
  pose proof (Hcount lecture) as Hlec. pose proof (Hcount lab) as Hlab.
  rewrite shapes_of_courses in Hlec, Hlab by done.
  change (session_word lecture) with "Lecture"%string in Hlec.
  change (session_word lab) with "Laboratory"%string in Hlab.
  split; [done|]. rewrite Hlab. lia.
Qed.

Lemma meeting_counts_witness :
  length (meetings_of demo_cs201 0 "Lecture" demo_schedule) = 1%nat /\
  length (meetings_of demo_cs201 0 "Laboratory" demo_schedule) = 2%nat.
Proof.
  apply (meeting_counts demo_pid demo_catalog demo_answers demo_schedule demo_courses).
  - vm_compute. reflexivity.
  - reflexivity.
  - apply (bool_decide_unpack _). vm_compute. exact I.
  - apply list_elem_of_further, list_elem_of_here.
  - simpl. lia.
Defined.

(** X5.  When the courses that share a program and a year all fall into
    one phase, any two events at different positions of the schedule that
    belong to one section (program, year, block) occupy disjoint slot
    intervals. *)
Theorem section_exclusivity_one_phase (pid : option string) (cat : Catalog)
    (answers : list (option Assignment)) (schedule : list Event) (courses : list Course) :
  internal_schedule pid cat answers = Some schedule ->
  load_courses cat = Ret courses ->
  (forall c1 c2, c1 ∈ courses -> c2 ∈ courses ->
     program c1 = program c2 -> yearLevel c1 = yearLevel c2 ->
     course_phase c1 = course_phase c2) ->
  section_exclusive schedule /\
  (forall e1 e2,
     e1 ∈ schedule -> e2 ∈ schedule -> e1 <> e2 ->
     e_program e1 = e_program e2 -> e_year e1 = e_year e2 -> e_block e1 = e_block e2 ->
     slots_needed (e_start_slot e1) (e_duration e1)
       ## slots_needed (e_start_slot e2) (e_duration e2)).
Proof.
  intros H Hc Hphase.
  assert (section_exclusive schedule) as Hex.
  { eapply (run_pairwise _
              (fun c1 c2 => ~ (program c1 = program c2 /\ yearLevel c1 = yearLevel c2)));
      [| | |exact Hc|exact H]; cycle 2.
    - eapply pairwise_impl; [|apply (phase_groups_phases courses)].
      intros g1 g2 Hg c1 c2 H1 H2 [Hp Hy].
      destruct (Hg c1 c2 H1 H2) as (Hne & Hc1 & Hc2). apply Hne. by apply Hphase.
    - intros self cs sched self1 Hres. apply (pr_section_exclusive _ _ _ _ Hres).
    - intros c1 c2 e1 e2 HQ Hs1 Hs2.
      apply elem_of_course_shapes in Hs1 as (b1 & _ & Hs1).
      apply elem_of_course_shapes in Hs2 as (b2 & _ & Hs2).
      unfold event_shape in Hs1, Hs2.
      assert (e_program e1 = program c1 /\ e_year e1 = yearLevel c1) as [Hp1 Hy1]
        by (destruct Hs1 as [[_ Hs1]|[_ Hs1]]; by injection Hs1).
      assert (e_program e2 = program c2 /\ e_year e2 = yearLevel c2) as [Hp2 Hy2]
        by (destruct Hs2 as [[_ Hs2]|[_ Hs2]]; by injection Hs2).
      split; intros Hkey; unfold event_section_key in Hkey; injection Hkey as Hp Hy _;
        destruct HQ; split; congruence. }
  split; [done|].
  intros e1 e2 H1 H2 Hne Hp Hy Hb. apply slots_apart_disjoint.
  apply (pairwise_elem_of _ schedule e1 e2 Hex H1 H2 Hne).
  unfold event_section_key. congruence.
Qed.

Lemma section_exclusivity_one_phase_witness : section_exclusive demo_schedule.
Proof.
  apply (section_exclusivity_one_phase demo_pid demo_catalog demo_answers demo_schedule
           demo_courses).
  - vm_compute. reflexivity.
  - reflexivity.
  - intros c1 c2 H1 H2 _ Hy.
    apply elem_of_cons in H1 as [->|H1]; [|apply list_elem_of_singleton in H1 as ->];
      (apply elem_of_cons in H2 as [->|H2]; [|apply list_elem_of_singleton in H2 as ->]);
      first [reflexivity|discriminate Hy].
Defined.

Lemma run_room_consistent pid cat answers schedule courses :
  internal_schedule pid cat answers = Some schedule ->
  load_courses cat = Ret courses ->
  NoDup (courseCode <$> courses) ->
  room_consistent schedule.
Proof.
  intros H Hc Hnd.
  eapply (run_pairwise _ (fun c1 c2 => courseCode c1 <> courseCode c2));
    [| |exact (groups_by_code _ (phase_groups_codes _ Hnd))|exact Hc|exact H].
  - intros self cs sched self1 Hres. apply (pr_room_consistent _ _ _ _ Hres).
  - intros c1 c2 e1 e2 HQ Hs1 Hs2.
    apply elem_of_course_shapes in Hs1 as (b1 & _ & Hs1).
    apply elem_of_course_shapes in Hs2 as (b2 & _ & Hs2).
    unfold event_shape in Hs1, Hs2.
    assert (e_baseCourseCode e1 = courseCode c1) as Hc1
      by (destruct Hs1 as [[_ Hs1]|[_ Hs1]]; by injection Hs1).
    assert (e_baseCourseCode e2 = courseCode c2) as Hc2
      by (destruct Hs2 as [[_ Hs2]|[_ Hs2]]; by injection Hs2).
    split; intros Hkey; unfold event_course_key in Hkey; injection Hkey as Hcode _;
      destruct HQ; congruence.
Qed.

Lemma run_rooms pid cat answers schedule :
  internal_schedule pid cat answers = Some schedule ->
  exists rs,
    load_rooms cat = Ret rs /\
    Forall (fun e => exists names,
                rooms_get rs (e_room_type e) = Some names /\
                0 <= e_room_idx e < Z.of_nat (length names) /\
                py_index names (e_room_idx e) = Ret (e_room e)) schedule.
Proof.
  intros H.
  apply (run_Forall (fun self e => exists names,
                         rooms_get (rooms self) (e_room_type e) = Some names /\
                         0 <= e_room_idx e < Z.of_nat (length names) /\
                         py_index names (e_room_idx e) = Ret (e_room e))) in H
    as (courses & rs & ts & ds & self0 & _ & Hr & _ & _ & Hl & Hall).
  - exists rs. split; [done|]. by rewrite <- (ld_rooms _ _ _ _ _ Hl).
  - intros s s' e (_ & _ & Hrooms & _). by rewrite Hrooms.
  - intros self cs sched self1 Hres. apply (pr_rooms _ _ _ _ Hres).
Qed.

(** X6.  Every event of a schedule names a room of the catalog: its room
    index is a valid position in the room list of its session type, and
    its [room] is the name at that position. *)
Theorem events_use_catalog_rooms (pid : option string) (cat : Catalog)
    (answers : list (option Assignment)) (schedule : list Event) :
  internal_schedule pid cat answers = Some schedule ->
  exists rs, load_rooms cat = Ret rs /\ Forall (in_catalog_room rs) schedule.
Proof.
  intros H. apply run_rooms in H as (rs & Hr & Hall).
  exists rs. split; [done|]. eapply Forall_impl; [exact Hall|].
  intros e (names & Hn & Hidx & Hroom). exists names. split; [done|]. split; [done|].
  unfold py_index in Hroom. rewrite bool_decide_eq_true_2 in Hroom by done.
  by destruct (names !! Z.to_nat (e_room_idx e)); simplify_eq/=.
Qed.

Lemma events_use_catalog_rooms_witness :
  internal_schedule demo_pid demo_catalog demo_answers = Some demo_schedule /\
  Forall (in_catalog_room demo_rooms) demo_schedule.
Proof.
  assert (internal_schedule demo_pid demo_catalog demo_answers = Some demo_schedule) as H
    by (vm_compute; reflexivity).
  split; [exact H|].
  destruct (events_use_catalog_rooms demo_pid demo_catalog demo_answers demo_schedule H)
    as (rs & Hr & Hall).
  injection Hr as <-. exact Hall.
Defined.

(** X7.  When the course codes of the catalog are pairwise different, all
    lecture meetings of a block of a course are held in one room, and so
    are all its laboratory meetings: two events returned with the same
    base course code, block and session have the same room. *)
Theorem same_course_same_room (pid : option string) (cat : Catalog)
    (answers : list (option Assignment)) (events : list PublicEvent)
    (courses : list Course) :
  returned (generate_schedule pid cat answers) = Schedule events ->
  load_courses cat = Ret courses ->
  NoDup (courseCode <$> courses) ->
  forall p1 p2, p1 ∈ events -> p2 ∈ events ->
    baseCourseCode_of p1 = baseCourseCode_of p2 ->
    block_of p1 = block_of p2 ->
    session_of p1 = session_of p2 ->
    room_of p1 = room_of p2.
Proof.
  intros Hret Hc Hnd p1 p2 Hp1 Hp2 Hcode Hblock Hsession.
  rewrite generate_schedule_returned in Hret.
  destruct (internal_schedule pid cat answers) as [schedule|] eqn:Hint; [|done].
  injection Hret as <-.
  apply list_elem_of_fmap in Hp1 as (e1 & -> & He1).
  apply list_elem_of_fmap in Hp2 as (e2 & -> & He2).
  simpl in *.
  pose proof (run_room_consistent _ _ _ _ _ Hint Hc Hnd) as Hrc.
  destruct (run_rooms _ _ _ _ Hint) as (rs & _ & Hrooms).
  destruct (run_shapes _ _ _ _ Hint) as (courses' & Hc' & Hshapes & Hwords).
  rewrite Hc in Hc'. injection Hc' as <-.
  pose proof (shapes_from_courses _ _ Hshapes Hwords) as Hfrom.
  rewrite Forall_forall in Hrooms, Hfrom.
  destruct (Hfrom _ He1) as (c1 & b1 & Hc1 & _ & Hcode1 & _ & Hprog1 & Hyr1 & _ & Hkind1).
  destruct (Hfrom _ He2) as (c2 & b2 & Hc2 & _ & Hcode2 & _ & Hprog2 & Hyr2 & _ & Hkind2).
  assert (c1 = c2) as <-.
  { eapply (NoDup_fmap_eq courseCode); [exact Hnd|done..|congruence]. }
  assert (e_room_type e1 = e_room_type e2) as Htype.
  { destruct Hkind1 as [(_ & Hw1 & Ht1 & _)|(_ & Hw1 & Ht1 & _)],
             Hkind2 as [(_ & Hw2 & Ht2 & _)|(_ & Hw2 & Ht2 & _)];
      rewrite ?Ht1, ?Ht2; try done; rewrite Hw1, Hw2 in Hsession; done. }
  assert (e_room_idx e1 = e_room_idx e2) as Hidx.
  { apply list_elem_of_lookup in He1 as [i Hi]. apply list_elem_of_lookup in He2 as [j Hj].
    destruct (decide (i = j)) as [->|Hij]; [congruence|].
    apply (Hrc i j e1 e2 Hij Hi Hj). unfold event_course_key. congruence. }
  destruct (Hrooms _ He1) as (n1 & Hn1 & _ & Hr1).
  destruct (Hrooms _ He2) as (n2 & Hn2 & _ & Hr2).
  rewrite Htype, Hn2 in Hn1. injection Hn1 as <-.
  rewrite Hidx, Hr2 in Hr1. by injection Hr1.
Qed.

Lemma same_course_same_room_witness :
  returned (generate_schedule demo_pid demo_catalog demo_answers)
  = Schedule (strip_internal <$> demo_schedule) /\
  forall p1 p2,
    p1 ∈ strip_internal <$> demo_schedule -> p2 ∈ strip_internal <$> demo_schedule ->
    baseCourseCode_of p1 = baseCourseCode_of p2 ->
    block_of p1 = block_of p2 ->
    session_of p1 = session_of p2 ->
    room_of p1 = room_of p2.
Proof.
  assert (returned (generate_schedule demo_pid demo_catalog demo_answers)
          = Schedule (strip_internal <$> demo_schedule)) as H
    by (vm_compute; reflexivity).
  split; [exact H|].
  apply (same_course_same_room demo_pid demo_catalog demo_answers
           (strip_internal <$> demo_schedule) demo_courses H).
  - reflexivity.
  - apply (bool_decide_unpack _). vm_compute. exact I.
Defined.

Lemma phase_durations self courses sched self1 :
  phase_result self courses sched self1 ->
  Forall (fun e => e_duration e = match e_room_type e with
                                  | lecture => 2
                                  | lab => 3
                                  end) sched.
Proof.
  intros Hres. apply Forall_forall. intros e He.
  destruct (shape_of_course _ _ _ (pr_shapes _ _ _ _ Hres) He) as (c & _ & Hsh).
  apply elem_of_course_shapes in Hsh as (b & _ & Hsh). unfold event_shape in Hsh.
  destruct Hsh as [[_ Hsh]|[_ Hsh]]; injection Hsh as _ _ _ _ _ -> ->; done.
Qed.

Lemma elem_of_compute_lab_starts inc n s :
  s ∈ compute_lab_starts inc n <->
  exists d, 0 <= d < Z.of_nat n /\ d * inc <= s /\ s + 3 <= (d + 1) * inc.
Proof.
  unfold compute_lab_starts. rewrite list_elem_of_bind. split.
  - intros (d & Hs & Hd). apply elem_of_py_range2 in Hs. apply elem_of_py_range in Hd.
    exists d. lia.
  - intros (d & Hd & Hs). exists d. rewrite elem_of_py_range2, elem_of_py_range. lia.
Qed.

(** Where the builder lets an event start, in terms of the scheduler. *)
Lemma run_placed pid cat answers schedule :
  internal_schedule pid cat answers = Some schedule ->
  exists courses rs ts ds self0,
    load_time_settings cat = Ret ts /\ load_days cat = Ret ds /\
    loaded courses rs ts ds self0 /\
    Forall (fun e =>
              (exists d, 0 <= d < Z.of_nat (length (days self0)) /\
                         d * inc_day self0 <= e_start_slot e < (d + 1) * inc_day self0 /\
                         py_index (days self0) d = Ret (e_day e)) /\
              e_start_slot e ∈ search_space self0 (e_duration e)
                                 (bool_decide (e_room_type e = lab)) /\
              e_duration e = match e_room_type e with
                             | lecture => 2
                             | lab => 3
                             end) schedule.
Proof.
  intros H.
  apply (run_Forall (fun self e =>
           (exists d, 0 <= d < Z.of_nat (length (days self)) /\
                      d * inc_day self <= e_start_slot e < (d + 1) * inc_day self /\
                      py_index (days self) d = Ret (e_day e)) /\
           e_start_slot e ∈ search_space self (e_duration e)
                              (bool_decide (e_room_type e = lab)) /\
           e_duration e = match e_room_type e with
                          | lecture => 2
                          | lab => 3
                          end)) in H
    as (courses & rs & ts & ds & self0 & _ & _ & Ht & Hd & Hl & Hall).
  - by exists courses, rs, ts, ds, self0.
  - intros s s' e (_ & _ & _ & Hdays & _ & _ & _ & Hinc & Htot & Hlab & _).
    unfold search_space. by rewrite Hdays, Hinc, Htot, Hlab.
  - intros self cs sched self1 Hres.
    pose proof (pr_days _ _ _ _ Hres) as Hdays.
    pose proof (pr_starts _ _ _ _ Hres) as Hstarts.
    pose proof (phase_durations _ _ _ _ Hres) as Hdur.
    rewrite Forall_forall in Hdays, Hstarts, Hdur. apply Forall_forall. intros e He.
    split_and!; [by apply Hdays|by apply Hstarts|by apply Hdur].
Qed.

Lemma placed_on_grid courses rs ts ds self0 e d :
  loaded courses rs ts ds self0 ->
  0 <= d < Z.of_nat (length (days self0)) ->
  d * inc_day self0 <= e_start_slot e < (d + 1) * inc_day self0 ->
  py_index (days self0) d = Ret (e_day e) ->
  e_start_slot e ∈ search_space self0 (e_duration e) (bool_decide (e_room_type e = lab)) ->
  e_duration e = match e_room_type e with
                 | lecture => 2
                 | lab => 3
                 end ->
  on_grid ts ds e.
Proof.
  intros Hl Hd1 Hd2 Hday Hspace Hdur.
  unfold on_grid. simpl. unfold search_space in Hspace.
  rewrite (ld_lab_starts _ _ _ _ _ Hl), (ld_total_inc _ _ _ _ _ Hl) in Hspace.
  rewrite (ld_days _ _ _ _ _ Hl) in Hd1, Hday.
  rewrite (ld_inc_day _ _ _ _ _ Hl) in Hd2, Hspace.
  set (inc := (end_time ts - start_time ts) * 2) in *.
  assert (0 < inc) as Hinc by nia.
  assert (e_start_slot e `div` inc = d) as Hdiv.
  { symmetry. apply (Z.div_unique_pos _ _ d (e_start_slot e - d * inc)); lia. }
  split_and!.
  - done.
  - nia.
  - destruct (e_room_type e).
    + rewrite bool_decide_eq_false_2 in Hspace by done.
      apply elem_of_py_range in Hspace. lia.
    + rewrite bool_decide_eq_true_2 in Hspace by done.
      apply elem_of_compute_lab_starts in Hspace as (d' & ? & ? & ?). nia.
  - rewrite Hdiv. unfold py_index in Hday. rewrite bool_decide_eq_true_2 in Hday by done.
    by destruct (ds !! Z.to_nat d); simplify_eq/=.
  - intros Hlab. rewrite Hlab in Hdur, Hspace.
    rewrite bool_decide_eq_true_2 in Hspace by done.
    apply elem_of_compute_lab_starts in Hspace as (d' & ? & ? & ?).
    unfold day_confined. rewrite Hdiv, Hdur.
    assert (d' = d) as -> by nia.
    apply (Z.div_unique_pos _ _ d (e_start_slot e + 3 - 1 - d * inc)); lia.
  - intros Hlab. rewrite Hlab in Hspace.
    by rewrite bool_decide_eq_true_2 in Hspace.
Qed.

Lemma run_grid pid cat answers schedule :
  internal_schedule pid cat answers = Some schedule ->
  exists ts ds,
    load_time_settings cat = Ret ts /\ load_days cat = Ret ds /\
    Forall (on_grid ts ds) schedule.
Proof.
  intros H. apply run_placed in H as (courses & rs & ts & ds & self0 & Ht & Hd & Hl & Hall).
  exists ts, ds. split_and!; [done..|].
  eapply Forall_impl; [exact Hall|].
  intros e ((d & Hd1 & Hd2 & Hday) & Hspace & Hdur). by eapply placed_on_grid.
Qed.

(** X8.  Every event of a schedule lies on the time grid of the catalog:
    its slots are within the week, its [day] is the name of the day in
    which its first slot falls, and a laboratory meeting starts at one of
    the laboratory start slots and ends in the day in which it starts. *)
Theorem events_on_the_grid (pid : option string) (cat : Catalog)
    (answers : list (option Assignment)) (schedule : list Event) :
  internal_schedule pid cat answers = Some schedule ->
  exists ts ds,
    load_time_settings cat = Ret ts /\ load_days cat = Ret ds /\
    Forall (on_grid ts ds) schedule.
Proof.
  intros H. apply run_placed in H as (courses & rs & ts & ds & self0 & Ht & Hd & Hl & Hall).
  exists ts, ds. split; [exact Ht|]. split; [exact Hd|].
  eapply Forall_impl; [exact Hall|].
  intros e ((d & Hd1 & Hd2 & Hday) & Hspace & Hdur).
  exact (placed_on_grid _ _ _ _ _ _ _ Hl Hd1 Hd2 Hday Hspace Hdur).
Qed.

Lemma events_on_the_grid_witness :
  internal_schedule demo_pid demo_catalog demo_answers = Some demo_schedule /\
  Forall (on_grid (mkTimeSettings 8 17) ["Mon"%string]) demo_schedule.
Proof.
  assert (internal_schedule demo_pid demo_catalog demo_answers = Some demo_schedule) as H
    by (vm_compute; reflexivity).
  split; [exact H|].
  destruct (events_on_the_grid demo_pid demo_catalog demo_answers demo_schedule H)
    as (ts & ds & Ht & Hd & Hall).
  injection Ht as <-. injection Hd as <-. exact Hall.
Defined.

Lemma elem_of_both_codes courses code :
  code ∈ both_codes courses <-> has_both_parts courses code.
Proof.
  unfold both_codes, has_both_parts. rewrite elem_of_list_to_set, list_elem_of_fmap. split.
  - intros (c & -> & Hc). apply list_elem_of_filter in Hc as [Hboth Hc].
    apply andb_true_iff in Hboth as [H1 H2]. unfold has_lecture, has_lab in *.
    apply bool_decide_eq_true in H1, H2. by exists c.
  - intros (c & Hc & <- & H1 & H2). exists c. split; [done|].
    apply list_elem_of_filter. split; [|done].
    unfold has_lecture, has_lab. by rewrite !bool_decide_eq_true_2.
Qed.

(** X9.  The displayed course code of an event is its base code followed
    by ["A"] (lecture) or ["L"] (laboratory) when some course of the
    catalog with that code has both lecture and laboratory units, and the
    base code itself otherwise. *)
Theorem display_codes (pid : option string) (cat : Catalog)
    (answers : list (option Assignment)) (schedule : list Event) :
  internal_schedule pid cat answers = Some schedule ->
  exists courses,
    load_courses cat = Ret courses /\ Forall (code_displayed courses) schedule.
Proof.
  intros H.
  apply (run_Forall (fun self e =>
           e_courseCode e = display_code (courses_with_both self) (e_baseCourseCode e)
                              (e_room_type e))) in H
    as (courses & rs & ts & ds & self0 & Hc & _ & _ & _ & Hl & Hall).
  - exists courses. split; [done|].
    eapply Forall_impl; [exact Hall|]. intros e He. unfold code_displayed.
    rewrite (ld_both _ _ _ _ _ Hl) in He. unfold display_code in He.
    split; intros Hboth.
    + rewrite bool_decide_eq_true_2 in He by (by apply elem_of_both_codes).
      rewrite He. by destruct (e_room_type e).
    + rewrite bool_decide_eq_false_2 in He; [done|]. by rewrite elem_of_both_codes.
  - intros s s' e Hcat. unfold same_catalog in Hcat.
    destruct Hcat as (_ & _ & _ & _ & _ & _ & _ & _ & _ & _ & Hcb). by rewrite Hcb.
  - intros self cs sched self1 Hres. apply (pr_codes _ _ _ _ Hres).
Qed.

Lemma display_codes_witness :
  internal_schedule demo_pid demo_catalog demo_answers = Some demo_schedule /\
  Forall (code_displayed demo_courses) demo_schedule.
Proof.
  assert (internal_schedule demo_pid demo_catalog demo_answers = Some demo_schedule) as H
    by (vm_compute; reflexivity).
  split; [exact H|].
  destruct (display_codes demo_pid demo_catalog demo_answers demo_schedule H)
    as (courses & Hc & Hall).
  injection Hc as <-. exact Hall.
Defined.

(** ** The outcome of a call *)

Lemma solve_progress self self' r :
  solve self = (self', r) ->
  process_id self' = process_id self /\
  (truthy (process_id self) = false -> progress_state self' = progress_state self) /\
  (truthy (process_id self) = true ->
   match r with
   | Ret (Some _) =>
       exists mid, progress_state self' = progress_state self ++ [52] ++ mid ++ [95]
   | Ret None => exists before, progress_state self' = before ++ [-1]
   | Raise => True
   end).
Proof.
  unfold solve. destruct (solve_sorted self) as [self1 r1] eqn:Hsorted.
  apply solve_sorted_progress in Hsorted as [(Hp & written & Hw & Hq) Hlast].
  assert (process_id (update_progress 52 self) = process_id self) as Hp52
    by apply update_progress_extends.
  rewrite Hp52 in Hp, Hq.
  assert (truthy (process_id self) = false -> progress_state self1 = progress_state self)
    as Hquiet.
  { intros Hf. rewrite Hw, (Hq Hf), app_nil_r. unfold update_progress. by rewrite Hf. }
  destruct r1 as [[combined|]|]; intros [= <- <-].
  - split_and!.
    + rewrite <- Hp. apply update_progress_extends.
    + intros Hf. unfold update_progress. rewrite Hp, Hf. by apply Hquiet.
    + intros Ht. exists written.
      rewrite update_progress_last by (by rewrite Hp).
      rewrite Hw, update_progress_last by done. by rewrite <- !app_assoc.
  - split_and!; [done|done|]. intros Ht. by apply Hlast.
  - by split_and!.
Qed.

(** X10.  A call that does not return a schedule returns ["impossible"]
    and leaves the schedule dictionary as it was; if the call was given a
    process id, the last value it writes to the progress entry is [-1]. *)
Theorem failure_is_reported (pid : option string) (cat : Catalog)
    (answers : list (option Assignment)) :
  returned (generate_schedule pid cat answers) = Impossible ->
  schedule_dict (generate_schedule pid cat answers) = None /\
  (truthy pid = true ->
   exists before, progress_log (generate_schedule pid cat answers) = before ++ [-1]).
Proof.
  unfold generate_schedule.
  destruct (load_data cat (init_scheduler pid answers)) as [self loadr] eqn:Hload.
  apply load_data_progress in Hload as (Hpid & _).
  destruct loadr as [u|].
  - destruct (solve self) as [self' r] eqn:Hsolve.
    apply solve_progress in Hsolve as (Hp & _ & Hlast). rewrite Hpid in Hp, Hlast.
    destruct r as [[sched|]|]; simpl; [done| |].
    + intros _. split; [done|]. intros Ht. by apply Hlast.
    + intros _. split; [done|]. intros Ht. rewrite Hp, Ht. by eexists.
  - simpl. intros _. split; [done|]. intros Ht. rewrite Hpid, Ht. by eexists.
Qed.

Lemma failure_is_reported_witness :
  returned (generate_schedule demo_pid demo_catalog []) = Impossible /\
  schedule_dict (generate_schedule demo_pid demo_catalog []) = None /\
  exists before, progress_log (generate_schedule demo_pid demo_catalog []) = before ++ [-1].
Proof.
  assert (returned (generate_schedule demo_pid demo_catalog []) = Impossible) as H
    by (vm_compute; reflexivity).
  split; [exact H|].
  destruct (failure_is_reported demo_pid demo_catalog [] H) as [Hdict Hlast].
  split; [exact Hdict|]. apply Hlast. reflexivity.
Defined.

(** X11.  A call with a process id that returns a schedule has written
    5, 15, 25, 35, 45, 50 and 52 to the progress entry, then the values of
    its phases, and last 95 and 100. *)
Theorem success_progress (pid : option string) (cat : Catalog)
    (answers : list (option Assignment)) (events : list PublicEvent) :
  returned (generate_schedule pid cat answers) = Schedule events ->
  truthy pid = true ->
  exists mid,
    progress_log (generate_schedule pid cat answers) =
    [5; 15; 25; 35; 45; 50; 52] ++ mid ++ [95; 100].
Proof.
  unfold generate_schedule. intros Hret Ht. revert Hret.
  destruct (load_data cat (init_scheduler pid answers)) as [self loadr] eqn:Hload.
  apply load_data_progress in Hload as (Hpid & n & Hn & _ & H6 & _).
  destruct loadr as [[]|]; [|done].
  rewrite (H6 eq_refl), Ht in Hn.
  destruct (solve self) as [self' r] eqn:Hsolve.
  apply solve_progress in Hsolve as (Hp & _ & Hlast). rewrite Hpid in Hlast.
  destruct r as [[sched|]|]; simpl; [|done..].
  intros _. destruct (Hlast Ht) as (mid & Hmid). exists mid.
  rewrite Ht, Hmid, Hn. simpl. by rewrite <- !app_assoc.
Qed.

Lemma success_progress_witness :
  exists mid,
    progress_log (generate_schedule demo_pid demo_catalog demo_answers) =
    [5; 15; 25; 35; 45; 50; 52] ++ mid ++ [95; 100].
Proof.
  apply (success_progress demo_pid demo_catalog demo_answers
           (strip_internal <$> demo_schedule)).
  - vm_compute. reflexivity.
  - reflexivity.
Defined.

(** X12.  A call without a process id (none, or the empty string) writes
    nothing to the progress entry, whatever its outcome. *)
Theorem no_process_id_no_progress (pid : option string) (cat : Catalog)
    (answers : list (option Assignment)) :
  truthy pid = false ->
  progress_log (generate_schedule pid cat answers) = [].
Proof.
  intros Hf. unfold generate_schedule.
  destruct (load_data cat (init_scheduler pid answers)) as [self loadr] eqn:Hload.
  apply load_data_progress in Hload as (Hpid & n & Hn & _).
  rewrite Hf in Hn.
  destruct loadr as [u|].
  - destruct (solve self) as [self' r] eqn:Hsolve.
    apply solve_progress in Hsolve as (Hp & Hquiet & _). rewrite Hpid in Hp, Hquiet.
    rewrite <- (Hquiet Hf) in Hn.
    destruct r as [[sched|]|]; simpl; rewrite ?Hp, ?Hf; done.
  - simpl. by rewrite Hpid, Hf.
Qed.

Lemma no_process_id_no_progress_witness :
  progress_log (generate_schedule (Some ""%string) demo_catalog demo_answers) = [].
Proof.
  apply (no_process_id_no_progress (Some ""%string) demo_catalog demo_answers).
  reflexivity.
Defined.

Lemma load_data_raises pid answers cat self :
  load_data cat (init_scheduler pid answers) = (self, Raise) ->
  process_id self = pid /\
  progress_state self =
    if truthy pid then
      match load_courses cat, load_rooms cat, load_time_settings cat with
      | Raise, _, _ => [5]
      | Ret _, Raise, _ => [5; 15]
      | Ret _, Ret _, Raise => [5; 15; 25]
      | Ret _, Ret _, Ret _ => [5; 15; 25; 35]
      end
    else [].
Proof.
  unfold load_data.
  destruct (load_courses cat) as [courses|].
  2:{ intros [= <-]. unfold update_progress. simpl.
      destruct (truthy pid) eqn:Hp; simpl; rewrite ?Hp; done. }
  destruct (load_rooms cat) as [rs|].
  2:{ intros [= <-]. unfold update_progress. simpl.
      destruct (truthy pid) eqn:Hp; repeat (simpl; rewrite ?Hp); done. }
  destruct (load_time_settings cat) as [ts|].
  2:{ intros [= <-]. unfold update_progress. simpl.
      destruct (truthy pid) eqn:Hp; repeat (simpl; rewrite ?Hp); done. }
  destruct (load_days cat) as [ds|]; [done|].
  intros [= <-]. unfold update_progress. simpl.
  destruct (truthy pid) eqn:Hp; repeat (simpl; rewrite ?Hp); done.
Qed.

(** X13.  When one of the four loaders of the catalog raises, the call
    returns ["impossible"], leaves the schedule dictionary as it was, and
    (given a process id) has written 5 and then one value for each loader
    that succeeded before the first one that raises (15 for the courses,
    25 for the rooms, 35 for the time settings), followed by [-1]. *)
Theorem loader_failure (pid : option string) (cat : Catalog)
    (answers : list (option Assignment)) :
  load_courses cat = Raise \/ load_rooms cat = Raise \/
  load_time_settings cat = Raise \/ load_days cat = Raise ->
  returned (generate_schedule pid cat answers) = Impossible /\
  schedule_dict (generate_schedule pid cat answers) = None /\
  progress_log (generate_schedule pid cat answers) =
    if truthy pid then
      match load_courses cat, load_rooms cat, load_time_settings cat with
      | Raise, _, _ => [5; -1]
      | Ret _, Raise, _ => [5; 15; -1]
      | Ret _, Ret _, Raise => [5; 15; 25; -1]
      | Ret _, Ret _, Ret _ => [5; 15; 25; 35; -1]
      end
    else [].
Proof.
  intros Hraise. unfold generate_schedule.
  destruct (load_data cat (init_scheduler pid answers)) as [self loadr] eqn:Hload.
  destruct loadr as [u|].
  { apply load_data_Ret in Hload as (? & ? & ? & ? & ? & ? & ? & ? & _).
    destruct Hraise as [?|[?|[?|?]]]; congruence. }
  apply load_data_raises in Hload as [Hpid Hlog].
  simpl. split_and!; [done..|].
  rewrite Hpid, Hlog. destruct (truthy pid); [|done].
  by destruct (load_courses cat), (load_rooms cat), (load_time_settings cat).
Qed.

Lemma loader_failure_witness :
  returned (generate_schedule demo_pid demo_catalog_broken demo_answers) = Impossible /\
  progress_log (generate_schedule demo_pid demo_catalog_broken demo_answers) = [5; 15; -1].
Proof.
  destruct (loader_failure demo_pid demo_catalog_broken demo_answers) as (Hret & _ & Hlog).
  - right. left. reflexivity.
  - split; [exact Hret|exact Hlog].
Defined.

Lemma solve_no_courses self :
  all_courses self = [] ->
  solve self = (update_progress 95 (update_progress 52 self), Ret (Some [])).
Proof.
  intros Hnone. unfold solve, solve_sorted.
  by rewrite update_progress_all_courses, Hnone.
Qed.

(** X14.  With an empty course list the call returns the empty schedule
    and stores the empty dictionary without consulting the solver; with a
    process id, the progress values are those of the loaders followed by
    52, 95 and 100. *)
Theorem empty_catalog (pid : option string) (rs : Rooms) (ts : TimeSettings)
    (ds : list string) (answers : list (option Assignment)) :
  generate_schedule pid (mkCatalog (Ret []) (Ret rs) (Ret ts) (Ret ds)) answers =
  {| returned := Schedule [];
     progress_log := if truthy pid then load_progress ++ [52; 95; 100] else [];
     schedule_dict := Some ∅ |}.
Proof.
  unfold generate_schedule.
  destruct (load_data _ (init_scheduler pid answers)) as [self loadr] eqn:Hload.
  pose proof Hload as Hload'.
  apply load_data_progress in Hload' as (Hpid & n & Hn & _ & H6 & H4).
  destruct loadr as [[]|].
  2:{ unfold load_data in Hload. cbn [load_courses load_rooms load_time_settings load_days]
        in Hload. discriminate Hload. }
  rewrite (H6 eq_refl) in Hn.
  assert (all_courses self = []) as Hnone.
  { unfold load_data in Hload. cbn [load_courses load_rooms load_time_settings load_days]
      in Hload. injection Hload as <-.
    repeat (rewrite update_progress_all_courses; cbn -[update_progress]). done. }
  rewrite (solve_no_courses _ Hnone). unfold dict_of_schedule. simpl. f_equal.
  destruct (truthy pid) eqn:Ht.
  - rewrite !update_progress_last, Hn; [done|by rewrite Hpid|].
    assert (process_id (update_progress 52 self) = process_id self) as ->
      by apply update_progress_extends.
    by rewrite Hpid.
  - unfold update_progress. by rewrite ?Hpid, ?Ht, ?Hpid, ?Ht.
Qed.

(** ** The order of the schedule *)

Lemma StronglySorted_impl_on {A : Type} (R R' : relation A) (P : A -> Prop) (l : list A) :
  (forall x y, P x -> P y -> R x y -> R' x y) ->
  Forall P l -> StronglySorted R l -> StronglySorted R' l.
Proof.
  intros HR HP Hs. rewrite <- (list_fmap_id l).
  by eapply (StronglySorted_fmap_on R R' P id).
Qed.

Lemma solve_sorted_order self self' final :
  solve_sorted self = (self', Ret (Some final)) ->
  global_schedule self = [] ->
  same_catalog self self' /\ StronglySorted (in_final_order (days self')) final.
Proof.
  unfold solve_sorted. intros H Hglob.
  destruct (solve_phases _ _ _ _ _) as [self1 r] eqn:Hrun.
  destruct r as [[combined|]|]; try done.
  destruct (exc_map (final_key self1) combined) as [keyed|] eqn:Hkeys; [|done].
  injection H as <- <-.
  apply solve_phases_trace in Hrun as (scheds & _ & Hrun).
  2:{ by rewrite update_progress_global. }
  apply phases_run_catalog in Hrun. split.
  { etrans; [|exact Hrun]. apply same_setting_catalog, same_setting_update_progress. }
  apply exc_map_Forall2 in Hkeys.
  assert (Forall (fun k => py_list_index (days self1) (e_day k.2) = Ret k.1.1 /\
                           k.1.2 = e_start_slot k.2) keyed) as Hall.
  { clear -Hkeys. induction Hkeys as [|e k es ks He Hrest IH]; [constructor|].
    constructor; [|done]. unfold final_key in He.
    apply exc_bind_Ret in He as (i & Hi & [= <-]). done. }
  match type of Hall with
  | Forall ?P _ =>
      eapply (StronglySorted_fmap_on _ _ P snd); [| |apply (sort_by_key_sorted fst)]
  end.
  - intros [[i1 s1] e1] [[i2 s2] e2] [H1 Hs1] [H2 Hs2] Hle. simpl in *.
    subst s1 s2. by exists i1, i2.
  - by rewrite sort_by_key_perm.
Qed.

Lemma run_final_order pid cat answers schedule :
  internal_schedule pid cat answers = Some schedule ->
  exists ds, load_days cat = Ret ds /\ StronglySorted (in_final_order ds) schedule.
Proof.
  unfold internal_schedule.
  destruct (load_data cat (init_scheduler pid answers)) as [self loadr] eqn:Hload.
  destruct loadr as [u|]; [|done].
  apply load_data_Ret in Hload as (courses & rs & ts & ds & Hc & Hr & Ht & Hd & ->).
  set (self := update_progress 50 _).
  destruct (solve_sorted self) as [self' r] eqn:Hsolve. simpl.
  destruct r as [[sched|]|]; try done. intros [= ->].
  pose proof (loaded_init pid answers courses rs ts ds) as Hloaded. fold self in Hloaded.
  assert (global_schedule self = []) as Hglob.
  { rewrite <- (ld_global _ _ _ _ _ Hloaded). symmetry. apply update_progress_global. }
  apply solve_sorted_order in Hsolve as [Hcat Hsorted]; [|done].
  exists ds. split; [done|].
  assert (days self' = ds) as <-; [|done].
  rewrite <- (ld_days _ _ _ _ _ Hloaded).
  destruct Hcat as (_ & _ & _ & <- & _).
  pose proof (same_setting_update_progress 52 self) as (_ & _ & _ & <- & _). done.
Qed.

Lemma py_list_index_NoDup (ds : list string) n x :
  NoDup ds -> ds !! n = Some x -> py_list_index ds x = Ret (Z.of_nat n).
Proof.
  revert n. induction ds as [|y ds IH]; intros n Hnd Hn; [done|].
  apply NoDup_cons in Hnd as [Hy Hnd]. simpl.
  destruct n as [|n]; simpl in Hn.
  - injection Hn as ->. by rewrite bool_decide_eq_true_2.
  - rewrite bool_decide_eq_false_2.
    + rewrite (IH n) by done. simpl. f_equal. lia.
    + intros ->. apply Hy. by eapply list_elem_of_lookup_2.
Qed.

(** X15.  The events of a schedule are ordered by the position of their
    day in the list of days and, within a day, by start slot; when the
    day names are pairwise different this is the order of the start
    slots, so the schedule is chronological. *)
Theorem schedule_is_ordered (pid : option string) (cat : Catalog)
    (answers : list (option Assignment)) (schedule : list Event) :
  internal_schedule pid cat answers = Some schedule ->
  exists ds,
    load_days cat = Ret ds /\
    StronglySorted (in_final_order ds) schedule /\
    (NoDup ds ->
     StronglySorted (fun e1 e2 => e_start_slot e1 <= e_start_slot e2) schedule).
Proof.
  intros H. destruct (run_final_order _ _ _ _ H) as (ds & Hd & Hsorted).
  exists ds. split_and!; [done..|]. intros Hnd.
  destruct (run_grid _ _ _ _ H) as (ts & ds' & _ & Hd' & Hgrid).
  rewrite Hd in Hd'. injection Hd' as <-.
  eapply StronglySorted_impl_on; [|exact Hgrid|exact Hsorted].
  unfold on_grid.
  intros e1 e2 (Hinc & H01 & _ & Hday1 & _) (_ & H02 & _ & Hday2 & _) Horder.
  simpl in *. destruct Horder as (i1 & i2 & Hi1 & Hi2 & Hle).
  rewrite (py_list_index_NoDup _ _ _ Hnd Hday1) in Hi1.
  rewrite (py_list_index_NoDup _ _ _ Hnd Hday2) in Hi2.
  injection Hi1 as <-. injection Hi2 as <-.
  set (inc := (end_time ts - start_time ts) * 2) in *.
  rewrite !Z2Nat.id in Hle by (apply Z.div_pos; lia).
  unfold key_le in Hle. simpl in Hle.
  destruct Hle as [Hlt|[_ Hle]]; [|done].
  destruct (decide (e_start_slot e1 <= e_start_slot e2)) as [|Hgt]; [done|].
  pose proof (Z.div_le_mono (e_start_slot e2) (e_start_slot e1) inc). lia.
Qed.

Lemma schedule_is_ordered_witness :
  internal_schedule demo_pid demo_catalog demo_answers = Some demo_schedule /\
  StronglySorted (fun e1 e2 => e_start_slot e1 <= e_start_slot e2) demo_schedule.
Proof.
  assert (internal_schedule demo_pid demo_catalog demo_answers = Some demo_schedule) as H
    by (vm_compute; reflexivity).
  split; [exact H|].
  destruct (schedule_is_ordered demo_pid demo_catalog demo_answers demo_schedule H)
    as (ds & Hd & _ & Hchrono).
  injection Hd as <-. apply Hchrono.
  apply (bool_decide_unpack _). vm_compute. exact I.
Defined.

(** ** Time discretization *)

(** X16.  After [setup_time_parameters] a day has [(end - start) * 2]
    slots, the week has that many per day, and the laboratory start slots
    are exactly the slots from which a meeting of three slots ends within
    the same day, in ascending order. *)
Theorem lab_starts_fit_the_day (ts : TimeSettings) (self : Scheduler) :
  let self' := setup_time_parameters ts self in
  inc_day self' = (end_time ts - start_time ts) * 2 /\
  total_inc self' = inc_day self' * Z.of_nat (length (days self)) /\
  StronglySorted Z.lt (lab_starts self') /\
  forall s, s ∈ lab_starts self' <->
            exists d, 0 <= d < Z.of_nat (length (days self)) /\
                      d * inc_day self' <= s /\ s + 3 <= (d + 1) * inc_day self'.
Proof.
  simpl. split_and!; [done|done|apply compute_lab_starts_sorted|].
  intros s. apply elem_of_compute_lab_starts.
Qed.

(** ** The occupancy ledger *)

(** X17.  [get_available_rooms] raises exactly when the catalog has no
    room list for the session type; otherwise it returns, in ascending
    order, the indices of the rooms of that type whose ledger holds none
    of the slots [start .. start + duration - 1]. *)
Theorem available_rooms_spec (self : Scheduler) (room_type : SessType) (start duration : Z) :
  match rooms_get (rooms self) room_type with
  | None => get_available_rooms self room_type start duration = Raise
  | Some names =>
      exists l,
        get_available_rooms self room_type start duration = Ret l /\
        StronglySorted Z.lt l /\
        forall r, r ∈ l <->
                  0 <= r < Z.of_nat (length names) /\
                  free_at (room_slots self (room_type, r)) duration start
  end.
Proof.
  unfold get_available_rooms. destruct (rooms_get (rooms self) room_type) as [names|]; [|done].
  eexists. split; [done|]. split.
  - apply StronglySorted_filter, StronglySorted_seqZ.
  - intros r. rewrite list_elem_of_filter, slots_free_spec, elem_of_py_range.
    unfold room_slots. tauto.
Qed.

Lemma scan_starts_elem occupied duration cap space acc s :
  s ∈ scan_starts occupied duration cap space acc ->
  s ∈ acc \/ (s ∈ space /\ slots_free occupied s duration = true).
Proof.
  revert acc. induction space as [|start rest IH]; intros acc; simpl; [by left|].
  destruct (slots_free occupied start duration) eqn:Hfree.
  - case_bool_decide.
    + intros Hs. apply elem_of_app in Hs as [Hs|Hs]; [by left|].
      apply list_elem_of_singleton in Hs as ->. right. split; [by left|done].
    + intros Hs. apply IH in Hs as [Hs|[Hs Hf]].
      * apply elem_of_app in Hs as [Hs|Hs]; [by left|].
        apply list_elem_of_singleton in Hs as ->. right. split; [by left|done].
      * right. split; [by right|done].
  - intros Hs. apply IH in Hs as [Hs|[Hs Hf]]; [by left|].
    right. split; [by right|done].
Qed.

Lemma room_slots_commit self event k t :
  t ∈ room_slots (commit_event self event) k <->
  t ∈ room_slots self k \/
  (k = event_room_key event /\
   e_start_slot event <= t < e_start_slot event + e_duration event).
Proof.
  unfold room_slots, commit_event. simpl.
  destruct (decide (event_room_key event = k)) as [<-|Hne].
  - rewrite lookup_insert_eq. simpl. rewrite elem_of_union, elem_of_slots_needed.
    tauto.
  - rewrite lookup_insert_ne by done. split; [by left|].
    intros [?|[-> _]]; done.
Qed.

Lemma update_occupancy_rooms schedule self k t :
  t ∈ room_slots (update_occupancy_from_schedule schedule self) k <->
  t ∈ room_slots self k \/
  exists e, e ∈ schedule /\ k = event_room_key e /\
            e_start_slot e <= t < e_start_slot e + e_duration e.
Proof.
  unfold update_occupancy_from_schedule. revert self.
  induction schedule as [|e schedule IH]; intros self; simpl.
  - split; [by left|]. intros [?|(e & He & _)]; [done|]. by apply elem_of_nil in He.
  - rewrite IH, room_slots_commit. split.
    + intros [[?|[-> ?]]|(e' & He' & ?)]; [by left| |].
      * right. exists e. split; [by left|done].
      * right. exists e'. split; [by right|done].
    + intros [?|(e' & He' & -> & ?)]; [by left; left|].
      apply elem_of_cons in He' as [->|He']; [by left; right|].
      right. by exists e'.
Qed.

(** X18.  Once [update_occupancy_from_schedule] has committed a schedule,
    the slots of each of its events are taken: [get_available_time_slots]
    offers the event's section no start whose slots meet those of the
    event, and [get_available_rooms] does not list the event's room for
    any slot interval that meets them. *)
Theorem committed_events_block_their_slots (self : Scheduler) (schedule : list Event)
    (e : Event) :
  e ∈ schedule ->
  let self' := update_occupancy_from_schedule schedule self in
  (forall duration is_lab cap s,
     s ∈ get_available_time_slots self' (event_section_key e) duration is_lab cap ->
     slots_needed s duration ## slots_needed (e_start_slot e) (e_duration e)) /\
  (forall start duration l,
     get_available_rooms self' (e_room_type e) start duration = Ret l ->
     e_room_idx e ∈ l ->
     slots_needed start duration ## slots_needed (e_start_slot e) (e_duration e)).
Proof.
  intros He. simpl. split.
  - intros duration is_lab cap s Hs. unfold get_available_time_slots in Hs.
    apply scan_starts_elem in Hs as [Hs|[_ Hfree]]; [by apply elem_of_nil in Hs|].
    apply slots_free_spec in Hfree. intros t Ht1 Ht2.
    apply elem_of_slots_needed in Ht1, Ht2. apply (Hfree t Ht1).
    destruct (update_occupancy_spec schedule self) as (_ & _ & _ & _ & _ & Hledger).
    apply Hledger. right. by exists e.
  - intros start duration l Hl Hin. unfold get_available_rooms in Hl.
    destruct (rooms_get _ _) as [names|]; [|done]. injection Hl as <-.
    apply list_elem_of_filter in Hin as [Hfree _]. apply slots_free_spec in Hfree.
    intros t Ht1 Ht2. apply elem_of_slots_needed in Ht1, Ht2. apply (Hfree t Ht1).
    apply update_occupancy_rooms. right. by exists e.
Qed.

Lemma committed_events_block_their_slots_witness :
  demo_event ∈ [demo_event] /\
  forall s,
    s ∈ get_available_time_slots
          (update_occupancy_from_schedule [demo_event] one_short_day)
          (event_section_key demo_event) 2 false 1000 ->
    slots_needed s 2 ## slots_needed (e_start_slot demo_event) (e_duration demo_event).
Proof.
  assert (demo_event ∈ [demo_event]) as H by apply list_elem_of_here.
  split; [exact H|].
  destruct (committed_events_block_their_slots one_short_day [demo_event] demo_event H)
    as [Hstarts _].
  intros s. apply Hstarts.
Defined.

(** X19.  In the schedule of a phase that succeeds, two events of one
    section never meet; the phase records the slots of each of its events
    in the ledger of the event's section; and it places no event on a slot
    that the ledger held for the section before the phase, unless the
    section had no free start left for a meeting of that kind (in which
    case the builder falls back to the whole search space). *)
Theorem phases_respect_the_ledger (self : Scheduler) (courses : list Course)
    (phase_num total_phases : Z) (self' : Scheduler) (sched : list Event) :
  solve_phase self courses phase_num total_phases = (self', Ret (Some sched)) ->
  section_exclusive sched /\
  forall e, e ∈ sched ->
    (forall t, e_start_slot e <= t < e_start_slot e + e_duration e ->
               t ∈ section_slots self' (event_section_key e)) /\
    (free_starts self (event_section_key e) (e_duration e)
       (bool_decide (e_room_type e = lab)) <> [] ->
     forall t, e_start_slot e <= t < e_start_slot e + e_duration e ->
               t ∉ section_slots self (event_section_key e)).
Proof.
  intros H. apply solve_phase_spec in H as [_ Hres].
  split; [apply (pr_section_exclusive _ _ _ _ Hres)|].
  intros e He. split.
  - intros t Ht. by eapply (pr_ledger_covers _ _ _ _ Hres).
  - intros Hfree t Ht.
    pose proof (pr_starts _ _ _ _ Hres) as Hstarts. rewrite Forall_forall in Hstarts.
    destruct (Hstarts _ He) as [_ Hallowed]. by apply (Hallowed Hfree).
Qed.

Lemma phases_respect_the_ledger_witness :
  demo_phase_1 = (demo_phase_1.1, Ret (Some [demo_event])) /\
  forall t, 0 <= t < 2 -> t ∈ section_slots demo_phase_1.1 ("BSCS"%string, 1%nat, 65%nat).
Proof.
  assert (solve_phase demo_loaded [demo_fr101] 1 2
          = (demo_phase_1.1, Ret (Some [demo_event]))) as H
    by (vm_compute; reflexivity).
  split; [exact H|].
  destruct (phases_respect_the_ledger demo_loaded [demo_fr101] 1 2 demo_phase_1.1
              [demo_event] H) as [_ Hledger].
  destruct (Hledger demo_event) as [Hcovers _].
  - apply list_elem_of_here.
  - exact Hcovers.
Defined.

(** ** What a catalog must offer *)

Lemma shape_has_event (schedule : list Event) (shapes : list Shape) sh :
  event_shape <$> schedule ≡ₚ shapes -> sh ∈ shapes ->
  exists e, e ∈ schedule /\ event_shape e = sh.
Proof.
  intros Hperm Hsh. rewrite <- Hperm in Hsh.
  apply list_elem_of_fmap in Hsh as (e & -> & He). by exists e.
Qed.

(** X20.  A run produces a schedule only if the catalog can hold it: for
    every course with at least one block, the room list of each kind of
    meeting the course needs exists and is not empty, and if the course
    needs any meeting there is at least one day and the day ends after it
    starts. *)
Theorem schedules_need_rooms_and_days (pid : option string) (cat : Catalog)
    (answers : list (option Assignment)) (schedule : list Event) (courses : list Course)
    (rs : Rooms) (ts : TimeSettings) (ds : list string) (course : Course) :
  internal_schedule pid cat answers = Some schedule ->
  load_courses cat = Ret courses -> load_rooms cat = Ret rs ->
  load_time_settings cat = Ret ts -> load_days cat = Ret ds ->
  course ∈ courses -> (0 < blocks course)%nat ->
  ((0 < unitsLecture course)%nat ->
   (exists names, rooms_get rs lecture = Some names /\ names <> []) /\
   ds <> [] /\ start_time ts < end_time ts) /\
  ((0 < unitsLab course)%nat ->
   (exists names, rooms_get rs lab = Some names /\ names <> []) /\
   ds <> [] /\ start_time ts < end_time ts).
Proof.
  intros H Hc Hr Ht Hd Hcourse Hblocks.
  destruct (run_shapes _ _ _ _ H) as (courses' & Hc' & Hshapes & _).
  rewrite Hc in Hc'. injection Hc' as <-.
  destruct (run_rooms _ _ _ _ H) as (rs' & Hr' & Hrooms).
  rewrite Hr in Hr'. injection Hr' as <-.
  destruct (run_grid _ _ _ _ H) as (ts' & ds' & Ht' & Hd' & Hgrid).
  rewrite Ht in Ht'. injection Ht' as <-. rewrite Hd in Hd'. injection Hd' as <-.
  rewrite Forall_forall in Hrooms, Hgrid.
  assert (forall t dur,
            (courseCode course, title course, program course, yearLevel course,
             block_letter 0, t, dur) ∈ course_shapes course ->
            0 < dur ->
            (exists names, rooms_get rs t = Some names /\ names <> []) /\
            ds <> [] /\ start_time ts < end_time ts) as Hneed.
  { intros t dur Hsh Hdur.
    destruct (shape_has_event schedule (courses ≫= course_shapes)
                (courseCode course, title course, program course, yearLevel course,
                 block_letter 0, t, dur) Hshapes)
      as (e & He & Hshape).
    { apply list_elem_of_bind. by exists course. }
    unfold event_shape in Hshape. injection Hshape as _ _ _ _ _ Htype Hdur'.
    destruct (Hrooms _ He) as (names & Hn & Hidx & _).
    destruct (Hgrid _ He) as (Hinc & Hstart & Hend & _).
    rewrite Htype in Hn. split_and!.
    - exists names. split; [done|]. intros ->. simpl in Hidx. lia.
    - intros ->. simpl in Hend. lia.
    - lia. }
  split; intros Hunits.
  - apply (Hneed lecture 2); [|lia].
    apply elem_of_course_shapes. exists 0%nat. split; [done|]. by left.
  - apply (Hneed lab 3); [|lia].
    apply elem_of_course_shapes. exists 0%nat. split; [done|]. by right.
Qed.

Lemma schedules_need_rooms_and_days_witness :
  exists names, rooms_get demo_rooms lab = Some names /\ names <> [].
Proof.
  destruct (schedules_need_rooms_and_days demo_pid demo_catalog demo_answers demo_schedule
              demo_courses demo_rooms (mkTimeSettings 8 17) ["Mon"%string] demo_cs201)
    as [_ Hlab].
  - vm_compute. reflexivity.
  - reflexivity.
  - reflexivity.
  - reflexivity.
  - reflexivity.
  - apply list_elem_of_further, list_elem_of_here.
  - simpl. lia.
  - apply Hlab. simpl. lia.
Defined.

(** ** The phases of a run *)

Lemma phase_groups_length all : (length (phase_groups all) <= 3)%nat.
Proof. rewrite phase_groups_by_value. etrans; [apply length_filter|]. done. Qed.

Lemma phase_groups_nonempty all : Forall (fun g => g <> []) (phase_groups all).
Proof.
  rewrite phase_groups_by_value. apply Forall_forall. intros g Hg.
  by apply list_elem_of_filter in Hg as [Hne _].
Qed.

Lemma phase_groups_one_phase courses :
  Forall (fun g => forall c1 c2, c1 ∈ g -> c2 ∈ g -> course_phase c1 = course_phase c2)
         (phase_groups (prioritize_and_partition_courses courses)).
Proof.
  set (all := prioritize_and_partition_courses courses).
  assert (forall p c, c ∈ phase_courses_of all p -> course_phase c = p) as Hp.
  { intros p c Hc. by apply elem_of_phase_courses_of, partition_phase in Hc as [-> _]. }
  rewrite phase_groups_by_value. apply Forall_forall. intros g Hg.
  apply list_elem_of_filter in Hg as [_ Hg].
  apply list_elem_of_fmap in Hg as (p & -> & _).
  intros c1 c2 H1 H2. by rewrite (Hp _ _ H1), (Hp _ _ H2).
Qed.

Lemma phase_groups_ascending courses :
  StronglySorted (fun g1 g2 => forall c1 c2, c1 ∈ g1 -> c2 ∈ g2 ->
                    phase_value (course_phase c1) < phase_value (course_phase c2))
                 (phase_groups (prioritize_and_partition_courses courses)).
Proof.
  set (all := prioritize_and_partition_courses courses).
  assert (forall p c, c ∈ phase_courses_of all p -> course_phase c = p) as Hp.
  { intros p c Hc. by apply elem_of_phase_courses_of, partition_phase in Hc as [-> _]. }
  rewrite phase_groups_by_value. apply StronglySorted_filter.
  assert (forall p q, phase_value p < phase_value q ->
            forall c1 c2, c1 ∈ phase_courses_of all p -> c2 ∈ phase_courses_of all q ->
              phase_value (course_phase c1) < phase_value (course_phase c2)) as Hlt.
  { intros p q Hpq c1 c2 H1 H2. by rewrite (Hp _ _ H1), (Hp _ _ H2). }
  rewrite !fmap_cons, fmap_nil.
  apply SSorted_cons; [apply SSorted_cons; [apply SSorted_cons; [apply SSorted_nil|]|]|].
  - apply Forall_nil_2.
  - apply Forall_cons_2; [|apply Forall_nil_2]. apply Hlt. simpl. lia.
  - apply Forall_cons_2; [|apply Forall_cons_2; [|apply Forall_nil_2]];
      apply Hlt; simpl; lia.
Qed.

Lemma phases_run_ids_from self groups scheds self' :
  phases_run self groups scheds self' ->
  schedule_id self <= schedule_id self' /\
  Forall (fun e => schedule_id self <= e_schedule_id e < schedule_id self') (concat scheds).
Proof.
  induction 1 as [self|self courses groups sched scheds self1 self' Hres Hrun [IHle IH]];
    simpl; [split; [lia|constructor]|].
  destruct (pr_ids _ _ _ _ Hres) as (sid0 & Hle & Hids & Hnext).
  simpl in IHle, IH. split; [lia|].
  apply Forall_app. split.
  - apply Forall_forall. intros e He.
    apply (list_elem_of_fmap_2 e_schedule_id) in He. rewrite Hids in He.
    apply elem_of_seqZ in He. lia.
  - eapply Forall_impl; [exact IH|]. simpl. intros e. lia.
Qed.

Lemma event_code_in_phase (courses : list Course) (sched : list Event) e :
  event_shape <$> sched = courses ≫= course_shapes -> e ∈ sched ->
  exists course, course ∈ courses /\ e_baseCourseCode e = courseCode course.
Proof.
  intros Hshapes He.
  destruct (shape_of_course _ _ _ Hshapes He) as (course & Hc & Hsh).
  exists course. split; [done|].
  apply elem_of_course_shapes in Hsh as (b & _ & [[_ Hsh]|[_ Hsh]]);
    unfold event_shape in Hsh; by injection Hsh.
Qed.

(** The phases hand out schedule ids in the order in which they run. *)
Lemma phases_run_phase_order self groups scheds self' :
  phases_run self groups scheds self' ->
  NoDup (courseCode <$> concat groups) ->
  Forall (fun g => forall c1 c2, c1 ∈ g -> c2 ∈ g -> course_phase c1 = course_phase c2)
         groups ->
  StronglySorted (fun g1 g2 => forall c1 c2, c1 ∈ g1 -> c2 ∈ g2 ->
                    phase_value (course_phase c1) < phase_value (course_phase c2))
                 groups ->
  forall e1 e2 c1 c2,
    e1 ∈ concat scheds -> e2 ∈ concat scheds ->
    c1 ∈ concat groups -> c2 ∈ concat groups ->
    e_baseCourseCode e1 = courseCode c1 -> e_baseCourseCode e2 = courseCode c2 ->
    phase_value (course_phase c1) < phase_value (course_phase c2) ->
    e_schedule_id e1 < e_schedule_id e2.
Proof.
  induction 1 as [self|self courses groups sched scheds self1 self' Hres Hrun IH];
    intros Hnd Hone Hsorted e1 e2 c1 c2 He1 He2 Hc1 Hc2 Hcode1 Hcode2 Hlt.
  { by apply elem_of_nil in He1. }
  simpl in He1, He2, Hc1, Hc2, Hnd.
  apply Forall_cons in Hone as [Hone_head Hone].
  apply StronglySorted_inv in Hsorted as [Hsorted Hhead].
  assert (forall e c, e ∈ sched -> c ∈ courses ++ concat groups ->
                      e_baseCourseCode e = courseCode c -> c ∈ courses) as Hhere.
  { intros e c He Hc Hcode.
    destruct (event_code_in_phase _ _ _ (pr_shapes _ _ _ _ Hres) He) as (c' & Hc' & Hcode').
    assert (c = c') as ->; [|done].
    eapply (NoDup_fmap_eq courseCode); [exact Hnd|done| |congruence].
    apply elem_of_app. by left. }
  assert (forall e c, e ∈ concat scheds -> c ∈ courses ++ concat groups ->
                      e_baseCourseCode e = courseCode c -> c ∈ concat groups) as Hlater.
  { intros e c He Hc Hcode.
    destruct (event_code_in_phase _ _ _ (phases_run_shapes _ _ _ _ Hrun) He)
      as (c' & Hc' & Hcode').
    assert (c = c') as ->; [|done].
    eapply (NoDup_fmap_eq courseCode); [exact Hnd|done| |congruence].
    apply elem_of_app. by right. }
  rewrite fmap_app in Hnd. apply NoDup_app in Hnd as (_ & _ & Hnd').
  apply elem_of_app in He1 as [He1|He1], He2 as [He2|He2].
  - pose proof (Hhere _ _ He1 Hc1 Hcode1) as H1.
    pose proof (Hhere _ _ He2 Hc2 Hcode2) as H2.
    rewrite (Hone_head _ _ H1 H2) in Hlt. lia.
  - destruct (pr_ids _ _ _ _ Hres) as (sid0 & Hle & Hids & Hnext).
    apply (list_elem_of_fmap_2 e_schedule_id) in He1. rewrite Hids in He1.
    apply elem_of_seqZ in He1.
    destruct (phases_run_ids_from _ _ _ _ Hrun) as [_ Hfrom].
    rewrite Forall_forall in Hfrom. specialize (Hfrom _ He2). simpl in Hfrom. lia.
  - pose proof (Hlater _ _ He1 Hc1 Hcode1) as H1.
    pose proof (Hhere _ _ He2 Hc2 Hcode2) as H2.
    apply elem_of_concat in H1 as (g & H1 & Hg).
    rewrite Forall_forall in Hhead. specialize (Hhead _ Hg _ _ H2 H1). lia.
  - apply (IH Hnd' Hone Hsorted e1 e2 c1 c2); try done.
    + exact (Hlater _ _ He1 Hc1 Hcode1).
    + exact (Hlater _ _ He2 Hc2 Hcode2).
Qed.

(** X21.  [solve] runs the courses in at most three phases, in the order
    of their phase value.  The dictionary of phases that it builds from
    the partitioned courses and sorts by value gives groups of courses
    such that every course of the catalog is in exactly one group, no group
    is empty, the courses of a group all have the same phase, and the
    phase of an earlier group is lower than that of a later one.  In the
    schedule of a run over a catalog with pairwise different course codes,
    every event of a course of a lower phase therefore has a smaller
    schedule id than every event of a course of a higher phase. *)
Theorem courses_split_into_phases (courses : list Course) :
  let groups := phase_groups (prioritize_and_partition_courses courses) in
  concat groups ≡ₚ courses /\
  (length groups <= 3)%nat /\
  Forall (fun g => g <> []) groups /\
  Forall (fun g => forall c1 c2, c1 ∈ g -> c2 ∈ g -> course_phase c1 = course_phase c2)
         groups /\
  StronglySorted (fun g1 g2 => forall c1 c2, c1 ∈ g1 -> c2 ∈ g2 ->
                    phase_value (course_phase c1) < phase_value (course_phase c2))
                 groups /\
  forall (pid : option string) (cat : Catalog) (answers : list (option Assignment))
         (schedule : list Event),
    load_courses cat = Ret courses ->
    NoDup (courseCode <$> courses) ->
    internal_schedule pid cat answers = Some schedule ->
    forall e1 e2 c1 c2,
      e1 ∈ schedule -> e2 ∈ schedule -> c1 ∈ courses -> c2 ∈ courses ->
      e_baseCourseCode e1 = courseCode c1 -> e_baseCourseCode e2 = courseCode c2 ->
      phase_value (course_phase c1) < phase_value (course_phase c2) ->
      e_schedule_id e1 < e_schedule_id e2.
Proof.
  simpl. split_and!.
  - by rewrite phase_groups_concat, partition_courses_perm.
  - apply phase_groups_length.
  - apply phase_groups_nonempty.
  - apply phase_groups_one_phase.
  - apply phase_groups_ascending.
  - intros pid cat answers schedule Hc Hnd H e1 e2 c1 c2 He1 He2 Hc1 Hc2 Hcode1 Hcode2 Hlt.
    apply internal_schedule_trace in H
      as (courses' & rs & ts & ds & self0 & scheds & self1
          & Hc' & _ & _ & _ & _ & Hrun & Hperm).
    rewrite Hc in Hc'. injection Hc' as <-.
    assert (forall c, c ∈ courses ->
              c ∈ concat (phase_groups (prioritize_and_partition_courses courses)))
      as Hin.
    { intros c Hin. by rewrite phase_groups_concat, partition_courses_perm. }
    rewrite Hperm in He1, He2.
    eapply (phases_run_phase_order _ _ _ _ Hrun); try done; try (by apply Hin).
    + by apply phase_groups_codes.
    + apply phase_groups_one_phase.
    + apply phase_groups_ascending.
Qed.

Lemma courses_split_into_phases_witness :
  internal_schedule demo_pid demo_catalog demo_answers = Some demo_schedule /\
  forall e, e ∈ demo_schedule -> e_baseCourseCode e = "CS201"%string ->
            e_schedule_id demo_event < e_schedule_id e.
Proof.
  assert (internal_schedule demo_pid demo_catalog demo_answers = Some demo_schedule) as H
    by (vm_compute; reflexivity).
  split; [exact H|].
  destruct (courses_split_into_phases demo_courses) as (_ & _ & _ & _ & _ & Horder).
  intros e He Hcode.
  apply (Horder demo_pid demo_catalog demo_answers demo_schedule eq_refl
           ltac:(apply (bool_decide_unpack _); vm_compute; exact I) H
           demo_event e demo_fr101 demo_cs201).
  - apply list_elem_of_here.
  - exact He.
  - apply list_elem_of_here.
  - apply list_elem_of_further, list_elem_of_here.
  - reflexivity.
  - exact Hcode.
  - simpl. lia.
Defined.

(** ** Periods *)

Lemma period_table :
  forallb (fun s => forallb (fun o => forallb (period_checked s o) [2; 3]) (seqZ 0 48))
          (seqZ 0 25) = true.
Proof. vm_compute. reflexivity. Qed.

Lemma period_checked_true s o d :
  0 <= s <= 24 -> 0 <= o < 48 -> d = 2 \/ d = 3 -> period_checked s o d = true.
Proof.
  intros Hs Ho Hd.
  assert (In s (seqZ 0 25)) as Hs' by (apply list_elem_of_In, elem_of_seqZ; lia).
  assert (In o (seqZ 0 48)) as Ho' by (apply list_elem_of_In, elem_of_seqZ; lia).
  assert (In d [2; 3]) as Hd' by (destruct Hd as [-> | ->]; [left|right; left]; done).
  pose proof (proj1 (forallb_forall _ _) period_table s Hs') as H1. cbv beta in H1.
  pose proof (proj1 (forallb_forall _ _) H1 o Ho') as H2. cbv beta in H2.
  exact (proj1 (forallb_forall _ _) H2 d Hd').
Qed.

(** X22.  When the day starts at or after 0 and ends by 24 o'clock, the
    [period] of every event is the clock time of its first slot, a dash,
    and the clock time at which its last slot ends, on a twelve-hour clock
    with minutes 00 or 30: the floating-point arithmetic of
    [extract_phase_solution] loses nothing. *)
Theorem periods_are_clock_times (pid : option string) (cat : Catalog)
    (answers : list (option Assignment)) (schedule : list Event) (ts : TimeSettings) :
  internal_schedule pid cat answers = Some schedule ->
  load_time_settings cat = Ret ts ->
  0 <= start_time ts -> end_time ts <= 24 ->
  Forall (fun e => e_period e = period_of_slots ts e) schedule.
Proof.
  intros H Ht Hstart Hend.
  destruct (run_grid _ _ _ _ H) as (ts' & ds & Ht' & _ & Hgrid).
  rewrite Ht in Ht'. injection Ht' as <-.
  apply (run_Forall (fun self e =>
           period_formatted self e /\
           e_duration e = match e_room_type e with
                          | lecture => 2
                          | lab => 3
                          end)) in H
    as (courses & rs & ts' & ds' & self0 & _ & _ & Ht' & _ & Hl & Hall).
  - rewrite Ht in Ht'. injection Ht' as <-.
    rewrite Forall_forall in Hgrid, Hall. apply Forall_forall. intros e He.
    destruct (Hgrid _ He) as (Hinc & _).
    destruct (Hall _ He) as ((t1 & t2 & H1 & H2 & ->) & Hdur).
    unfold event_hours in H1, H2.
    rewrite (ld_start_t _ _ _ _ _ Hl), (ld_inc_hr _ _ _ _ _ Hl),
      (ld_inc_day _ _ _ _ _ Hl) in H1, H2.
    simpl in Hinc. set (inc := (end_time ts - start_time ts) * 2) in *.
    pose proof (Z.mod_pos_bound (e_start_slot e) inc Hinc) as Hoffs.
    pose proof (period_checked_true (start_time ts) (e_start_slot e `mod` inc)
                  (e_duration e)) as Hcheck.
    unfold period_checked in Hcheck. rewrite H1, H2 in Hcheck.
    rewrite andb_true_iff, !bool_decide_eq_true in Hcheck.
    destruct Hcheck as [-> ->]; [lia|lia|by destruct (e_room_type e); [left|right]|].
    done.
  - intros s s' e (_ & _ & _ & _ & Hst & _ & Hih & Hinc & _) [Hp Hd].
    split; [|done]. unfold period_formatted, event_hours in *. by rewrite Hst, Hih, Hinc.
  - intros self cs sched self1 Hres.
    pose proof (pr_periods _ _ _ _ Hres) as Hperiods.
    pose proof (phase_durations _ _ _ _ Hres) as Hdur.
    rewrite Forall_forall in Hperiods, Hdur. apply Forall_forall. intros e He.
    split; [by apply Hperiods|by apply Hdur].
Qed.

Lemma periods_are_clock_times_witness :
  internal_schedule demo_pid demo_catalog demo_answers = Some demo_schedule /\
  Forall (fun e => e_period e = period_of_slots (mkTimeSettings 8 17) e) demo_schedule.
Proof.
  assert (internal_schedule demo_pid demo_catalog demo_answers = Some demo_schedule) as H
    by (vm_compute; reflexivity).
  split; [exact H|].
  apply (periods_are_clock_times demo_pid demo_catalog demo_answers demo_schedule
           (mkTimeSettings 8 17) H).
  - reflexivity.
  - simpl. lia.
  - simpl. lia.
Defined.

(** ** Meetings per day *)

Lemma event_code_of_course course e :
  event_shape e ∈ course_shapes course -> e_baseCourseCode e = courseCode course.
Proof. intros H. by apply shape_code_of_course in H. Qed.

Lemma phases_run_caps self groups scheds self' :
  phases_run self groups scheds self' ->
  NoDup (courseCode <$> concat groups) ->
  meetings_capped (inc_day self) (length (days self)) (concat scheds).
Proof.
  induction 1 as [self|self courses groups sched scheds self1 self' Hres Hrun IH];
    intros Hnd key d Hd; simpl; [lia|].
  simpl in Hnd. rewrite fmap_app in Hnd. apply NoDup_app in Hnd as (Hnd1 & Hdisj & Hnd2).
  rewrite filter_app, length_app.
  pose proof (pr_caps _ _ _ _ Hres Hnd1 key d Hd) as H1.
  assert (same_catalog self (set_global_schedule (global_schedule self ++ sched) self1))
    as (_ & _ & _ & Hdays & _ & _ & _ & Hinc & _).
  { etrans; [apply (pr_catalog _ _ _ _ Hres)|apply same_catalog_set_global]. }
  specialize (IH Hnd2 key d). rewrite <- Hdays, <- Hinc in IH. specialize (IH Hd).
  destruct (filter _ sched) as [|x xs] eqn:Hx; [simpl; lia|].
  destruct (filter _ (concat scheds)) as [|y ys] eqn:Hy; [simpl in *; lia|].
  assert (x ∈ filter (fun e => event_course_key e = key /\
                               e_start_slot e `div` inc_day self = d) sched)
    as Hinx by (rewrite Hx; by left).
  assert (y ∈ filter (fun e => event_course_key e = key /\
                               e_start_slot e `div` inc_day self = d) (concat scheds))
    as Hiny by (rewrite Hy; by left).
  apply list_elem_of_filter in Hinx as [[Hkx _] Hinx].
  apply list_elem_of_filter in Hiny as [[Hky _] Hiny].
  destruct (shape_of_course _ _ _ (pr_shapes _ _ _ _ Hres) Hinx) as (c1 & Hc1 & Hs1).
  destruct (shape_of_course _ _ _ (phases_run_shapes _ _ _ _ Hrun) Hiny) as (c2 & Hc2 & Hs2).
  apply event_code_of_course in Hs1, Hs2.
  destruct (Hdisj (courseCode c1)).
  - by apply list_elem_of_fmap_2.
  - assert (courseCode c1 = courseCode c2) as ->; [|by apply list_elem_of_fmap_2].
    rewrite <- Hs1, <- Hs2. rewrite <- Hky in Hkx.
    unfold event_course_key in Hkx. by injection Hkx.
Qed.

Lemma run_caps pid cat answers schedule courses ts ds :
  internal_schedule pid cat answers = Some schedule ->
  load_courses cat = Ret courses -> NoDup (courseCode <$> courses) ->
  load_time_settings cat = Ret ts -> load_days cat = Ret ds ->
  meetings_capped ((end_time ts - start_time ts) * 2) (length ds) schedule.
Proof.
  intros H Hc Hnd Ht Hd.
  apply internal_schedule_trace in H
    as (courses' & rs & ts' & ds' & self0 & scheds & self1 & Hc' & _ & Ht' & Hd' & Hl & Hrun
        & Hperm).
  rewrite Hc in Hc'. injection Hc' as <-. rewrite Ht in Ht'. injection Ht' as <-.
  rewrite Hd in Hd'. injection Hd' as <-.
  pose proof (phases_run_caps _ _ _ _ Hrun (phase_groups_codes _ Hnd)) as Hcaps.
  rewrite (ld_inc_day _ _ _ _ _ Hl), (ld_days _ _ _ _ _ Hl) in Hcaps.
  intros key d Hdr. rewrite Hperm. by apply Hcaps.
Qed.

Lemma length_filter_ext {A} (P Q : A -> Prop) `{forall x, Decision (P x)}
    `{forall x, Decision (Q x)} (l : list A) :
  (forall x, x ∈ l -> P x <-> Q x) -> length (filter P l) = length (filter Q l).
Proof.
  intros Hall. rewrite <- (list_fmap_id l) at 2. by apply length_filter_fmap.
Qed.

(** X23.  When the course codes of the catalog are pairwise different, no
    block of a course has more than one lecture meeting, or more than two
    laboratory meetings, that start on the same day. *)
Theorem meetings_per_day (pid : option string) (cat : Catalog)
    (answers : list (option Assignment)) (schedule : list Event) (courses : list Course)
    (ts : TimeSettings) (ds : list string) :
  internal_schedule pid cat answers = Some schedule ->
  load_courses cat = Ret courses -> NoDup (courseCode <$> courses) ->
  load_time_settings cat = Ret ts -> load_days cat = Ret ds ->
  forall course b d, course ∈ courses -> 0 <= d < Z.of_nat (length ds) ->
    let on_day (e : Event) :=
      e_start_slot e `div` ((end_time ts - start_time ts) * 2) = d in
    (length (filter on_day (meetings_of course b "Lecture" schedule)) <= 1)%nat /\
    (length (filter on_day (meetings_of course b "Laboratory" schedule)) <= 2)%nat.
Proof.
  intros H Hc Hnd Ht Hd course b d Hcourse Hdr. simpl.
  pose proof (run_caps _ _ _ _ _ _ _ H Hc Hnd Ht Hd) as Hcaps.
  destruct (run_shapes _ _ _ _ H) as (courses' & Hc' & Hshapes & Hwords).
  rewrite Hc in Hc'. injection Hc' as <-.
  pose proof (shapes_from_courses _ _ Hshapes Hwords) as Hfrom.
  rewrite Forall_forall in Hfrom, Hwords.
  set (on_day := fun e : Event =>
                   e_start_slot e `div` ((end_time ts - start_time ts) * 2) = d).
  assert (forall t,
            (length (filter on_day (meetings_of course b (session_word t) schedule))
             <= day_cap t)%nat) as Hcount.
  { intros t. unfold meetings_of. rewrite list_filter_filter.
    etrans; [|apply (Hcaps (courseCode course, program course, yearLevel course,
                            block_letter b, t) d Hdr)].
    apply Nat.eq_le_incl, length_filter_ext. intros e He.
    destruct (Hfrom _ He) as (c' & b' & Hc' & _ & Hcode & _ & Hprog & Hyr & _).
    specialize (Hwords _ He). unfold event_course_key. split.
    - intros (Hday & Hcode' & Hblock & Hword). split; [|done].
      assert (c' = course) as ->.
      { eapply (NoDup_fmap_eq courseCode); [exact Hnd|done..|congruence]. }
      assert (e_room_type e = t) as ->.
      { rewrite Hwords in Hword. by destruct (e_room_type e), t. }
      congruence.
    - intros [[= Hcode' _ _ Hblock Htype] Hday]. split_and!; try done.
      by rewrite Hwords, Htype. }
  split; [apply (Hcount lecture)|apply (Hcount lab)].
Qed.

Lemma meetings_per_day_witness :
  (length (filter (fun e => (e_start_slot e `div` ((17 - 8) * 2) = 0)%Z)
                  (meetings_of demo_cs201 0 "Laboratory" demo_schedule)) <= 2)%nat.
Proof.
  destruct (meetings_per_day demo_pid demo_catalog demo_answers demo_schedule demo_courses
              (mkTimeSettings 8 17) ["Mon"%string]) with (course := demo_cs201)
              (b := 0%nat) (d := 0) as [_ Hlab].
  - vm_compute. reflexivity.
  - reflexivity.
  - apply (bool_decide_unpack _). vm_compute. exact I.
  - reflexivity.
  - reflexivity.
  - apply list_elem_of_further, list_elem_of_here.
  - simpl. lia.
  - exact Hlab.
Defined.

(** ** Calls of the solver *)

Lemma update_progress_answers v s : solver_answers (update_progress v s) = solver_answers s.
Proof. apply update_progress_solver_answers. Qed.

Lemma pop_answer_drop self answer self' :
  pop_answer self = (answer, self') ->
  solver_answers self' = drop 1 (solver_answers self).
Proof.
  unfold pop_answer. destruct (solver_answers self) as [|ans rest] eqn:Hans;
    intros [= _ <-]; [by rewrite Hans|done].
Qed.

Lemma solve_phase_attempt_calls self courses phase_num total_phases timeout optimize
    self' r :
  solve_phase_attempt self courses phase_num total_phases timeout optimize = (self', r) ->
  exists k, (k <= 1)%nat /\ solver_answers self' = drop k (solver_answers self).
Proof.
  unfold solve_phase_attempt.
  case_bool_decide as HP; [intros [= <- _]; exists 0%nat; split; [lia|done]|].
  destruct (build_courses _ _ _ _ _ _ _) as [[self1 b1] r1] eqn:Hbuild.
  apply build_courses_spec in Hbuild as (_ & Hans1 & _).
  destruct r1 as [[sessions|]|]; try (intros [= <- _]; exists 0%nat; split; [lia|done]).
  destruct (pop_answer (configure_solver timeout self1)) as [answer self2] eqn:Hpop.
  apply pop_answer_drop in Hpop.
  destruct (configure_solver_setting timeout self1) as (_ & _ & Hanswers & _).
  rewrite Hanswers, Hans1 in Hpop.
  destruct (Solve _ answer) as [a|]; [|intros [= <- _]; exists 1%nat; split; [lia|done]].
  destruct (extract_phase_solution self2 a sessions) as [sched|]; intros [= <- _].
  - exists 1%nat. split; [done|].
    destruct (update_occupancy_spec sched self2) as (_ & _ & _ & _ & Hans & _).
    simpl in Hans. by rewrite Hans.
  - exists 1%nat; split; [lia|done].
Qed.

Lemma solve_phase_calls self courses phase_num total_phases self' r :
  solve_phase self courses phase_num total_phases = (self', r) ->
  exists k, (k <= 2)%nat /\ solver_answers self' = drop k (solver_answers self).
Proof.
  unfold solve_phase. destruct courses as [|c courses'] eqn:Hcs.
  { intros [= <- _]. exists 0%nat; split; [lia|done]. }
  rewrite <- Hcs. clear Hcs.
  destruct (get_phase_timeout _ _ _) as [timeout|]; [|intros [= <- _]; exists 0%nat; split; [lia|done]].
  destruct (solve_phase_attempt self courses phase_num total_phases timeout false)
    as [self1 r1] eqn:H1.
  apply solve_phase_attempt_calls in H1 as (k1 & Hk1 & Ha1).
  destruct r1 as [[sched|]|]; try (intros [= <- _]; exists k1; split; [lia|done]).
  destruct (retry_timeout timeout) as [timeout2|];
    [|intros [= <- _]; exists k1; split; [lia|done]].
  intros H2. apply solve_phase_attempt_calls in H2 as (k2 & Hk2 & Ha2).
  exists (k1 + k2)%nat. split; [lia|]. by rewrite Ha2, Ha1, drop_drop.
Qed.

Lemma solve_phases_calls self groups phase_num total_phases combined self' r :
  solve_phases self groups phase_num total_phases combined = (self', r) ->
  exists k, (k <= 2 * length groups)%nat /\
            solver_answers self' = drop k (solver_answers self).
Proof.
  revert self phase_num combined.
  induction groups as [|courses groups IH]; intros self phase_num combined; simpl.
  - intros [= <- _]. exists 0%nat; split; [lia|done].
  - destruct (solve_phase self courses phase_num total_phases) as [self1 r1] eqn:H1.
    apply solve_phase_calls in H1 as (k1 & Hk1 & Ha1).
    destruct r1 as [[sched|]|].
    + intros Hrest. apply IH in Hrest as (k2 & Hk2 & Ha2). simpl in Ha2.
      exists (k1 + k2)%nat. split; [lia|]. by rewrite Ha2, Ha1, drop_drop.
    + intros [= <- _]. exists k1. split; [lia|]. by rewrite update_progress_answers.
    + intros [= <- _]. exists k1. split; [lia|done].
Qed.

(** X24.  [solve] consults the solver at most twice for each of its at
    most three phases: whatever the outcome, it has used up at most the
    first six of the solver's answers, in their order. *)
Theorem solver_is_called_at_most_six_times (self : Scheduler) :
  exists k, (k <= 6)%nat /\
            solver_answers (solve self).1 = drop k (solver_answers self).
Proof.
  unfold solve, solve_sorted.
  destruct (solve_phases _ _ _ _ _) as [self1 r] eqn:Hrun.
  apply solve_phases_calls in Hrun as (k & Hk & Ha).
  rewrite update_progress_answers in Ha.
  pose proof (phase_groups_length (all_courses (update_progress 52 self))) as Hlen.
  exists k. split; [lia|].
  destruct r as [[combined|]|]; simpl; [|done..].
  destruct (exc_map (final_key self1) combined) as [keyed|]; simpl; [|done].
  by rewrite update_progress_answers.
Qed.

(** ** The time limits of the solver *)








